(** * clir: a shallow embedding of the line editor (clir.c, example.c)

    The C program is embedded function by function.  Integers are [Z];
    [size_t] arithmetic that the code leaves unguarded has its wrap-around
    modulo 2^64 written out, conversions to [int] wrap to 32 bits.  The
    edited line is the caller's [char] array, a [list ascii] whose length is
    the real size of the array; C strings are [string]s (they never hold
    the NUL character).  Terminal I/O goes through an explicit world: a
    queue of pending input, a queue of outcomes for the next [write(2)]
    calls, and the trace of what the program did. *)

From Stdlib Require Import ZArith String Ascii List Bool Lia DecimalString.
From stdpp Require Import base tactics option list strings.

Local Open Scope string_scope.
Local Open Scope list_scope.
Local Open Scope Z_scope.

(** ** Machine integers *)

Definition u64 (z : Z) : Z := z mod 2 ^ 64.
Definition s32 (z : Z) : Z := (z + 2 ^ 31) mod 2 ^ 32 - 2 ^ 31.

(** ** History (the process-wide [history], [history_len],
       [history_max_len]) *)

Module Hist.

Definition LINENOISE_DEFAULT_HISTORY_MAX_LEN : Z := 100.
Definition LINENOISE_MAX_LINE : Z := 4096.

(** [history] is [None] while the C pointer is NULL; otherwise it is the
    allocated array of [char*] slots, a slot being [None] when it holds
    NULL.  [free] leaves the pointer value in its slot, so slots at or
    above [history_len] may hold stale entries that the code never reads. *)
Record History := mkHistory {
  history : option (list (option string));
  history_len : Z;
  history_max_len : Z
}.

Definition history_init : History :=
  mkHistory None 0 LINENOISE_DEFAULT_HISTORY_MAX_LEN.

Definition slots (h : History) : list (option string) :=
  default [] (history h).

(** The live contents: slots [0 .. history_len-1], oldest first. *)
Definition entries (h : History) : list string :=
  omap id (take (Z.to_nat (history_len h)) (slots h)).

Definition slot (h : History) (i : Z) : option string :=
  if i <? 0 then None else mjoin (slots h !! Z.to_nat i).

(** [memmove(history,history+1,sizeof(char* )*(n-1))]: the first [n-1]
    slots take the value of their right neighbour, the rest stay. *)
Definition shift_down (n : Z) (a : list (option string)) : list (option string) :=
  take (Z.to_nat (n - 1)) (drop 1 a) ++ drop (Z.to_nat (n - 1)) a.

(** [clirHistoryAdd], block by block.  [malloc] and [strdup] are taken to
    succeed.  First block: [if (history == NULL) { malloc; memset }]. *)
Definition alloc (h : History) : History :=
  match history h with
  | None => mkHistory (Some (replicate (Z.to_nat (history_max_len h)) None))
                      (history_len h) (history_max_len h)
  | Some _ => h
  end.

(** Second block: [if (history_len == history_max_len) { free(history[0]);
    memmove(...); history_len--; }]. *)
Definition evict (h : History) : History :=
  if history_len h =? history_max_len h then
    mkHistory (Some (shift_down (history_max_len h) (slots h)))
              (history_len h - 1) (history_max_len h)
  else h.

(** Third block: the duplicate test, which comes after the eviction, and
    the store of the copy. *)
Definition append (line : string) (h : History) : Z * History :=
  if negb (history_len h =? 0)
     && bool_decide (slot h (history_len h - 1) = Some line)
  then (0, h)
  else (1, mkHistory (Some (<[Z.to_nat (history_len h) := Some line]> (slots h)))
                     (history_len h + 1) (history_max_len h)).

Definition clirHistoryAdd (line : string) (h : History) : Z * History :=
  if history_max_len h =? 0 then (0, h) else append line (evict (alloc h)).

(** [clirHistorySetMaxLen]. *)
Definition clirHistorySetMaxLen (len : Z) (h : History) : Z * History :=
  if len <? 1 then (0, h) else
  let h1 :=
    match history h with
    | Some a =>
        let tocopy := history_len h in
        let tocopy := if len <? tocopy then len else tocopy in
        mkHistory
          (Some (take (Z.to_nat tocopy) (drop (Z.to_nat (history_len h - tocopy)) a)
                 ++ replicate (Z.to_nat (len - tocopy)) None))
          (history_len h) (history_max_len h)
    | None => h
    end in
  let h2 := mkHistory (history h1) (history_len h1) len in
  (1, if history_len h2 >? history_max_len h2
      then mkHistory (history h2) (history_max_len h2) (history_max_len h2)
      else h2).

(** The two mutating operations of the public interface. *)
Inductive op := Add (line : string) | SetMaxLen (n : Z).

Definition run_op (o : op) (h : History) : History :=
  match o with
  | Add line => snd (clirHistoryAdd line h)
  | SetMaxLen n => snd (clirHistorySetMaxLen n h)
  end.

Definition run_ops (os : list op) (h : History) : History :=
  fold_left (fun h o => run_op o h) os h.

(** Shape of a store the code can be in: the array, when allocated, has
    [history_max_len] slots, of which the first [history_len] are live. *)
Record wf (h : History) : Prop := mkWf {
  wf_max : 1 <= history_max_len h;
  wf_len : 0 <= history_len h <= history_max_len h;
  wf_null : history h = None -> history_len h = 0;
  wf_size : forall a, history h = Some a -> length a = Z.to_nat (history_max_len h);
  wf_live : forall i, (i < Z.to_nat (history_len h))%nat ->
                      exists s, slots h !! i = Some (Some s)
}.

End Hist.

(** ** The editor: state, world and the monad the code runs in *)

Module Edit.
Import Hist.

(** Characters.  [char] is signed on the targets the program is built
    for, so comparisons go through [schar]. *)
Definition NUL : ascii := "000"%char.
Definition SPACE : ascii := " "%char.
Definition code (c : ascii) : Z := Z.of_N (N_of_ascii c).
Definition schar (c : ascii) : Z := if code c <? 128 then code c else code c - 256.
Definition ESC : string := String "027"%char "".
Definition CRLF : string := String "013"%char (String "010"%char "").

(** [isspace] in the C locale. *)
Definition isspace (c : ascii) : bool :=
  (schar c =? 32) || ((9 <=? schar c) && (schar c <=? 13)).

(** ["%d"] *)
Definition dec (z : Z) : string := NilZero.string_of_int (Z.to_int z).

Definition strlen (s : string) : Z := Z.of_nat (String.length s).

(** The C string that starts at offset 0 of a [char] array: everything
    before the first NUL. *)
Fixpoint cstr (a : list ascii) : string :=
  match a with
  | [] => EmptyString
  | c :: a' => if Ascii.eqb c NUL then EmptyString else String c (cstr a')
  end.

(** Modelled from the spec: clir.h, which declares [clirCompletions] and
    [clirCompletionCallback], is not among the sources.  The spec calls the
    completion set "an ordered sequence of candidate strings produced fresh
    on each completion request" and the producer an external callback that
    "receives current typed-prefix, returns candidate strings"; clir.c uses
    the set through [cc.len] and [cc.cvec[i]] and fills it with
    [clirAddCompletion].  The callback is modelled by the list of strings
    it adds, in order, as a function of the C string it is handed. *)
Definition clirCompletions : Type := list string.
Definition clirCompletionCallback : Type := string -> clirCompletions.

(** [struct clirState]. *)
Record clirState := mkState {
  fd : Z;
  buf : list ascii;     (* the caller's array, of its real size *)
  buflen : Z;
  prompt : string;
  plen : Z;
  pos : Z;
  oldpos : Z;
  len : Z;
  cols : Z;
  maxrows : Z;
  history_index : Z;
  word_pos : Z
}.

Definition set_buf v c := mkState (fd c) v (buflen c) (prompt c) (plen c) (pos c)
  (oldpos c) (len c) (cols c) (maxrows c) (history_index c) (word_pos c).
Definition set_pos v c := mkState (fd c) (buf c) (buflen c) (prompt c) (plen c) v
  (oldpos c) (len c) (cols c) (maxrows c) (history_index c) (word_pos c).
Definition set_oldpos v c := mkState (fd c) (buf c) (buflen c) (prompt c) (plen c) (pos c)
  v (len c) (cols c) (maxrows c) (history_index c) (word_pos c).
Definition set_len v c := mkState (fd c) (buf c) (buflen c) (prompt c) (plen c) (pos c)
  (oldpos c) v (cols c) (maxrows c) (history_index c) (word_pos c).
Definition set_maxrows v c := mkState (fd c) (buf c) (buflen c) (prompt c) (plen c) (pos c)
  (oldpos c) (len c) (cols c) v (history_index c) (word_pos c).
Definition set_history_index v c := mkState (fd c) (buf c) (buflen c) (prompt c) (plen c)
  (pos c) (oldpos c) (len c) (cols c) (maxrows c) v (word_pos c).
Definition set_word_pos v c := mkState (fd c) (buf c) (buflen c) (prompt c) (plen c)
  (pos c) (oldpos c) (len c) (cols c) (maxrows c) (history_index c) v.

(** What the program does to the outside, newest first in [trace]. *)
Inductive event :=
  | Wrote (data : string)        (* a [write(2)] to the terminal that succeeded *)
  | WriteFailed (data : string)  (* a [write(2)] that returned -1 *)
  | Printed (data : string)      (* [printf] *)
  | Beeped                       (* [clirBeep] *)
  | Completion (arg : string).   (* [completionCallback] called on this string *)

Inductive input_item :=
  | Key (c : ascii)   (* one byte waiting on the terminal *)
  | ReadError.        (* a [read(2)] that returns -1 *)

(** The environment.  [write_fails] holds the outcome of the coming
    [write(2)] calls ([true]: the call returns -1; once the list is used
    up, calls succeed).  [indet] is the value read from a byte the program
    never initialised or that lies outside the array.  [fault] is raised by
    a store outside the caller's array and by a read past the terminator
    of a completion; from then on the C program's behaviour is undefined
    and the model only records that it was. *)
Record World := mkWorld {
  input : list input_item;
  write_fails : list bool;
  trace : list event;
  winsize : option Z;
  indet : ascii;
  fault : bool
}.

(** The editing state together with the process-wide variables. *)
Record Sys := mkSys {
  st : clirState;
  mlmode : Z;
  completionCallback : option clirCompletionCallback;
  hist : History;
  world : World
}.

Definition with_st (f : clirState -> clirState) (s : Sys) : Sys :=
  mkSys (f (st s)) (mlmode s) (completionCallback s) (hist s) (world s).
Definition with_hist (f : History -> History) (s : Sys) : Sys :=
  mkSys (st s) (mlmode s) (completionCallback s) (f (hist s)) (world s).
Definition with_world (f : World -> World) (s : Sys) : Sys :=
  mkSys (st s) (mlmode s) (completionCallback s) (hist s) (f (world s)).

Definition log (e : event) (w : World) : World :=
  mkWorld (input w) (write_fails w) (e :: trace w) (winsize w) (indet w) (fault w).
Definition raise_fault (w : World) : World :=
  mkWorld (input w) (write_fails w) (trace w) (winsize w) (indet w) true.

(** The events in the order they happened. *)
Definition events (s : Sys) : list event := rev (trace (world s)).

(** A computation of a C function body whose [return] carries an [R]:
    it either goes on with a value or has returned. *)
Inductive flow (R A : Type) := Go (a : A) | Ret (r : R).
Arguments Go {R A} a.
Arguments Ret {R A} r.

Definition M (R A : Type) : Type := Sys -> flow R A * Sys.

#[export] Instance M_ret {R} : MRet (M R) := fun A a s => (Go a, s).
#[export] Instance M_bind {R} : MBind (M R) := fun A B f m s =>
  match m s with
  | (Go a, s') => f a s'
  | (Ret r, s') => (Ret r, s')
  end.

Definition gets {R A} (f : Sys -> A) : M R A := fun s => (Go (f s), s).
Definition modify {R} (f : Sys -> Sys) : M R unit := fun s => (Go tt, f s).
Definition leave {R A} (r : R) : M R A := fun s => (Ret r, s).

(** Calling a function: its [return] value, early or final, is the value
    of the call. *)
Definition call {R A} (body : M A A) : M R A := fun s =>
  match body s with
  | (Go a, s') => (Go a, s')
  | (Ret a, s') => (Go a, s')
  end.

(** ** Primitives *)

(** [write(fd, data, n)]: the value is what the call returns. *)
Definition write {R} (data : string) : M R Z := fun s =>
  let w := world s in
  match write_fails w with
  | true :: rest =>
      (Go (-1), with_world (fun _ => mkWorld (input w) rest (WriteFailed data :: trace w)
                                             (winsize w) (indet w) (fault w)) s)
  | _ =>
      (Go (strlen data), with_world (fun _ => mkWorld (input w) (tail (write_fails w))
                                             (Wrote data :: trace w)
                                             (winsize w) (indet w) (fault w)) s)
  end.

Definition printf {R} (data : string) : M R unit :=
  modify (with_world (log (Printed data))).

Definition clirBeep {R} : M R unit := modify (with_world (log Beeped)).

(** [read(fd, dst, n)] takes the bytes that are waiting, [n] at most. *)
Fixpoint take_keys (n : nat) (i : list input_item) : list ascii * list input_item :=
  match n, i with
  | S n', Key c :: rest => let (cs, r) := take_keys n' rest in (c :: cs, r)
  | _, _ => ([], i)
  end.

Definition set_input (i : list input_item) (w : World) : World :=
  mkWorld i (write_fails w) (trace w) (winsize w) (indet w) (fault w).

Definition read {R} (n : nat) : M R (Z * list ascii) := fun s =>
  match input (world s) with
  | [] => (Go (0, []), s)
  | ReadError :: rest => (Go (-1, []), with_world (set_input rest) s)
  | Key _ :: _ =>
      let (cs, rest) := take_keys n (input (world s)) in
      (Go (Z.of_nat (length cs), cs), with_world (set_input rest) s)
  end.

(** What an indeterminate byte reads as. *)
Definition indeterminate (s : Sys) : ascii := indet (world s).

(** Byte [i] of a destination that [read] filled with [got]; the bytes
    that were not delivered are indeterminate and read as [junk]. *)
Definition byte_read (junk : ascii) (got : list ascii) (i : nat) : ascii :=
  nth i got junk.

(** [a[i]] as an rvalue; outside the array it reads as [junk]. *)
Definition load (junk : ascii) (a : list ascii) (i : Z) : ascii :=
  if i <? 0 then junk else nth (Z.to_nat i) a junk.

(** [cs->buf[i] = c]. *)
Definition poke (i : Z) (c : ascii) (s : Sys) : Sys :=
  if (0 <=? i) && (i <? Z.of_nat (length (buf (st s))))
  then with_st (set_buf (<[Z.to_nat i := c]> (buf (st s)))) s
  else with_world raise_fault s.

Definition store {R} (i : Z) (c : ascii) : M R unit := modify (poke i c).

(** [memmove(cs->buf+dst, cs->buf+src, n)], [n] a [size_t]. *)
Definition memmove_buf (dst src n : Z) (a : list ascii) : option (list ascii) :=
  let size := Z.of_nat (length a) in
  if (0 <=? dst) && (0 <=? src) && (dst + u64 n <=? size) && (src + u64 n <=? size)
  then Some (take (Z.to_nat dst) a
             ++ take (Z.to_nat (u64 n)) (drop (Z.to_nat src) a)
             ++ drop (Z.to_nat (dst + u64 n)) a)
  else None.

Definition move_bytes (dst src n : Z) (s : Sys) : Sys :=
  match memmove_buf dst src n (buf (st s)) with
  | Some a => with_st (set_buf a) s
  | None => with_world raise_fault s
  end.

Definition memmove {R} (dst src n : Z) : M R unit := modify (move_bytes dst src n).

(** [strncpy(cs->buf, src, n)]: the characters of [src], then NULs, [n]
    bytes in all. *)
Definition strncpy_buf (src : string) (n : Z) (a : list ascii) : option (list ascii) :=
  if (0 <=? n) && (n <=? Z.of_nat (length a))
  then Some (take (Z.to_nat n) (list_ascii_of_string src ++ replicate (Z.to_nat n) NUL)
             ++ drop (Z.to_nat n) a)
  else None.

Definition copy_string (src : string) (n : Z) (s : Sys) : Sys :=
  match strncpy_buf src n (buf (st s)) with
  | Some a => with_st (set_buf a) s
  | None => with_world raise_fault s
  end.

Definition strncpy {R} (src : string) (n : Z) : M R unit := modify (copy_string src n).

(** A [while] loop over one integer variable; [fuel] bounds the number of
    iterations. *)
Fixpoint while (fuel : nat) (cond : Z -> bool) (body : Z -> Z) (x : Z) : Z :=
  if cond x then
    match fuel with
    | S fuel' => while fuel' cond body (body x)
    | O => x
    end
  else x.

(** [getColumns]: [winsize] is the [ws_col] that [ioctl] reports, an
    [unsigned short], or [None] when the call fails. *)
Definition getColumns (w : World) : Z :=
  match winsize w with
  | Some c => if c mod 2 ^ 16 =? 0 then 80 else c mod 2 ^ 16
  | None => 80
  end.

(** ** Redrawing the line *)

(** [if (write(fd,data,n) == -1) return;] in a function returning [void]. *)
Definition write_or_return (data : string) : M unit unit :=
  r ← write data; if r =? -1 then leave tt else mret tt.

(** [n] bytes of the array from offset [off] on. *)
Definition slice (a : list ascii) (off n : Z) : string :=
  string_of_list_ascii (take (Z.to_nat n) (drop (Z.to_nat off) a)).

(** [while((plen+pos) >= cs->cols) { buf++; len--; pos--; }] on the local
    copies, [off] counting how far [buf] has moved. *)
Fixpoint slide (fuel : nat) (plen cols : Z) (w : Z * Z * Z) : Z * Z * Z :=
  let '(off, len, pos) := w in
  if u64 (plen + pos) >=? cols then
    match fuel with
    | S fuel' => slide fuel' plen cols (off + 1, u64 (len - 1), u64 (pos - 1))
    | O => w
    end
  else w.

Definition refreshSingleLine {R} : M R unit := call (
  cs ← gets st;
  let plen := strlen (prompt cs) in
  let '(off, len1, pos1) :=
    slide (Z.to_nat (u64 (plen + pos cs))) plen (cols cs) (0, len cs, pos cs) in
  (* while (plen+len > cs->cols) len--; *)
  let len2 := while (Z.to_nat (u64 (plen + len1)))
                    (fun l => u64 (plen + l) >? cols cs) (fun l => u64 (l - 1)) len1 in
  write_or_return (ESC +:+ "[0G");;
  write_or_return (prompt cs);;
  write_or_return (slice (buf cs) off len2);;
  write_or_return (ESC +:+ "[0K");;
  write_or_return (ESC +:+ "[0G" +:+ ESC +:+ "[" +:+ dec (s32 (u64 (pos1 + plen))) +:+ "C")).

(** The two row numbers [refreshMultiLine] starts from:
    [rows = (plen+cs->len+cs->cols-1)/cs->cols] and
    [rpos = (plen+cs->oldpos+cs->cols)/cs->cols], computed in [size_t]
    and stored in an [int]. *)
Definition ml_plen (cs : clirState) : Z := s32 (strlen (prompt cs)).
Definition ml_rows (cs : clirState) : Z :=
  s32 (u64 (ml_plen cs + len cs + cols cs - 1) / cols cs).
Definition ml_rpos (cs : clirState) : Z :=
  s32 (u64 (ml_plen cs + oldpos cs + cols cs) / cols cs).

(** [for (j = 0; j < n; j++) if (write(...) == -1) return;] *)
Fixpoint repeat_write (n : nat) (data : string) : M unit unit :=
  match n with
  | O => mret tt
  | S n' => write_or_return data;; repeat_write n' data
  end.

Definition bump_maxrows (rows : Z) : M unit unit :=
  m ← gets (fun s => maxrows (st s));
  if rows >? s32 m then modify (with_st (set_maxrows rows)) else mret tt.

Definition refreshMultiLine {R} : M R unit := call (
  cs ← gets st;
  let plen := ml_plen cs in
  let rows := ml_rows cs in
  let rpos := ml_rpos cs in
  let old_rows := s32 (maxrows cs) in
  bump_maxrows rows;;
  (if old_rows - rpos >? 0
   then write_or_return (ESC +:+ "[" +:+ dec (old_rows - rpos) +:+ "B")
   else mret tt);;
  repeat_write (Z.to_nat (old_rows - 1))
               (ESC +:+ "[0G" +:+ ESC +:+ "[0K" +:+ ESC +:+ "[1A");;
  write_or_return (ESC +:+ "[0G" +:+ ESC +:+ "[0K");;
  write_or_return (prompt cs);;
  write_or_return (slice (buf cs) 0 (len cs));;
  rows ← (if negb (pos cs =? 0) && (pos cs =? len cs)
             && (u64 (pos cs + plen) mod cols cs =? 0)
          then
            write_or_return (String "010"%char "");;
            write_or_return (ESC +:+ "[0G");;
            bump_maxrows (rows + 1);;
            mret (rows + 1)
          else mret rows);
  let rpos2 := s32 (u64 (plen + pos cs + cols cs) / cols cs) in
  (if rows - rpos2 >? 0
   then write_or_return (ESC +:+ "[" +:+ dec (rows - rpos2) +:+ "A")
   else mret tt);;
  write_or_return (ESC +:+ "[" +:+ dec (1 + Z.rem (plen + s32 (pos cs)) (s32 (cols cs)))
                   +:+ "G");;
  modify (with_st (set_oldpos (pos cs)))).

Definition refreshLine {R} : M R unit :=
  ml ← gets mlmode;
  if negb (ml =? 0) then refreshMultiLine else refreshSingleLine.

(** ** Editing operations *)

Definition one (c : ascii) : string := String c EmptyString.

(** [clirEditInsert].  The increments of [pos] and [len] are guarded by
    [len < buflen] and cannot wrap. *)
Definition clirEditInsert {R} (c : ascii) : M R Z := call (
  cs ← gets st;
  if len cs <? buflen cs then
    if len cs =? pos cs then
      store (pos cs) c;;
      modify (with_st (set_pos (pos cs + 1)));;
      modify (with_st (set_len (len cs + 1)));;
      store (len cs + 1) NUL;;
      ml ← gets mlmode;
      if (ml =? 0) && (u64 (plen cs + (len cs + 1)) <? cols cs) then
        r ← write (one c);
        if r =? -1 then leave (-1) else mret 0
      else
        refreshLine;; mret 0
    else
      memmove (pos cs + 1) (pos cs) (len cs - pos cs);;
      store (pos cs) c;;
      modify (with_st (set_len (len cs + 1)));;
      modify (with_st (set_pos (pos cs + 1)));;
      store (len cs + 1) NUL;;
      refreshLine;; mret 0
  else mret 0).

Definition clirEditMoveLeft {R} : M R unit :=
  cs ← gets st;
  if pos cs >? 0 then
    modify (with_st (set_pos (pos cs - 1)));; refreshLine
  else mret tt.

Definition clirEditMoveRight {R} : M R unit :=
  cs ← gets st;
  if negb (pos cs =? len cs) then
    modify (with_st (set_pos (pos cs + 1)));; refreshLine
  else mret tt.

Definition LINENOISE_HISTORY_NEXT : Z := 0.
Definition LINENOISE_HISTORY_PREV : Z := 1.

(** [history[i] = strdup(s)] (after [free(history[i])]). *)
Definition set_slot (i : Z) (s : string) (h : History) : History :=
  if i <? 0 then h
  else mkHistory (option_map (fun a => <[Z.to_nat i := Some s]> a) (history h))
                 (history_len h) (history_max_len h).

(** [clirEditHistoryNext].  A NULL slot is read as the empty string. *)
Definition clirEditHistoryNext {R} (dir : Z) : M R unit := call (
  h ← gets hist;
  if history_len h >? 1 then
    cs ← gets st;
    modify (with_hist (set_slot (history_len h - 1 - history_index cs) (cstr (buf cs))));;
    let idx := history_index cs + (if dir =? LINENOISE_HISTORY_PREV then 1 else -1) in
    modify (with_st (set_history_index idx));;
    if idx <? 0 then
      modify (with_st (set_history_index 0));; leave tt
    else if idx >=? history_len h then
      modify (with_st (set_history_index (history_len h - 1)));; leave tt
    else
      h' ← gets hist;
      strncpy (default EmptyString (slot h' (history_len h' - 1 - idx))) (buflen cs);;
      store (buflen cs - 1) NUL;;
      b ← gets (fun s => buf (st s));
      modify (with_st (set_len (strlen (cstr b))));;
      modify (with_st (set_pos (strlen (cstr b))));;
      refreshLine
  else mret tt).

(** [clirEditDelete]. *)
Definition clirEditDelete {R} : M R unit :=
  cs ← gets st;
  if (len cs >? 0) && (pos cs <? len cs) then
    memmove (pos cs) (pos cs + 1) (len cs - pos cs - 1);;
    modify (with_st (set_len (len cs - 1)));;
    store (len cs - 1) NUL;;
    refreshLine
  else mret tt.

(** [clirEditBackspace]. *)
Definition clirEditBackspace {R} : M R unit :=
  cs ← gets st;
  if (pos cs >? 0) && (len cs >? 0) then
    memmove (pos cs - 1) (pos cs) (len cs - pos cs);;
    modify (with_st (set_pos (pos cs - 1)));;
    modify (with_st (set_len (len cs - 1)));;
    store (len cs - 1) NUL;;
    refreshLine
  else mret tt.

(** [clirEditDeletePrevWord].  Both loops stop at [pos == 0], so [pos]
    iterations are enough; [len -= diff] is unguarded. *)
Definition clirEditDeletePrevWord {R} : M R unit :=
  cs ← gets st;
  w ← gets indeterminate;
  let old_pos := pos cs in
  let p1 := while (Z.to_nat old_pos)
                  (fun p => (p >? 0) && Ascii.eqb (load w (buf cs) (p - 1)) SPACE)
                  (fun p => p - 1) old_pos in
  let p2 := while (Z.to_nat p1)
                  (fun p => (p >? 0) && negb (Ascii.eqb (load w (buf cs) (p - 1)) SPACE))
                  (fun p => p - 1) p1 in
  modify (with_st (set_pos p2));;
  let diff := u64 (old_pos - p2) in
  memmove p2 old_pos (len cs - old_pos + 1);;
  modify (with_st (set_len (u64 (len cs - diff))));;
  refreshLine.

(** ** Completion *)

(** The inner loop of [completeWord] for one candidate:
    [for (char_i = 0, pos = cs->word_pos; cand[char_i] != '\0' &&
    cs->word_pos + char_i < cs->pos; char_i++, pos++)], clearing the
    candidate's flag at each character that differs from [cs->buf[pos]].
    [i] is [cs->word_pos + char_i]. *)
Fixpoint typed_matches (w : ascii) (a : list ascii) (stop : Z) (cand : string) (i : Z) : bool :=
  match cand with
  | EmptyString => true
  | String ch rest =>
      if i <? stop
      then typed_matches w a stop rest (i + 1) && Ascii.eqb ch (load w a i)
      else true
  end.

(** [cand + n], when [n] is within the string. *)
Fixpoint skip (n : nat) (cand : string) : option string :=
  match n, cand with
  | O, _ => Some cand
  | S n', String _ rest => skip n' rest
  | S _, EmptyString => None
  end.

(** [while (cand[valid_p] != '\0') { clirEditInsert(cs, cand[valid_p]);
    valid_p++; }], the result of [clirEditInsert] being dropped. *)
Fixpoint insert_rest {R} (rest : string) : M R unit :=
  match rest with
  | EmptyString => mret tt
  | String ch rest' => clirEditInsert ch;; insert_rest rest'
  end.

Fixpoint print_valid {R} (valid : list string) : M R unit :=
  match valid with
  | [] => mret tt
  | cand :: more => printf (" '" +:+ cand +:+ "'");; print_valid more
  end.

(** [completeWord].  The producer is handed [cs->buf].  [valid] lists the
    candidates whose flag is still set, in order; [valid_i] ends up as the
    index of the last of them and [valid_p] as [cs->pos]. *)
Definition completeWord {R} : M R Z := call (
  cs ← gets st;
  w ← gets indeterminate;
  cb ← gets completionCallback;
  modify (with_world (log (Completion (cstr (buf cs)))));;
  let cc : clirCompletions := from_option (fun f => f (cstr (buf cs))) [] cb in
  if Z.of_nat (length cc) =? 0 then
    clirBeep;; mret 0
  else
    let valid :=
      List.filter (fun cand => typed_matches w (buf cs) (pos cs) cand (word_pos cs)) cc in
    let valid_c := Z.of_nat (length valid) in
    let valid_p := pos cs in
    if valid_c =? 1 then
      match skip (Z.to_nat valid_p) (default EmptyString (last valid)) with
      | Some rest => insert_rest rest
      | None => modify (with_world raise_fault)
      end;;
      clirEditInsert SPACE;;
      mret 0
    else if valid_c >? 1 then
      printf CRLF;;
      print_valid valid;;
      printf CRLF;;
      leave 1
    else mret 0).

(** ** The editing session *)

(** [history_len--; free(history[history_len]);] *)
Definition drop_newest {R} : M R unit :=
  modify (with_hist (fun h =>
    mkHistory (history h) (history_len h - 1) (history_max_len h))).

(** [clirClearScreen]: the result of the [write] is ignored. *)
Definition clirClearScreen {R} : M R unit :=
  @write R (ESC +:+ "[H" +:+ ESC +:+ "[2J");; mret tt.

(** ctrl-t. *)
Definition swap_chars {R} : M R unit :=
  cs ← gets st;
  w ← gets indeterminate;
  if (pos cs >? 0) && (pos cs <? len cs) then
    let aux := load w (buf cs) (pos cs - 1) in
    store (pos cs - 1) (load w (buf cs) (pos cs));;
    store (pos cs) aux;;
    (if negb (pos cs =? len cs - 1)
     then modify (with_st (set_pos (pos cs + 1))) else mret tt);;
    refreshLine
  else mret tt.

(** ESC [ 1 ; 5 C *)
Definition word_right {R} : M R unit :=
  cs ← gets st;
  w ← gets indeterminate;
  let p1 := while (Z.to_nat (len cs - pos cs))
                  (fun p => negb (isspace (load w (buf cs) p)) && (p <? len cs))
                  (fun p => p + 1) (pos cs) in
  let p2 := while (Z.to_nat (len cs + 1 - p1))
                  (fun p => isspace (load w (buf cs) p) && (p <=? len cs))
                  (fun p => p + 1) p1 in
  modify (with_st (set_pos p2));;
  refreshLine.

(** ESC [ 1 ; 5 D *)
Definition word_left {R} : M R unit :=
  cs ← gets st;
  w ← gets indeterminate;
  let p0 := if pos cs >? 0 then pos cs - 1 else pos cs in
  let p1 := while (Z.to_nat p0)
                  (fun p => isspace (load w (buf cs) p) && (p >? 0))
                  (fun p => p - 1) p0 in
  let p2 := while (Z.to_nat p1)
                  (fun p => negb (isspace (load w (buf cs) (p - 1))) && (p >? 0))
                  (fun p => p - 1) p1 in
  modify (with_st (set_pos p2));;
  refreshLine.

(** [case 27], after the ESC byte itself. *)
Definition escape_sequence : M Z unit := call (
  '(n, seq) ← read 2;
  if n =? -1 then leave tt else
  w ← gets indeterminate;
  let seq0 := schar (byte_read w seq 0) in
  let seq1 := schar (byte_read w seq 1) in
  if seq0 =? 91 then
    match seq1 with
    | 65 => clirEditHistoryNext LINENOISE_HISTORY_PREV
    | 66 => clirEditHistoryNext LINENOISE_HISTORY_NEXT
    | 67 => clirEditMoveRight
    | 68 => clirEditMoveLeft
    | 90 => mret tt
    | _ =>
        if (seq1 >? 48) && (seq1 <? 55) then
          '(n2, seq2) ← read 2;
          if n2 =? -1 then leave tt else
          if (seq1 =? 51) && (schar (byte_read w seq2 0) =? 126) then
            clirEditDelete
          else if (seq1 =? 49) && (schar (byte_read w seq2 0) =? 59) then
            '(n3, seq3) ← read 1;
            if n3 =? -1 then leave tt else
            if schar (byte_read w seq2 1) =? 53 then
              if schar (byte_read w seq3 0) =? 67 then word_right
              else if schar (byte_read w seq3 0) =? 68 then word_left
              else mret tt
            else mret tt
          else mret tt
        else mret tt
    end
  else if (seq0 =? 79) && (seq1 =? 72) then
    cs ← gets st;
    if pos cs >? 0 then modify (with_st (set_pos 0));; refreshLine else mret tt
  else if (seq0 =? 79) && (seq1 =? 70) then
    cs ← gets st;
    if negb (pos cs =? len cs)
    then modify (with_st (set_pos (len cs)));; refreshLine else mret tt
  else mret tt).

(** The [default:] case of the [switch]. *)
Definition self_insert (c : ascii) : M Z unit :=
  r ← clirEditInsert c;
  if negb (r =? 0) then leave (-1) else
  if Ascii.eqb c SPACE
  then cs ← gets st; modify (with_st (set_word_pos (pos cs)))
  else mret tt.

(** The [switch(c)] of [clirEdit]. [Ret] is a [return] of [clirEdit];
    [errno] is not modelled. *)
Definition dispatch (c : ascii) : M Z unit :=
  match schar c with
  | 13 => drop_newest;; cs ← gets st; leave (s32 (len cs))
  | 3 => leave (-1)
  | 127 | 8 => clirEditBackspace
  | 4 =>
      cs ← gets st;
      if len cs >? 0 then clirEditDelete
      else drop_newest;; leave (-1)
  | 20 => swap_chars
  | 2 => clirEditMoveLeft
  | 6 => clirEditMoveRight
  | 16 => clirEditHistoryNext LINENOISE_HISTORY_PREV
  | 14 => clirEditHistoryNext LINENOISE_HISTORY_NEXT
  | 27 => escape_sequence
  | 21 =>
      store 0 NUL;;
      modify (with_st (set_len 0));; modify (with_st (set_pos 0));;
      refreshLine
  | 11 =>
      cs ← gets st;
      store (pos cs) NUL;;
      modify (with_st (set_len (pos cs)));;
      refreshLine
  | 1 => modify (with_st (set_pos 0));; refreshLine
  | 5 => cs ← gets st; modify (with_st (set_pos (len cs)));; refreshLine
  | 12 => clirClearScreen;; refreshLine
  | 23 => clirEditDeletePrevWord
  | _ => self_insert c
  end.

(** One turn of the [while(1)] loop. *)
Definition clirEdit_turn : M Z unit :=
  '(nread, got) ← read 1;
  if nread <=? 0 then cs ← gets st; leave (s32 (len cs)) else
  w ← gets indeterminate;
  cb ← gets completionCallback;
  let c := byte_read w got 0 in
  if (schar c =? 9) && bool_decide (is_Some cb) then
    r ← completeWord;
    if r <? 0 then cs ← gets st; leave (s32 (len cs))
    else if r =? 0 then mret tt
    else refreshLine
  else dispatch c.

Fixpoint clirEdit_loop (fuel : nat) : M Z unit :=
  match fuel with
  | O => mret tt
  | S fuel' => clirEdit_turn;; clirEdit_loop fuel'
  end.

(** [clirEdit(fd, buf, buflen, prompt)], [a] being the array [buf] points
    to as the caller left it.  The decrement of the parameter [buflen]
    comes after [cs.buflen] has been set and nothing reads the parameter
    again.  Every turn of the loop takes a byte of input or returns, so
    one turn more than there are input items is all the loop can make;
    [None] would be a loop that is still running after that. *)
Definition clirEdit_body (fd0 : Z) (a : list ascii) (buflen0 : Z) (prompt0 : string)
    (fuel : nat) : M Z unit :=
  w ← gets world;
  modify (with_st (fun _ =>
    mkState fd0 a buflen0 prompt0 (strlen prompt0) 0 0 0 (getColumns w) 0 0 0));;
  store 0 NUL;;
  let buflen1 := buflen0 - 1 in
  modify (with_hist (fun h => snd (clirHistoryAdd EmptyString h)));;
  r ← write prompt0;
  if r =? -1 then leave (-1) else
  clirEdit_loop fuel.

Definition clirEdit (fd0 : Z) (a : list ascii) (buflen0 : Z) (prompt0 : string)
    (s : Sys) : option Z * Sys :=
  match clirEdit_body fd0 a buflen0 prompt0 (S (length (input (world s)))) s with
  | (Ret r, s') => (Some r, s')
  | (Go _, s') => (None, s')
  end.

(** ** The driver (example.c) and the start of a process *)

(** [completion] of example.c: four candidates when [buf[0] == 'h']. *)
Definition completion : clirCompletionCallback := fun b =>
  match b with
  | String "h" _ => ["hello"; "hi"; "hey"; "howzit"]
  | _ => []
  end.

(** The system before [clirEdit] has set up its [struct clirState]. *)
Definition no_state : clirState := mkState 0 [] 0 EmptyString 0 0 0 0 0 0 0 0.

Definition boot (ml : Z) (cb : option clirCompletionCallback) (h : History) (w : World) : Sys :=
  mkSys no_state ml cb h w.

(** A terminal with [typed] waiting, reported as [columns] wide, on which
    the next writes turn out as [fails] says. *)
Definition keys (typed : string) : list input_item := Key <$> list_ascii_of_string typed.

Definition terminal (typed : string) (fails : list bool) (columns : Z) : World :=
  mkWorld (keys typed) fails [] (Some columns) NUL false.

Definition TAB : string := String "009"%char EmptyString.
Definition ENTER : string := String "013"%char EmptyString.
Definition CTRL_C : string := String "003"%char EmptyString.

(** The line as the caller reads it back from its array. *)
Definition line (s : Sys) : string := cstr (buf (st s)).

End Edit.

(** ** History file *)

Module Persist.
Import Hist Edit.

(** The files [fopen] can open for reading, with their contents. *)
Definition FS : Type := string -> option (list ascii).

Definition LF : ascii := "010"%char.
Definition CR : ascii := "013"%char.

(** [fgets(buf, n+1, fp)]: at most [n] characters, up to and including the
    first newline; what is read and what is left. *)
Fixpoint fgets (n : nat) (data : list ascii) : list ascii * list ascii :=
  match n, data with
  | S n', c :: rest =>
      if Ascii.eqb c LF then ([c], rest)
      else let (l, r) := fgets n' rest in (c :: l, r)
  | _, _ => ([], data)
  end.

(** [strchr(s, c)] as the offset of the first [c], if any. *)
Fixpoint strchr (s : string) (c : ascii) : option nat :=
  match s with
  | EmptyString => None
  | String x rest => if Ascii.eqb x c then Some O else S <$> strchr rest c
  end.

Fixpoint prefix (n : nat) (s : string) : string :=
  match n, s with
  | S n', String x rest => String x (prefix n' rest)
  | _, _ => EmptyString
  end.

(** [p = strchr(buf,'\r'); if (!p) p = strchr(buf,'\n'); if (p) *p = '\0';] *)
Definition chop (s : string) : string :=
  match strchr s CR with
  | Some i => prefix i s
  | None =>
      match strchr s LF with
      | Some i => prefix i s
      | None => s
      end
  end.

(** The [while (fgets(...) != NULL)] loop; every call that does not hit
    the end of the file takes a character, so [fuel] is the file's
    length. *)
Fixpoint load_lines (fuel : nat) (data : list ascii) (h : History) : History :=
  match fuel, data with
  | S fuel', _ :: _ =>
      let (chunk, rest) := fgets (Z.to_nat (LINENOISE_MAX_LINE - 1)) data in
      load_lines fuel' rest (snd (clirHistoryAdd (chop (cstr chunk)) h))
  | _, _ => h
  end.

(** [clirHistoryLoad]: the result and the history it leaves. *)
Definition clirHistoryLoad (fs : FS) (filename : string) (h : History) : Z * History :=
  match fs filename with
  | None => (-1, h)
  | Some data => (0, load_lines (length data) data h)
  end.

(** [clirHistorySave]: [fopen(filename,"w")] succeeds on the paths that
    [writable] allows and the file then holds what the loop prints, every
    entry with ["%s\n"]; the results of [fprintf] and [fclose] are not
    looked at.  The slots below [history_len] of a well-formed store are
    never NULL; for a NULL slot, which C leaves undefined, the model
    prints an empty line. *)
Definition saved_lines (h : History) : list ascii :=
  flat_map (fun j => list_ascii_of_string (default EmptyString (slot h (Z.of_nat j))) ++ [LF])
           (seq 0 (Z.to_nat (history_len h))).

Definition clirHistorySave (writable : string -> bool) (fs : FS) (filename : string)
    (h : History) : Z * FS :=
  if writable filename
  then (0, fun p => if String.eqb p filename then Some (saved_lines h) else fs p)
  else (-1, fs).

End Persist.

(** ** The front end: raw mode, [clirRaw] and [clir] *)

Module Front.
Import Hist Edit Persist.

(** [struct termios], as far as [enableRawMode] touches it. *)
Record termios := mkTermios {
  c_iflag : Z;
  c_oflag : Z;
  c_cflag : Z;
  c_lflag : Z;
  c_cc : list Z
}.

(** The macros of [<termios.h>] that [enableRawMode] names.  Their values
    are the platform's and no statement depends on them. *)
Record termios_macros := mkMacros {
  BRKINT : Z; ICRNL : Z; INPCK : Z; ISTRIP : Z; IXON : Z;
  OPOST : Z;
  CS8 : Z;
  ECHO : Z; ICANON : Z; IEXTEN : Z; ISIG : Z;
  VMIN : nat; VTIME : nat
}.

(** The process around the editor: what [isatty(STDIN_FILENO)],
    [getenv("TERM")], [fgets(..., stdin)], [tcgetattr] and [tcsetattr]
    will answer, the terminal's attributes, and the three static
    variables of raw mode.  [tcsetattr_fails] holds the outcome of the
    coming calls, [true] for -1; once used up, calls succeed.  [input]
    holds the bytes of the terminal in the order they arrive, and
    [received] says, for each coming call of [tcsetattr] that succeeds,
    how many of them have arrived without being read when the call is
    made; once used up, none has. *)
Record Proc := mkProc {
  sys : Sys;
  stdin_isatty : bool;
  env_TERM : option string;
  stdin : list ascii;
  tty : termios;
  tcgetattr_fails : bool;
  tcsetattr_fails : list bool;
  received : list nat;
  orig_termios : termios;
  rawmode : Z;
  atexit_registered : Z
}.

Definition with_sys (f : Sys -> Sys) (p : Proc) : Proc :=
  mkProc (f (sys p)) (stdin_isatty p) (env_TERM p) (stdin p) (tty p) (tcgetattr_fails p)
         (tcsetattr_fails p) (received p) (orig_termios p) (rawmode p) (atexit_registered p).
Definition set_stdin (d : list ascii) (p : Proc) : Proc :=
  mkProc (sys p) (stdin_isatty p) (env_TERM p) d (tty p) (tcgetattr_fails p)
         (tcsetattr_fails p) (received p) (orig_termios p) (rawmode p) (atexit_registered p).
Definition set_orig_termios (t : termios) (p : Proc) : Proc :=
  mkProc (sys p) (stdin_isatty p) (env_TERM p) (stdin p) (tty p) (tcgetattr_fails p)
         (tcsetattr_fails p) (received p) t (rawmode p) (atexit_registered p).
Definition set_rawmode (v : Z) (p : Proc) : Proc :=
  mkProc (sys p) (stdin_isatty p) (env_TERM p) (stdin p) (tty p) (tcgetattr_fails p)
         (tcsetattr_fails p) (received p) (orig_termios p) v (atexit_registered p).
Definition set_atexit_registered (v : Z) (p : Proc) : Proc :=
  mkProc (sys p) (stdin_isatty p) (env_TERM p) (stdin p) (tty p) (tcgetattr_fails p)
         (tcsetattr_fails p) (received p) (orig_termios p) (rawmode p) v.

(** [clirSetMultiLine] and [clirSetCompletionCallback]. *)
Definition clirSetMultiLine (ml : Z) (s : Sys) : Sys :=
  mkSys (st s) ml (completionCallback s) (hist s) (world s).
Definition clirSetCompletionCallback (fn : clirCompletionCallback) (s : Sys) : Sys :=
  mkSys (st s) (mlmode s) (Some fn) (hist s) (world s).

(** [tolower] in the C locale and [strcasecmp(a,b) == 0]. *)
Definition tolower (c : ascii) : ascii :=
  if (65 <=? code c) && (code c <=? 90) then ascii_of_N (Z.to_N (code c + 32)) else c.

Fixpoint strcaseeq (a b : string) : bool :=
  match a, b with
  | EmptyString, EmptyString => true
  | String x a', String y b' => Ascii.eqb (tolower x) (tolower y) && strcaseeq a' b'
  | _, _ => false
  end.

Definition unsupported_term : list string := ["dumb"; "cons25"].

(** [isUnsupportedTerm], on what [getenv("TERM")] returns. *)
Definition isUnsupportedTerm (term : option string) : bool :=
  match term with
  | None => false
  | Some t => existsb (strcaseeq t) unsupported_term
  end.

(** The first [n] bytes taken off the input; a [read] that is going to
    fail is no byte and stays. *)
Fixpoint discard (n : nat) (i : list input_item) : list input_item :=
  match i with
  | [] => []
  | Key _ :: rest => match n with O => i | S n' => discard n' rest end
  | ReadError :: rest => match n with O => i | S _ => ReadError :: discard n rest end
  end.

(** What [TCSAFLUSH] does to the input: the [n] bytes that were received
    and not read are gone. *)
Definition flush (n : nat) (s : Sys) : Sys :=
  with_world (set_input (discard n (input (world s)))) s.

(** [tcsetattr(fd,TCSAFLUSH,&t)]: when it succeeds, the input received
    but not read is discarded and the attributes are set. *)
Definition tcsetattr (t : termios) (p : Proc) : Z * Proc :=
  match tcsetattr_fails p with
  | true :: rest =>
      (-1, mkProc (sys p) (stdin_isatty p) (env_TERM p) (stdin p) (tty p)
                  (tcgetattr_fails p) rest (received p) (orig_termios p) (rawmode p)
                  (atexit_registered p))
  | _ =>
      (0, mkProc (flush (default 0%nat (head (received p))) (sys p))
                 (stdin_isatty p) (env_TERM p) (stdin p) t
                 (tcgetattr_fails p) (tail (tcsetattr_fails p)) (tail (received p))
                 (orig_termios p) (rawmode p) (atexit_registered p))
  end.

(** The attributes [enableRawMode] asks for, from the original ones. *)
Definition raw_of (K : termios_macros) (t : termios) : termios :=
  mkTermios
    (Z.land (c_iflag t)
       (Z.lnot (Z.lor (Z.lor (Z.lor (Z.lor (BRKINT K) (ICRNL K)) (INPCK K)) (ISTRIP K)) (IXON K))))
    (Z.land (c_oflag t) (Z.lnot (OPOST K)))
    (Z.lor (c_cflag t) (CS8 K))
    (Z.land (c_lflag t)
       (Z.lnot (Z.lor (Z.lor (Z.lor (ECHO K) (ICANON K)) (IEXTEN K)) (ISIG K))))
    (<[VTIME K := 0]> (<[VMIN K := 1]> (c_cc t))).

(** [enableRawMode]; all its failures go to [fatal:] and return -1
    ([errno] is not modelled). *)
Definition enableRawMode (K : termios_macros) (p : Proc) : Z * Proc :=
  if negb (stdin_isatty p) then (-1, p) else
  let p1 := if atexit_registered p =? 0 then set_atexit_registered 1 p else p in
  if tcgetattr_fails p1 then (-1, p1) else
  let p2 := set_orig_termios (tty p1) p1 in
  let (r, p3) := tcsetattr (raw_of K (orig_termios p2)) p2 in
  if r <? 0 then (-1, p3) else (0, set_rawmode 1 p3).

(** [disableRawMode]: [tcsetattr] is called only if [rawmode] is set. *)
Definition disableRawMode (p : Proc) : Proc :=
  if negb (rawmode p =? 0) then
    let (r, p1) := tcsetattr (orig_termios p) p in
    if negb (r =? -1) then set_rawmode 0 p1 else p1
  else p.

(** [freeHistory] releases memory and changes no variable; [clirAtExit]
    is then [disableRawMode]. *)
Definition clirAtExit (p : Proc) : Proc := disableRawMode p.

(** [count = strlen(buf); if (count && buf[count-1] == '\n') { count--;
    buf[count] = '\0'; }] on the C string [fgets] left. *)
Definition chomp (l : list ascii) : list ascii :=
  match length l with
  | O => l
  | S n => if Ascii.eqb (nth n l NUL) LF then take n l else l
  end.

(** [while(len && (buf[len-1] == '\n' || buf[len-1] == '\r')) { len--;
    buf[len] = '\0'; }] *)
Fixpoint strip_eol (len : nat) (l : list ascii) : list ascii :=
  match len with
  | O => []
  | S n =>
      if Ascii.eqb (nth n l NUL) LF || Ascii.eqb (nth n l NUL) CR
      then strip_eol n l
      else take (S n) l
  end.

(** [clirRaw(buf, buflen, prompt)] on the array [a]: the result, the C
    string the array reads as afterwards, and the process.  Outside a
    terminal a line is read with [fgets]; [fgets] returns NULL at the end
    of the input. *)
Definition clirRaw (K : termios_macros) (a : list ascii) (buflen : Z) (prompt0 : string)
    (p : Proc) : option Z * string * Proc :=
  if buflen =? 0 then (Some (-1), cstr a, p)
  else if negb (stdin_isatty p) then
    match stdin p with
    | [] => (Some (-1), cstr a, p)
    | _ :: _ =>
        let (chunk, rest) := fgets (Z.to_nat (buflen - 1)) (stdin p) in
        let l := chomp (list_ascii_of_string (cstr chunk)) in
        (Some (s32 (Z.of_nat (length l))), string_of_list_ascii l, set_stdin rest p)
    end
  else
    let (r, p1) := enableRawMode K p in
    if r =? -1 then (Some (-1), cstr a, p1) else
    let (count, s') := clirEdit 0 a buflen prompt0 (sys p1) in
    let p2 := disableRawMode (with_sys (fun _ => s') p1) in
    (count, line s', with_sys (with_world (log (Printed (String LF EmptyString)))) p2).

(** [clir(prompt)]: the string it returns, [None] for NULL.  The local
    array is not initialised. *)
Definition clir (K : termios_macros) (prompt0 : string) (p : Proc) : option string * Proc :=
  if isUnsupportedTerm (env_TERM p) then
    let p1 := with_sys (with_world (log (Printed prompt0))) p in
    match stdin p1 with
    | [] => (None, p1)
    | _ :: _ =>
        let (chunk, rest) := fgets (Z.to_nat (LINENOISE_MAX_LINE - 1)) (stdin p1) in
        let l := list_ascii_of_string (cstr chunk) in
        (Some (string_of_list_ascii (strip_eol (length l) l)), set_stdin rest p1)
    end
  else
    let junk := replicate (Z.to_nat LINENOISE_MAX_LINE) (indet (world (sys p))) in
    let '(count, l, p1) := clirRaw K junk LINENOISE_MAX_LINE prompt0 p in
    if bool_decide (count = Some (-1)) then (None, p1) else (Some l, p1).

End Front.

(** ** Vocabulary of the statements *)

Module Vocab.
Import Hist Edit.

(** [m] relates every state to the state it leaves behind. *)
Definition preserves (Rel : Sys -> Sys -> Prop) {R A} (m : M R A) : Prop :=
  forall s, Rel s (snd (m s)).

(** A state with the four things erased that a redraw may touch: [oldpos],
    [maxrows], the queue of write outcomes and the trace. *)
Definition core (s : Sys) : Sys :=
  mkSys (set_oldpos 0 (set_maxrows 0 (st s))) (mlmode s) (completionCallback s) (hist s)
        (mkWorld (input (world s)) [] [] (winsize (world s)) (indet (world s))
                 (fault (world s))).

Definition same_edit (s s' : Sys) : Prop := core s = core s'.

(** The logical edit state: buffer contents, length, cursor. *)
Definition logical (s : Sys) : list ascii * Z * Z :=
  (buf (st s), len (st s), pos (st s)).

(** The same state in front of a terminal on which every write succeeds. *)
Definition calm (s : Sys) : Sys :=
  with_world (fun w => mkWorld (input w) [] (trace w) (winsize w) (indet w) (fault w)) s.

Definition next_write_fails (s : Sys) : bool :=
  match write_fails (world s) with
  | true :: _ => true
  | _ => false
  end.

(** [clirEditInsert] takes its fast path: room left, cursor at the end,
    single-row mode and the line still fits its row. *)
Definition fast_path (s : Sys) : bool :=
  (len (st s) <? buflen (st s)) && (len (st s) =? pos (st s))
  && (mlmode s =? 0) && (u64 (plen (st s) + (len (st s) + 1)) <? cols (st s)).

(** [s] with the four components replaced that [core] erases. *)
Definition rerender (o m : Z) (f : list bool) (tr : list event) (s : Sys) : Sys :=
  mkSys (set_oldpos o (set_maxrows m (st s))) (mlmode s) (completionCallback s) (hist s)
        (mkWorld (input (world s)) f tr (winsize (world s)) (indet (world s))
                 (fault (world s))).

(** Non-interference: the value a computation yields and the state it
    leaves, up to [same_edit], do not depend on the erased components, the
    outcomes of its writes among them. *)
Definition independent {R A} (m : M R A) : Prop :=
  forall s t, same_edit s t -> same_edit (snd (m s)) (snd (m t)) /\ fst (m s) = fst (m t).

(** The same for the state alone. *)
Definition state_independent {R A} (m : M R A) : Prop :=
  forall s t, same_edit s t -> same_edit (snd (m s)) (snd (m t)).

(** A computation that does not [return] from the enclosing function. *)
Definition goes_on {R A} (m : M R A) : Prop :=
  forall s, exists a, fst (m s) = Go a.

Definition respects (f : Sys -> Sys) : Prop :=
  forall s t, same_edit s t -> same_edit (f s) (f t).

(** Two runs of a piece of [clirEdit] agree like independent ones, unless
    one of them returns -1; the logical state is the same in any case. *)
Definition agree_or_fail {A} (m : M Z A) : Prop :=
  forall s t, same_edit s t ->
    logical (snd (m s)) = logical (snd (m t)) /\
    ((same_edit (snd (m s)) (snd (m t)) /\ fst (m s) = fst (m t))
     \/ fst (m s) = Ret (-1) \/ fst (m t) = Ret (-1)).

(** [s] in front of a terminal whose coming writes turn out as [f] says. *)
Definition with_write_fails (f : list bool) (s : Sys) : Sys :=
  with_world (fun w => mkWorld (input w) f (trace w) (winsize w) (indet w) (fault w)) s.

(** No input has come back: [s'] has at most the input items of [s]. *)
Definition input_le (s s' : Sys) : Prop :=
  (length (input (world s')) <= length (input (world s)))%nat.

(** From [s] to [s'] the program did things, none of them a call of the
    completion producer. *)
Definition not_completion (e : event) : Prop :=
  match e with
  | Completion _ => False
  | _ => True
  end.

Definition no_call (s s' : Sys) : Prop :=
  exists evs, trace (world s') = evs ++ trace (world s) /\ Forall not_completion evs.


(** A session of the driver's kind: a 16-byte array, the prompt of
    example.c, its producer registered, an 80-column terminal without
    write failures, and [typed] waiting. *)
Definition small_session (typed : string) : option Z * Sys :=
  clirEdit 0 (replicate 16 "x"%char) 16 "hello> "
           (boot 0 (Some completion) history_init (terminal typed [] 80)).

(** The state such a session is in once [typed] is consumed, with [next]
    arriving. *)
Definition after_typing (typed next : string) : Sys :=
  with_world (set_input (keys next)) (snd (small_session typed)).

(** What [printf] has put out. *)
Definition printed (s : Sys) : list string :=
  omap (fun e => match e with Printed d => Some d | _ => None end) (events s).

(** The operations of the line buffer that change its content. *)
Inductive edit_op :=
  | Insert (c : ascii)
  | DeleteForward
  | DeleteBackward
  | DeletePrevWord.

Definition run_edit (o : edit_op) (s : Sys) : Sys :=
  match o with
  | Insert c => snd (@clirEditInsert unit c s)
  | DeleteForward => snd (@clirEditDelete unit s)
  | DeleteBackward => snd (@clirEditBackspace unit s)
  | DeletePrevWord => snd (@clirEditDeletePrevWord unit s)
  end.

Definition run_edits (os : list edit_op) (s : Sys) : Sys :=
  fold_left (fun s o => run_edit o s) os s.

(** [0 <= cursor <= length <= capacity], the capacity being [cs->buflen],
    the bound that [clirEditInsert] tests, a [size_t]. *)
Definition cursor_inv (s : Sys) : Prop :=
  0 <= pos (st s) <= len (st s) /\ len (st s) <= buflen (st s) < 2 ^ 64.

(** The ceiling of [a / b] for a positive [b]. *)
Definition ceil_div (a b : Z) : Z := - ((- a) / b).

(** Writes that succeeded so far keep succeeding: the queue of failures
    stays empty. *)
Definition quiet (s s' : Sys) : Prop :=
  write_fails (world s) = [] -> write_fails (world s') = [].

(** The state of a session on an array of [n] bytes in which [k]
    characters have been typed at the end of the line and [i] is waiting:
    length and cursor are [k], [cs->buflen] is [n], and once [k] reaches
    [n] a store has gone past the array. *)
Record typing (n k : nat) (i : list input_item) (s : Sys) : Prop := mkTyping {
  typing_len : len (st s) = Z.of_nat k;
  typing_pos : pos (st s) = Z.of_nat k;
  typing_buflen : buflen (st s) = Z.of_nat n;
  typing_size : length (buf (st s)) = n;
  typing_input : input (world s) = i;
  typing_fault : k = n -> fault (world s) = true
}.

(** No entry is followed by an equal one. *)
Fixpoint no_repeat (l : list string) : Prop :=
  match l with
  | x :: (y :: _) as l' => x <> y /\ no_repeat l'
  | _ => True
  end.

(** A string that can be a line of the history file: shorter than the
    read buffer, and free of line ends and of the terminator. *)
Definition plain_line (e : string) : Prop :=
  (String.length e < Z.to_nat (LINENOISE_MAX_LINE - 1))%nat /\
  Forall (fun c => c <> Persist.LF /\ c <> Persist.CR /\ c <> NUL) (list_ascii_of_string e).

(** A line of the history file, as [fprintf(fp,"%s\n",...)] writes it. *)
Definition text_line (e : string) : list ascii :=
  list_ascii_of_string e ++ [Persist.LF].

(** [clirHistoryAdd] called on each line in turn, results dropped, as the
    loop of [clirHistoryLoad] does. *)
Definition add_all (l : list string) (h : History) : History :=
  fold_left (fun h e => snd (clirHistoryAdd e h)) l h.

(** The edited text: the first [len] bytes of the array. *)
Definition text (s : Sys) : list ascii :=
  take (Z.to_nat (len (st s))) (buf (st s)).

(** The line is a terminated C string inside the caller's array with the
    cursor on it, and no store has gone outside the array, whose size,
    that of a C object, fits a [size_t]. *)
Definition sane (s : Sys) : Prop :=
  cursor_inv s /\
  buf (st s) !! Z.to_nat (len (st s)) = Some NUL /\
  fault (world s) = false /\
  Z.of_nat (length (buf (st s))) < 2 ^ 64.

(** Once raised, [fault] stays. *)
Definition fault_le (s s' : Sys) : Prop :=
  fault (world s) = true -> fault (world s') = true.

(** Sane, unless a store has gone outside the array. *)
Definition intact (s : Sys) : Prop := fault (world s) = false -> sane s.

Definition stays_intact (s s' : Sys) : Prop := intact s -> intact s'.

(** What [clirEdit] may return: -1, or the length of the line as an
    [int]. *)
Definition returns_len {A} (m : M Z A) : Prop :=
  forall s, match m s with
            | (Ret r, s') => r = -1 \/ r = s32 (len (st s'))
            | (Go _, _) => True
            end.

(** The value a function body ends in, by [return] or by falling off its
    last statement, satisfies [P]. *)
Definition ends_in {A} (P : A -> Prop) (body : M A A) : Prop :=
  forall s, match fst (body s) with Go a | Ret a => P a end.

(** What a session is set up with and has no reason to change: the file
    descriptor, the prompt and its length, the column count, the capacity
    and the size of the array, the mode and the registered producer. *)
Definition frame (s : Sys) :=
  (fd (st s), prompt (st s), plen (st s), cols (st s), buflen (st s),
   length (buf (st s)), mlmode s, completionCallback s).

Definition same_frame (s s' : Sys) : Prop := frame s = frame s'.

(** The candidates of the producer [cb] that [completeWord] keeps: those
    that agree with what is typed between the start of the word and the
    cursor, as far as they go. *)
Definition valid_candidates (cb : clirCompletionCallback) (s : Sys) : list string :=
  List.filter (fun cand => typed_matches (indeterminate s) (buf (st s)) (pos (st s)) cand
                                         (word_pos (st s)))
              (cb (line s)).

(** A string as C has it: no NUL inside. *)
Definition nul_free (e : string) : Prop :=
  Forall (fun c => c <> NUL) (list_ascii_of_string e).

(** A string in lower case, as [tolower] has it. *)
Fixpoint lower (e : string) : string :=
  match e with
  | EmptyString => EmptyString
  | String c e' => String (Front.tolower c) (lower e')
  end.

(** [clir] reads its line with [fgets]: the terminal is one of those it
    takes to be unable to edit, or the input is no terminal. *)
Definition fallback (p : Front.Proc) : bool :=
  Front.isUnsupportedTerm (Front.env_TERM p) || negb (Front.stdin_isatty p).

(** A process in front of a working terminal: the input is one, reading
    and setting its attributes succeed. *)
Definition on_terminal (p : Front.Proc) : Prop :=
  Front.stdin_isatty p = true /\ Front.tcgetattr_fails p = false /\
  Front.tcsetattr_fails p = [].

(** [k] carriage returns, as a line from a DOS file ends in one. *)
Definition carriage_returns (k : nat) : string :=
  string_of_list_ascii (replicate k Persist.CR).

(** One platform's values of the macros, those of Linux, and a process on
    a terminal of 80 columns on which [typed] arrives, [ahead] saying how
    much of it each [tcsetattr] finds unread, or with [data] on a standard
    input that is none. *)
Definition linux : Front.termios_macros :=
  Front.mkMacros 2 256 16 32 1024 1 48 8 2 32768 1 6 5.

Definition cooked : Front.termios :=
  Front.mkTermios 17664 5 191 35387 (replicate 32 0).

Definition console (term : option string) (typed : string) (fails : list bool)
    (ahead : list nat) : Front.Proc :=
  Front.mkProc (boot 0 None history_init (terminal typed [] 80)) true term []
               cooked false fails ahead cooked 0 0.

Definition piped (term : option string) (data : string) : Front.Proc :=
  Front.mkProc (boot 0 None history_init (terminal EmptyString [] 80)) false term
               (list_ascii_of_string data) cooked false [] [] cooked 0 0.

(** A printable ASCII character. *)
Definition printable (c : ascii) : Prop := 32 <= code c <= 126.

(** The state of a session on an array of [N] bytes in which [e] has been
    typed at the end of the line and [i] is waiting, with no write failed
    and none going to. *)
Record composing (N : Z) (e : list ascii) (i : list input_item) (s : Sys) : Prop :=
  mkComposing {
  composing_sane : sane s;
  composing_end : pos (st s) = len (st s);
  composing_text : text s = e;
  composing_input : input (world s) = i;
  composing_quiet : write_fails (world s) = [];
  composing_buflen : buflen (st s) = N;
  composing_size : Z.of_nat (length (buf (st s))) = N
}.

(** The capacity [cs->buflen] is one byte or more and lies inside the
    array. *)
Definition fits (s : Sys) : Prop :=
  1 <= buflen (st s) <= Z.of_nat (length (buf (st s))).

(** A step that leaves a sane line sane, with no store outside the array,
    and keeps what the session was set up with. *)
Definition stays_sane (s s' : Sys) : Prop :=
  same_frame s s' /\ (sane s -> fits s -> sane s').

(** The [case] labels of the [switch] of [clirEdit]; every other byte goes
    to its [default:] and is inserted. *)
Definition special_keys : list Z :=
  [13; 3; 127; 8; 4; 20; 2; 6; 16; 14; 27; 21; 11; 1; 5; 12; 23].

Definition self_inserted (c : ascii) : bool :=
  negb (existsb (Z.eqb (schar c)) special_keys).

(** A run of events in which a write that failed, if there is one, is the
    last thing that happened: nothing was written after it. *)
Definition write_failed (e : event) : bool :=
  match e with WriteFailed _ => true | _ => false end.

Definition unfailed (l : list event) : bool :=
  forallb (fun e => negb (write_failed e)) l.

Fixpoint stops_at_failure (l : list event) : bool :=
  match l with
  | [] => true
  | e :: l' =>
      if write_failed e then match l' with [] => true | _ :: _ => false end
      else stops_at_failure l'
  end.

(** A function body that returns at the first write that fails: while it
    goes on no write has failed, and when it returns a failed write is the
    last event it added. *)
Definition halts {R A} (m : M R A) : Prop :=
  forall s, exists l,
    events (snd (m s)) = events s ++ l /\
    match fst (m s) with
    | Go _ => unfailed l = true
    | Ret _ => stops_at_failure l = true
    end.

(** The number of bytes that [enableRawMode] finds received and unread
    when it sets the attributes, and the number that [disableRawMode]
    finds after it: the first two calls of [tcsetattr] that succeed. *)
Definition unread_entering (p : Front.Proc) : nat :=
  default 0%nat (head (Front.received p)).
Definition unread_leaving (p : Front.Proc) : nat :=
  default 0%nat (head (tail (Front.received p))).

End Vocab.

(** * Properties *)

(** ** History store *)

Module HistFacts.
Import Hist.

Lemma length_shift_down n (a : list (option string)) :
  length a = Z.to_nat n -> 1 <= n -> length (shift_down n a) = Z.to_nat n.
Proof.
  intros Ha Hn. unfold shift_down.
  rewrite length_app, length_take, !length_drop. lia.
Qed.

Lemma lookup_shift_down n (a : list (option string)) (i : nat) :
  length a = Z.to_nat n -> (i < Z.to_nat (n - 1))%nat ->
  shift_down n a !! i = a !! S i.
Proof.
  intros Ha Hi. unfold shift_down.
  rewrite lookup_app_l by (rewrite length_take, length_drop; lia).
  rewrite lookup_take_lt by lia. by rewrite lookup_drop.
Qed.

Lemma wf_init : wf history_init.
Proof.
  split; simpl; try done; unfold LINENOISE_DEFAULT_HISTORY_MAX_LEN; lia.
Qed.

Lemma clirHistoryAdd_stages line h :
  history_max_len h <> 0 -> clirHistoryAdd line h = append line (evict (alloc h)).
Proof.
  intros Hm. unfold clirHistoryAdd.
  by destruct (Z.eqb_spec (history_max_len h) 0).
Qed.

Lemma alloc_wf h : wf h -> wf (alloc h).
Proof.
  intros [Hm Hl Hn Hs Hv]. unfold alloc.
  destruct (history h) as [a|] eqn:E; [by split; rewrite ?E|].
  specialize (Hn eq_refl).
  split; simpl; try done.
  - intros a [= <-]. by rewrite length_replicate.
  - intros i Hi. lia.
Qed.

Lemma alloc_allocated h : history (alloc h) <> None.
Proof. unfold alloc. destruct (history h) eqn:E; simpl; congruence. Qed.

Lemma evict_wf h : wf h -> history h <> None -> wf (evict h).
Proof.
  intros [Hm Hl Hn Hs Hv] Ha. unfold evict.
  destruct (Z.eqb_spec (history_len h) (history_max_len h)) as [Hfull|]; [|by split].
  destruct (history h) as [a|] eqn:E; [|done].
  specialize (Hs a eq_refl). unfold slots in *. rewrite E in *. simpl in *.
  split; simpl; try lia; try done.
  - intros a' [= <-]. by apply length_shift_down.
  - intros i Hi. unfold slots; simpl. rewrite lookup_shift_down by lia. apply Hv. lia.
Qed.

Lemma evict_room h : wf h -> history_len (evict h) < history_max_len (evict h).
Proof.
  intros [Hm Hl _ _ _]. unfold evict.
  destruct (Z.eqb_spec (history_len h) (history_max_len h)); simpl; lia.
Qed.

Lemma evict_allocated h : history h <> None -> history (evict h) <> None.
Proof. unfold evict. destruct (_ =? _); simpl; congruence. Qed.

Lemma clirHistoryAdd_wf line h : wf h -> wf (snd (clirHistoryAdd line h)).
Proof.
  intros Hw. pose proof (wf_max _ Hw) as Hm.
  rewrite clirHistoryAdd_stages by lia.
  pose proof (evict_wf _ (alloc_wf _ Hw) (alloc_allocated h)) as Hw2.
  pose proof (evict_room _ (alloc_wf _ Hw)) as Hroom.
  pose proof (evict_allocated _ (alloc_allocated h)) as Hal.
  set (h2 := evict (alloc h)) in *. unfold append.
  destruct (_ && _); simpl; [done|].
  destruct Hw2 as [Hm2 Hl2 Hn2 Hs2 Hv2].
  destruct (history h2) as [a|] eqn:E; [|done].
  specialize (Hs2 a eq_refl). unfold slots in *. rewrite E in *. simpl in *.
  split; simpl; try lia; try done.
  - intros a' [= <-]. by rewrite length_insert.
  - intros i Hi. unfold slots; simpl.
    destruct (decide (i = Z.to_nat (history_len h2))) as [->|Hne].
    + rewrite list_lookup_insert_eq by lia. eauto.
    + rewrite list_lookup_insert_ne by done. apply Hv2. lia.
Qed.

Lemma clirHistorySetMaxLen_wf n h : wf h -> wf (snd (clirHistorySetMaxLen n h)).
Proof.
  intros [Hm Hl Hn Hs Hv]. unfold clirHistorySetMaxLen.
  destruct (Z.ltb_spec n 1); [by split|].
  destruct (history h) as [a|] eqn:E; simpl.
  - specialize (Hs a eq_refl). unfold slots in *. rewrite E in *. simpl in *.
    destruct (Z.ltb_spec n (history_len h)) as [Hlt|Hge].
    + destruct (Z.gtb_spec (history_len h) n); [|lia].
      split; simpl; try lia; try done.
      * intros a' [= <-]. rewrite length_app, length_take, length_drop, length_replicate. lia.
      * intros i Hi. unfold slots; simpl. rewrite lookup_app_l by (rewrite length_take, length_drop; lia).
        rewrite lookup_take_lt by lia. rewrite lookup_drop. apply Hv. lia.
    + destruct (Z.gtb_spec (history_len h) n); [lia|].
      split; simpl; try lia; try done.
      * intros a' [= <-]. rewrite length_app, length_take, length_drop, length_replicate. lia.
      * intros i Hi. unfold slots; simpl. rewrite lookup_app_l by (rewrite length_take, length_drop; lia).
        rewrite lookup_take_lt by lia. rewrite lookup_drop.
        replace (Z.to_nat (history_len h - history_len h)) with 0%nat by lia.
        apply Hv. lia.
  - specialize (Hn eq_refl). rewrite Hn.
    destruct (Z.gtb_spec 0 n); [lia|].
    split; simpl; rewrite ?E; try lia; try done.
Qed.

Lemma run_ops_wf os h : wf h -> wf (run_ops os h).
Proof.
  revert h. induction os as [|o os IH]; intros h Hw; [done|].
  simpl. apply IH. destruct o; simpl.
  - by apply clirHistoryAdd_wf.
  - by apply clirHistorySetMaxLen_wf.
Qed.

Lemma omap_id_Some (l : list string) : omap id (Some <$> l) = l.
Proof. induction l as [|x l IH]; [done|]. simpl. f_equal. exact IH. Qed.

Lemma all_live_fmap (a : list (option string)) :
  (forall i, (i < length a)%nat -> exists s, a !! i = Some (Some s)) ->
  a = Some <$> omap id a.
Proof.
  induction a as [|x a IH]; intros H; [done|].
  destruct (H 0%nat) as [s Hs]; [simpl; lia|]. simpl in Hs. injection Hs as ->.
  simpl. f_equal. apply IH. intros i Hi. apply (H (S i)). simpl. lia.
Qed.

Lemma wf_entries h :
  wf h -> take (Z.to_nat (history_len h)) (slots h) = Some <$> entries h.
Proof.
  intros Hw. unfold entries. apply all_live_fmap.
  intros i Hi. rewrite length_take in Hi.
  rewrite lookup_take_lt by lia. apply (wf_live _ Hw). lia.
Qed.

Lemma wf_slots_length h :
  wf h -> history h <> None -> length (slots h) = Z.to_nat (history_max_len h).
Proof.
  intros Hw Ha. unfold slots. destruct (history h) as [a|] eqn:E; [|done].
  simpl. by apply (wf_size _ Hw).
Qed.

Lemma length_entries h : wf h -> length (entries h) = Z.to_nat (history_len h).
Proof.
  intros Hw. pose proof (wf_entries _ Hw) as He.
  apply (f_equal length) in He. rewrite length_fmap, length_take in He.
  pose proof (wf_len _ Hw). destruct (history h) as [a|] eqn:E.
  - unfold slots in He. rewrite E in He. simpl in He.
    pose proof (wf_size _ Hw a E). lia.
  - pose proof (wf_null _ Hw E). lia.
Qed.

(** A full store written out: its array is exactly its entries. *)
Lemma wf_full_slots h :
  wf h -> history_len h = history_max_len h -> slots h = Some <$> entries h.
Proof.
  intros Hw Hfull. rewrite <- wf_entries by done.
  pose proof (wf_max _ Hw). pose proof (wf_null _ Hw).
  rewrite take_ge; [done|]. rewrite wf_slots_length; [lia|done|].
  intros E. specialize (H0 E). lia.
Qed.

Lemma drop_last_fmap (x : string) (l : list string) :
  exists stale, drop (length l) (Some <$> x :: l) = [stale].
Proof.
  revert x. induction l as [|y l IH]; intros x; [by eexists|].
  rewrite fmap_cons. change (drop (length (y :: l)) (Some x :: ?t)) with (drop (length l) t).
  apply IH.
Qed.

Lemma shift_down_full n (x : string) (l : list string) :
  Z.to_nat n = S (length l) ->
  exists stale, shift_down n (Some <$> x :: l) = (Some <$> l) ++ [stale].
Proof.
  intros Hn. unfold shift_down.
  replace (Z.to_nat (n - 1)) with (length l) by lia.
  destruct (drop_last_fmap x l) as [stale ->]. exists stale.
  rewrite fmap_cons. change (drop 1 (Some x :: ?t)) with t.
  by rewrite take_ge by (rewrite length_fmap; lia).
Qed.

(** What the eviction stage of [clirHistoryAdd] does to a full store,
    whatever the line is: the oldest entry is gone, the others moved down
    by one slot, and the last slot is left stale. *)
Lemma evict_full h :
  wf h -> history_len h = history_max_len h ->
  exists x l stale, entries h = x :: l /\
    evict (alloc h) = mkHistory (Some ((Some <$> l) ++ [stale]))
                              (history_len h - 1) (history_max_len h).
Proof.
  intros Hw Hfull. pose proof (wf_max _ Hw) as Hm.
  pose proof (wf_full_slots _ Hw Hfull) as Hs.
  pose proof (length_entries _ Hw) as Hl.
  destruct (entries h) as [|x l] eqn:E; [simpl in Hl; lia|].
  unfold alloc, evict, slots in *.
  destruct (history h) as [a|] eqn:Ea.
  2:{ pose proof (wf_null _ Hw Ea). lia. }
  rewrite Ea, Hfull, Z.eqb_refl. change (a = Some <$> x :: l) in Hs. subst a.
  cbn [from_option id].
  destruct (shift_down_full (history_max_len h) x l) as [stale ->];
    [simpl in Hl; lia|].
  by exists x, l, stale.
Qed.

(** The slot the duplicate test reads is the most recent entry. *)
Lemma slot_last h : wf h -> slot h (history_len h - 1) = last (entries h).
Proof.
  intros Hw. pose proof (wf_len _ Hw) as Hl.
  pose proof (length_entries _ Hw) as Hn.
  pose proof (wf_entries _ Hw) as He. unfold slot.
  destruct (Z.ltb_spec (history_len h - 1) 0) as [Hz|Hz].
  - destruct (entries h); [done|simpl in Hn; lia].
  - rewrite last_lookup, Hn.
    replace (Init.Nat.pred (Z.to_nat (history_len h)))
      with (Z.to_nat (history_len h - 1)) by lia.
    rewrite <- (lookup_take_lt (slots h) (Z.to_nat (history_len h))) by lia.
    rewrite He, list_lookup_fmap. by destruct (entries h !! _).
Qed.

Lemma append_duplicate line h :
  wf h -> last (entries h) = Some line -> append line h = (0, h).
Proof.
  intros Hw Hlast. unfold append. rewrite slot_last, Hlast by done.
  rewrite bool_decide_eq_true_2 by done.
  destruct (Z.eqb_spec (history_len h) 0) as [Hz|]; [|done].
  pose proof (length_entries _ Hw). destruct (entries h); [done|simpl in *; lia].
Qed.

Lemma append_fresh line h :
  wf h -> history h <> None -> history_len h < history_max_len h ->
  last (entries h) <> Some line ->
  exists h', append line h = (1, h') /\ entries h' = entries h ++ [line] /\
             history_len h' = history_len h + 1 /\
             history_max_len h' = history_max_len h.
Proof.
  intros Hw Ha Hroom Hlast. unfold append. rewrite slot_last by done.
  rewrite bool_decide_eq_false_2, andb_false_r by done.
  eexists. split; [done|]. split; [|done].
  pose proof (wf_len _ Hw) as Hl. pose proof (wf_slots_length _ Hw Ha) as Hs.
  pose proof (wf_entries _ Hw) as He.
  unfold entries at 1. cbn [history_len slots history from_option id].
  replace (Z.to_nat (history_len h + 1)) with (S (Z.to_nat (history_len h))) by lia.
  erewrite take_S_r by (apply list_lookup_insert_eq; lia).
  rewrite take_insert_ge by lia. rewrite He.
  by rewrite omap_app, omap_id_Some.
Qed.

Lemma evict_alloc_room h :
  wf h -> history_len h < history_max_len h -> history_len h <> 0 ->
  evict (alloc h) = h.
Proof.
  intros Hw Hroom Hne. unfold alloc.
  destruct (history h) eqn:E; [|by pose proof (wf_null _ Hw E)].
  unfold evict. destruct (Z.eqb_spec (history_len h) (history_max_len h)); [lia|done].
Qed.

(** Below capacity the duplicate is rejected and nothing changes. *)
Lemma clirHistoryAdd_duplicate_room line h :
  wf h -> history_len h < history_max_len h -> last (entries h) = Some line ->
  clirHistoryAdd line h = (0, h).
Proof.
  intros Hw Hroom Hlast. pose proof (wf_max _ Hw).
  rewrite clirHistoryAdd_stages by lia.
  rewrite evict_alloc_room; [by apply append_duplicate|done..|].
  intros Hz. pose proof (length_entries _ Hw) as Hl.
  rewrite Hz in Hl. by destruct (entries h).
Qed.

(** At capacity (two slots or more) the duplicate is rejected as well, but
    only after the oldest entry has been dropped. *)
Lemma clirHistoryAdd_duplicate_full line h :
  wf h -> history_len h = history_max_len h -> 2 <= history_max_len h ->
  last (entries h) = Some line ->
  exists h', clirHistoryAdd line h = (0, h') /\
             entries h' = drop 1 (entries h) /\
             history_len h' = history_len h - 1.
Proof.
  intros Hw Hfull Hmax Hlast.
  rewrite clirHistoryAdd_stages by lia.
  pose proof (evict_wf _ (alloc_wf _ Hw) (alloc_allocated h)) as Hw2.
  pose proof (length_entries _ Hw) as Hlen.
  destruct (evict_full h Hw Hfull) as (x & l & stale & He & Hev).
  assert (Hent : entries (evict (alloc h)) = l).
  { rewrite Hev. unfold entries. cbn [history_len slots history from_option id].
    rewrite He in Hlen. simpl in Hlen.
    replace (Z.to_nat (history_len h - 1)) with (length (Some <$> l))
      by (rewrite length_fmap; lia).
    by rewrite take_app_length, omap_id_Some. }
  exists (evict (alloc h)). split; [|split].
  - apply append_duplicate; [done|]. rewrite Hent.
    rewrite He in Hlast, Hlen. simpl in Hlen.
    destruct l as [|y l]; [simpl in Hlen; lia|]. by rewrite last_cons_cons in Hlast.
  - by rewrite Hent, He.
  - by rewrite Hev.
Qed.

(** A full store takes a line that differs from its newest entry: the
    oldest entry goes, the others keep their order, the line comes last. *)
Lemma clirHistoryAdd_fresh_full line h :
  wf h -> history_len h = history_max_len h -> last (entries h) <> Some line ->
  exists h', clirHistoryAdd line h = (1, h') /\
             entries h' = drop 1 (entries h) ++ [line] /\
             history_len h' = history_max_len h' /\
             history_max_len h' = history_max_len h.
Proof.
  intros Hw Hfull Hlast. pose proof (wf_max _ Hw) as Hmax.
  rewrite clirHistoryAdd_stages by lia.
  pose proof (evict_wf _ (alloc_wf _ Hw) (alloc_allocated h)) as Hw2.
  pose proof (evict_allocated _ (alloc_allocated h)) as Ha2.
  pose proof (length_entries _ Hw) as Hlen.
  destruct (evict_full h Hw Hfull) as (x & l & stale & He & Hev).
  assert (Hent : entries (evict (alloc h)) = l).
  { rewrite Hev. unfold entries. cbn [history_len slots history from_option id].
    rewrite He in Hlen. simpl in Hlen.
    replace (Z.to_nat (history_len h - 1)) with (length (Some <$> l))
      by (rewrite length_fmap; lia).
    by rewrite take_app_length, omap_id_Some. }
  destruct (append_fresh line (evict (alloc h))) as (h' & Hadd & He' & Hl' & Hm');
    [done|done|rewrite Hev; simpl; lia| |].
  - rewrite Hent. rewrite He in Hlast.
    destruct l as [|y l]; [done|]. by rewrite last_cons_cons in Hlast.
  - exists h'. split; [done|]. rewrite He', Hent, He, Hl', Hm', Hev. simpl.
    split; [done|]. split; lia.
Qed.

(** C7.  Starting from the initial store, no sequence of
    [clirHistoryAdd] and [clirHistorySetMaxLen] calls makes [history_len]
    exceed [history_max_len]; and adding to a full store a line that
    differs from its newest entry returns 1, drops exactly the oldest
    entry, keeps the others in order and puts the line last. *)
Theorem history_capacity_fifo :
  (forall os : list op,
     0 <= history_len (run_ops os history_init)
       <= history_max_len (run_ops os history_init)) /\
  (forall (h : History) (line : string),
     wf h -> history_len h = history_max_len h ->
     last (entries h) <> Some line ->
     exists h', clirHistoryAdd line h = (1, h') /\
                entries h' = drop 1 (entries h) ++ [line] /\
                history_len h' = history_max_len h' /\
                history_max_len h' = history_max_len h).
Proof.
  split.
  - intros os. apply wf_len, run_ops_wf, wf_init.
  - intros h line. apply clirHistoryAdd_fresh_full.
Qed.

Lemma history_capacity_fifo_witness :
  let h := run_ops [SetMaxLen 2; Add "a"; Add "b"] history_init in
  entries h = ["a"; "b"] /\
  exists h', clirHistoryAdd "c" h = (1, h') /\
             entries h' = drop 1 (entries h) ++ ["c"] /\
             history_len h' = history_max_len h' /\
             history_max_len h' = history_max_len h.
Proof.
  split; [reflexivity|].
  apply (proj2 history_capacity_fifo).
  - apply run_ops_wf, wf_init.
  - reflexivity.
  - vm_compute. discriminate.
Defined.

(** C1.  The duplicate test of [clirHistoryAdd] runs after the eviction:
    on the full two-slot store a, b the call with b returns 0, yet the
    store is left with the single entry b. *)
Theorem history_add_duplicate_when_full :
  let h := run_ops [SetMaxLen 2; Add "a"; Add "b"] history_init in
  entries h = ["a"; "b"] /\ history_len h = 2 /\ history_max_len h = 2 /\
  fst (clirHistoryAdd "b" h) = 0 /\
  entries (snd (clirHistoryAdd "b" h)) = ["b"] /\
  history_len (snd (clirHistoryAdd "b" h)) = 1.
Proof. vm_compute. repeat split. Qed.

End HistFacts.
(** ** The editor *)

Module EditFacts.
Import Hist Edit Vocab.

(** *** Relations that every step of a computation keeps *)

Section Preserve.
Context (Rel : Sys -> Sys -> Prop) `{!PreOrder Rel}.

Lemma preserves_ret {R A} (a : A) : preserves Rel (mret a : M R A).
Proof. intros s. reflexivity. Qed.

Lemma preserves_bind {R A B} (m : M R A) (f : A -> M R B) :
  preserves Rel m -> (forall a, preserves Rel (f a)) -> preserves Rel (m ≫= f).
Proof.
  intros Hm Hf s. specialize (Hm s). unfold mbind, M_bind.
  destruct (m s) as [[a|r] s']; simpl in *; [|done].
  etrans; [exact Hm|apply Hf].
Qed.

Lemma preserves_call {R A} (m : M A A) : preserves Rel m -> preserves Rel (call m : M R A).
Proof. intros Hm s. specialize (Hm s). unfold call. by destruct (m s) as [[a|r] s']. Qed.

Lemma preserves_gets {R A} (f : Sys -> A) : preserves Rel (gets f : M R A).
Proof. intros s. reflexivity. Qed.

Lemma preserves_leave {R A} (r : R) : preserves Rel (leave r : M R A).
Proof. intros s. reflexivity. Qed.

Lemma preserves_modify {R} (f : Sys -> Sys) :
  (forall s, Rel s (f s)) -> preserves Rel (modify f : M R unit).
Proof. intros Hf s. apply Hf. Qed.
End Preserve.

Create HintDb pres discriminated.

(** One syntax-directed step through a computation. *)
Ltac pres_step :=
  lazymatch goal with
  | |- PreOrder _ => apply _
  | |- preserves _ (mret _) => apply preserves_ret
  | |- preserves _ (gets _) => apply preserves_gets
  | |- preserves _ (leave _) => apply preserves_leave
  | |- preserves _ (call _) => apply preserves_call
  | |- preserves _ (modify _) => apply preserves_modify; intros ?
  | |- preserves _ (mbind _ _) => apply preserves_bind; [..|intros ?]
  | |- preserves _ (let _ := _ in _) => cbv zeta
  | |- preserves _ (if ?b then _ else _) => destruct b
  | |- preserves _ (match ?x with _ => _ end) => destruct x
  | |- _ => solve [auto with pres]
  end.
Ltac pres := repeat pres_step.

(** *** A redraw touches nothing but what [core] erases *)

#[export] Instance same_edit_preorder : PreOrder same_edit.
Proof. split; [done|]. unfold same_edit. intros a b c. congruence. Qed.

#[export] Instance same_edit_symmetric : Symmetric same_edit.
Proof. unfold same_edit. by intros a b. Qed.

#[local] Hint Extern 1 (same_edit _ _) => exact eq_refl : pres.

Lemma write_same_edit {R} d : preserves same_edit (write d : M R Z).
Proof. intros s. unfold write. by destruct (write_fails (world s)) as [|[] ?]. Qed.
#[local] Hint Resolve write_same_edit : pres.

Lemma write_or_return_same_edit d : preserves same_edit (write_or_return d).
Proof. unfold write_or_return. pres. Qed.
#[local] Hint Resolve write_or_return_same_edit : pres.

Lemma refreshSingleLine_same_edit {R} : preserves same_edit (@refreshSingleLine R).
Proof.
  unfold refreshSingleLine. apply preserves_call, preserves_bind; [pres..|].
  intros cs. destruct (slide _ _ _ _) as [[off len1] pos1]. pres.
Qed.

Lemma bump_maxrows_same_edit rows : preserves same_edit (bump_maxrows rows).
Proof. unfold bump_maxrows. pres. Qed.

Lemma repeat_write_same_edit n d : preserves same_edit (repeat_write n d).
Proof. induction n; simpl; pres. Qed.
#[local] Hint Resolve bump_maxrows_same_edit repeat_write_same_edit : pres.

Lemma refreshMultiLine_same_edit {R} : preserves same_edit (@refreshMultiLine R).
Proof. unfold refreshMultiLine. pres. Qed.

Lemma refreshLine_same_edit {R} : preserves same_edit (@refreshLine R).
Proof.
  unfold refreshLine. pres;
    [apply refreshMultiLine_same_edit|apply refreshSingleLine_same_edit].
Qed.
#[local] Hint Resolve refreshLine_same_edit : pres.

(** A redraw never makes the caller return: failed writes end the redraw
    and nothing else. *)
Lemma refreshLine_go {R} s : fst (@refreshLine R s) = Go tt.
Proof.
  unfold refreshLine, refreshSingleLine, refreshMultiLine, call, mbind, M_bind, gets.
  destruct (negb _);
    match goal with
    | |- fst (match ?x with _ => _ end) = _ => by destruct x as [[[]|[]] ?]
    end.
Qed.

Lemma same_edit_logical s s' : same_edit s s' -> logical s = logical s'.
Proof.
  unfold same_edit, logical. intros H.
  change (buf (st s)) with (buf (st (core s))).
  change (len (st s)) with (len (st (core s))).
  change (pos (st s)) with (pos (st (core s))).
  by rewrite H.
Qed.

Lemma same_edit_rerender s t :
  same_edit s t ->
  t = rerender (oldpos (st t)) (maxrows (st t)) (write_fails (world t)) (trace (world t)) s.
Proof.
  destruct s as [[] ? ? ? []], t as [[] ? ? ? []]. unfold same_edit, core, rerender. simpl.
  intros [= -> -> -> -> -> -> -> -> -> -> -> -> -> -> -> -> ->]. reflexivity.
Qed.

(** *** Non-interference with the outcome of writes *)

Lemma independent_ret {R A} (a : A) : independent (mret a : M R A).
Proof. by intros s t H. Qed.

Lemma independent_leave {R A} (r : R) : independent (leave r : M R A).
Proof. by intros s t H. Qed.

Lemma independent_bind {R A B} (m : M R A) (k : A -> M R B) :
  independent m -> (forall a, independent (k a)) -> independent (m ≫= k).
Proof.
  intros Hm Hk s t H. destruct (Hm s t H) as [Hs Hv].
  unfold mbind, M_bind. destruct (m s) as [[a|r] s'], (m t) as [[b|r'] t'];
    simpl in *; try discriminate; injection Hv as ->; [by apply Hk|done].
Qed.

(** Reading a component and going on with code that ignores what a redraw
    may have changed in it. *)
Lemma independent_gets {R A B} (g : Sys -> A) (k : A -> M R B) :
  (forall s o mx f tr, k (g (rerender o mx f tr s)) = k (g s)) ->
  (forall a, independent (k a)) -> independent (gets g ≫= k).
Proof.
  intros Hg Hk s t H. unfold mbind, M_bind, gets.
  rewrite (same_edit_rerender s t H), Hg. apply Hk.
  by rewrite <- (same_edit_rerender s t H).
Qed.

Lemma independent_modify {R} (f : Sys -> Sys) :
  respects f -> independent (modify f : M R unit).
Proof. intros Hf s t H. split; [by apply Hf|done]. Qed.

Lemma independent_call {R A} (m : M A A) : independent m -> independent (call m : M R A).
Proof.
  intros Hm s t H. destruct (Hm s t H) as [Hs Hv]. unfold call.
  destruct (m s) as [[a|r] s'], (m t) as [[b|r'] t']; simpl in *;
    try discriminate; by injection Hv as ->.
Qed.

Lemma independent_refreshLine {R} : independent (@refreshLine R).
Proof.
  intros s t H. rewrite !refreshLine_go. split; [|done].
  etrans; [symmetry; apply refreshLine_same_edit|].
  etrans; [exact H|]. apply refreshLine_same_edit.
Qed.

Lemma respects_core (f : Sys -> Sys) :
  (forall s, core (f s) = core (f (core s))) -> respects f.
Proof. intros Hf s t H. unfold same_edit in *. by rewrite Hf, H, <- Hf. Qed.

Lemma independent_store {R} i c : independent (@store R i c).
Proof.
  apply independent_modify, respects_core. intros [[] ? ? ? []]. unfold poke. simpl.
  by destruct (_ && _).
Qed.

Lemma independent_memmove {R} d sr n : independent (@memmove R d sr n).
Proof.
  apply independent_modify, respects_core. intros [[] ? ? ? []]. unfold move_bytes. simpl.
  by destruct (memmove_buf _ _ _ _).
Qed.

Lemma independent_strncpy {R} src n : independent (@strncpy R src n).
Proof.
  apply independent_modify, respects_core. intros [[] ? ? ? []]. unfold copy_string. simpl.
  by destruct (strncpy_buf _ _ _).
Qed.

Lemma independent_printf {R} d : independent (@printf R d).
Proof. apply independent_modify, respects_core. intros [[] ? ? ? []]. reflexivity. Qed.

Lemma independent_clirBeep {R} : independent (@clirBeep R).
Proof. apply independent_modify, respects_core. intros [[] ? ? ? []]. reflexivity. Qed.

Lemma independent_read {R} n : independent (@read R n).
Proof.
  intros s t H. rewrite (same_edit_rerender s t H).
  generalize (oldpos (st t)) (maxrows (st t)) (write_fails (world t)) (trace (world t)).
  clear. destruct s as [[] ? ? ? [i ? ? ? ? ?]]. intros o mx f tr.
  unfold read, rerender. simpl.
  destruct i as [|[c|] rest]; [| |];
    try destruct (take_keys n (Key c :: rest)); (split; [exact eq_refl|reflexivity]).
Qed.

Create HintDb indep discriminated.

Ltac indep_step :=
  lazymatch goal with
  | |- independent (mret _) => apply independent_ret
  | |- independent (leave _) => apply independent_leave
  | |- independent (call _) => apply independent_call
  | |- independent refreshLine => apply independent_refreshLine
  | |- independent (store _ _) => apply independent_store
  | |- independent (memmove _ _ _) => apply independent_memmove
  | |- independent (strncpy _ _) => apply independent_strncpy
  | |- independent (printf _) => apply independent_printf
  | |- independent clirBeep => apply independent_clirBeep
  | |- independent (read _) => apply independent_read
  | |- independent (modify _) =>
      apply independent_modify, respects_core; intros [[] ? ? ? []]; reflexivity
  | |- independent (mbind _ (gets _)) => apply independent_gets; [reflexivity|intros ?]
  | |- independent (mbind _ _) => apply independent_bind; [|intros ?]
  | |- independent (let _ := _ in _) => cbv zeta
  | |- independent (if ?b then _ else _) => destruct b
  | |- independent (match ?x with _ => _ end) => destruct x
  | |- _ => solve [auto with indep]
  end.
Ltac indep := repeat indep_step.

Lemma clirEditBackspace_independent {R} : independent (@clirEditBackspace R).
Proof. unfold clirEditBackspace. indep. Qed.

Lemma clirEditDelete_independent {R} : independent (@clirEditDelete R).
Proof. unfold clirEditDelete. indep. Qed.

Lemma clirEditMoveLeft_independent {R} : independent (@clirEditMoveLeft R).
Proof. unfold clirEditMoveLeft. indep. Qed.

Lemma clirEditMoveRight_independent {R} : independent (@clirEditMoveRight R).
Proof. unfold clirEditMoveRight. indep. Qed.

Lemma clirEditDeletePrevWord_independent {R} : independent (@clirEditDeletePrevWord R).
Proof. unfold clirEditDeletePrevWord. indep. Qed.

Lemma clirEditHistoryNext_independent {R} dir : independent (@clirEditHistoryNext R dir).
Proof. unfold clirEditHistoryNext. indep. Qed.

Lemma swap_chars_independent {R} : independent (@swap_chars R).
Proof. unfold swap_chars. indep. Qed.

Lemma word_right_independent {R} : independent (@word_right R).
Proof. unfold word_right. indep. Qed.

Lemma word_left_independent {R} : independent (@word_left R).
Proof. unfold word_left. indep. Qed.

(** *** Operations whose value depends on a write *)

Lemma state_independent_preserves {R A} (m : M R A) :
  preserves same_edit m -> state_independent m.
Proof.
  intros Hm s t H. etrans; [symmetry; apply Hm|]. etrans; [exact H|apply Hm].
Qed.

Lemma state_independent_weaken {R A} (m : M R A) : independent m -> state_independent m.
Proof. intros Hm s t H. by apply Hm. Qed.

Lemma state_independent_bind {R A B} (m : M R A) (k : A -> M R B) :
  independent m -> (forall a, state_independent (k a)) -> state_independent (m ≫= k).
Proof.
  intros Hm Hk s t H. destruct (Hm s t H) as [Hs Hv].
  unfold mbind, M_bind. destruct (m s) as [[a|r] s'], (m t) as [[b|r'] t'];
    simpl in *; try discriminate; injection Hv as ->; [by apply Hk|done].
Qed.

Lemma state_independent_gets {R A B} (g : Sys -> A) (k : A -> M R B) :
  (forall s o mx f tr, k (g (rerender o mx f tr s)) = k (g s)) ->
  (forall a, state_independent (k a)) -> state_independent (gets g ≫= k).
Proof.
  intros Hg Hk s t H. unfold mbind, M_bind, gets.
  rewrite (same_edit_rerender s t H), Hg. apply Hk.
  by rewrite <- (same_edit_rerender s t H).
Qed.

Lemma state_independent_call {R A} (m : M A A) :
  state_independent m -> state_independent (call m : M R A).
Proof.
  intros Hm s t H. specialize (Hm s t H). unfold call.
  by destruct (m s) as [[a|r] s'], (m t) as [[b|r'] t'].
Qed.

Lemma goes_on_call {R A} (m : M A A) : goes_on (call m : M R A).
Proof. intros s. unfold call. destruct (m s) as [[a|r] s']; by eexists. Qed.

(** A step whose value is dropped may depend on the writes in its value. *)
Lemma independent_seq {R A B} (m : M R A) (k : M R B) :
  state_independent m -> goes_on m -> independent k -> independent (m ≫= fun _ => k).
Proof.
  intros Hm Hg Hk s t H. specialize (Hm s t H).
  destruct (Hg s) as [a Ha], (Hg t) as [b Hb]. unfold mbind, M_bind.
  destruct (m s) as [v s'], (m t) as [v' t']. simpl in *. subst. by apply Hk.
Qed.

Lemma clirEditInsert_state_independent {R} c : state_independent (@clirEditInsert R c).
Proof.
  unfold clirEditInsert. apply state_independent_call.
  apply state_independent_gets; [reflexivity|intros cs].
  destruct (_ <? _); [|apply state_independent_weaken; indep].
  destruct (_ =? _); [|apply state_independent_weaken; indep].
  do 4 (apply state_independent_bind; [indep|intros _]).
  apply state_independent_gets; [reflexivity|intros ml].
  destruct (_ && _); [|apply state_independent_weaken; indep].
  apply state_independent_preserves. pres.
Qed.

Lemma clirEditInsert_goes_on {R} c : goes_on (@clirEditInsert R c).
Proof. apply goes_on_call. Qed.

Lemma insert_rest_independent {R} rest : independent (@insert_rest R rest).
Proof.
  induction rest as [|ch rest IH]; simpl; [indep|].
  apply independent_seq;
    [apply clirEditInsert_state_independent|apply clirEditInsert_goes_on|exact IH].
Qed.

Lemma print_valid_independent {R} l : independent (@print_valid R l).
Proof. induction l; simpl; indep. Qed.
#[local] Hint Resolve insert_rest_independent print_valid_independent : indep.

Lemma independent_insert_then {R B} c (k : M R B) :
  independent k -> independent (clirEditInsert c ≫= fun _ => k).
Proof.
  apply independent_seq;
    [apply clirEditInsert_state_independent|apply clirEditInsert_goes_on].
Qed.

Lemma completeWord_independent {R} : independent (@completeWord R).
Proof.
  unfold completeWord. apply independent_call.
  do 3 (apply independent_gets; [reflexivity|intros ?]).
  apply independent_bind; [indep|intros _].
  destruct (_ =? _); [indep|].
  destruct (_ =? _); [|indep].
  apply independent_bind; [indep|intros _].
  apply independent_insert_then. indep.
Qed.

Lemma drop_newest_independent {R} : independent (@drop_newest R).
Proof. unfold drop_newest. indep. Qed.

Lemma clirClearScreen_independent {R} : independent (@clirClearScreen R).
Proof.
  unfold clirClearScreen. apply independent_seq; [| |indep].
  - apply state_independent_preserves. pres.
  - intros s. unfold write. destruct (write_fails (world s)) as [|[] ?]; by eexists.
Qed.

#[local] Hint Resolve clirEditBackspace_independent clirEditDelete_independent
  clirEditMoveLeft_independent clirEditMoveRight_independent
  clirEditDeletePrevWord_independent clirEditHistoryNext_independent
  swap_chars_independent word_right_independent word_left_independent
  completeWord_independent drop_newest_independent clirClearScreen_independent : indep.

Lemma escape_sequence_independent : independent escape_sequence.
Proof. unfold escape_sequence. indep. Qed.
#[local] Hint Resolve escape_sequence_independent : indep.

(** *** A turn of the loop *)

Lemma agree_independent {A} (m : M Z A) : independent m -> agree_or_fail m.
Proof.
  intros Hm s t H. destruct (Hm s t H) as [Hs Hv].
  split; [by apply same_edit_logical|by left].
Qed.

Lemma agree_bind {A B} (m : M Z A) (k : A -> M Z B) :
  independent m -> (forall a, agree_or_fail (k a)) -> agree_or_fail (m ≫= k).
Proof.
  intros Hm Hk s t H. destruct (Hm s t H) as [Hs Hv].
  unfold mbind, M_bind. destruct (m s) as [[a|r] s'], (m t) as [[b|r'] t'];
    simpl in *; try discriminate; injection Hv as ->; [by apply Hk|].
  split; [by apply same_edit_logical|by left].
Qed.

Lemma agree_gets {A B} (g : Sys -> A) (k : A -> M Z B) :
  (forall s o mx f tr, k (g (rerender o mx f tr s)) = k (g s)) ->
  (forall a, agree_or_fail (k a)) -> agree_or_fail (gets g ≫= k).
Proof.
  intros Hg Hk s t H. unfold mbind, M_bind, gets.
  rewrite (same_edit_rerender s t H), Hg. apply Hk.
  by rewrite <- (same_edit_rerender s t H).
Qed.

(** What [clirEditInsert] returns. *)
Lemma poke_frame i c s :
  mlmode (poke i c s) = mlmode s /\
  write_fails (world (poke i c s)) = write_fails (world s) /\
  trace (world (poke i c s)) = trace (world s).
Proof. unfold poke. by destruct (_ && _). Qed.

Ltac refresh_go :=
  match goal with
  | |- context [@refreshLine ?R ?x] =>
      let H := fresh in
      pose proof (@refreshLine_go R x) as H;
      destruct (@refreshLine R x) as [[[]|?] ?]; simpl in H; try discriminate; clear H
  end.

Lemma clirEditInsert_value {R} c s :
  fst (@clirEditInsert R c s) =
  Go (if fast_path s && next_write_fails s then -1 else 0).
Proof.
  unfold clirEditInsert, fast_path, next_write_fails, call, mbind, M_bind, gets,
    store, memmove, modify.
  destruct (len (st s) <? buflen (st s)); [|done].
  destruct (len (st s) =? pos (st s)); [|by refresh_go].
  cbn [andb].
  set (s1 := poke (pos (st s)) c s).
  set (s2 := with_st (set_len (len (st s) + 1)) (with_st (set_pos (pos (st s) + 1)) s1)).
  set (s3 := poke (len (st s) + 1) NUL s2).
  assert (Hm : mlmode s3 = mlmode s).
  { unfold s3. rewrite (proj1 (poke_frame _ _ _)). unfold s2. cbn [with_st mlmode].
    unfold s1. by rewrite (proj1 (poke_frame _ _ _)). }
  assert (Hw : write_fails (world s3) = write_fails (world s)).
  { unfold s3. rewrite (proj1 (proj2 (poke_frame _ _ _))). unfold s2. cbn [with_st world].
    unfold s1. by rewrite (proj1 (proj2 (poke_frame _ _ _))). }
  rewrite Hm. clearbody s3. clear s1 s2.
  destruct (mlmode s =? 0); cbn [andb]; [|cbv beta; by refresh_go].
  destruct (u64 _ <? _); cbv beta; [|by refresh_go].
  unfold write. rewrite Hw.
  by destruct (write_fails (world s)) as [|[] ?].
Qed.

Lemma self_insert_agree c : agree_or_fail (self_insert c).
Proof.
  intros s t H. unfold self_insert, mbind, M_bind.
  pose proof (clirEditInsert_state_independent (R:=Z) c s t H) as Hs.
  pose proof (clirEditInsert_value (R:=Z) c s) as Vs.
  pose proof (clirEditInsert_value (R:=Z) c t) as Vt.
  destruct (clirEditInsert c s) as [vs s'], (clirEditInsert c t) as [vt t'].
  simpl in *. subst vs vt.
  assert (Hk : independent (if Ascii.eqb c SPACE
                then gets st ≫= (fun cs => modify (with_st (set_word_pos (pos cs))))
                else mret tt : M Z unit)) by indep.
  destruct (Hk s' t' Hs) as [Hk1 Hk2].
  pose proof (same_edit_logical _ _ Hs) as Hl.
  pose proof (same_edit_logical _ _ Hk1) as Hl'.
  assert (Hw : forall u, logical (snd ((if Ascii.eqb c SPACE
                then gets st ≫= (fun cs => modify (with_st (set_word_pos (pos cs))))
                else mret tt : M Z unit) u)) = logical u).
  { intros u. by destruct (Ascii.eqb c SPACE). }
  destruct (fast_path s && next_write_fails s), (fast_path t && next_write_fails t); simpl.
  - split; [done|]. by right; left.
  - split; [by rewrite Hw|]. by right; left.
  - split; [by rewrite Hw|]. by right; right.
  - split; [done|]. by left.
Qed.

Lemma dispatch_agree c : agree_or_fail (dispatch c).
Proof.
  unfold dispatch.
  repeat match goal with
  | |- agree_or_fail (match ?x with _ => _ end) => destruct x
  end;
  first [apply self_insert_agree | apply agree_independent; solve [indep]].
Qed.

Lemma clirEdit_turn_agree : agree_or_fail clirEdit_turn.
Proof.
  unfold clirEdit_turn.
  apply agree_bind; [indep|intros [nread got]].
  destruct (_ <=? _); [apply agree_independent; indep|].
  do 2 (apply agree_gets; [reflexivity|intros ?]).
  destruct (_ && _); [apply agree_independent; indep|apply dispatch_agree].
Qed.

(** *** Computations that go on, and the values functions end in *)

Lemma goes_on_ret {R A} (a : A) : goes_on (mret a : M R A).
Proof. intros s. by eexists. Qed.

Lemma goes_on_gets {R A} (f : Sys -> A) : goes_on (gets f : M R A).
Proof. intros s. by eexists. Qed.

Lemma goes_on_modify {R} (f : Sys -> Sys) : goes_on (modify f : M R unit).
Proof. intros s. by eexists. Qed.

Lemma goes_on_write {R} d : goes_on (@write R d).
Proof. intros s. unfold write. destruct (write_fails (world s)) as [|[] ?]; by eexists. Qed.

Lemma goes_on_read {R} n : goes_on (@read R n).
Proof.
  intros s. unfold read. destruct (input (world s)) as [|[c|] rest] eqn:E; try by eexists.
  destruct (take_keys n (Key c :: rest)). by eexists.
Qed.

Lemma goes_on_refreshLine {R} : goes_on (@refreshLine R).
Proof. intros s. exists tt. apply refreshLine_go. Qed.

Lemma goes_on_bind {R A B} (m : M R A) (k : A -> M R B) :
  goes_on m -> (forall a, goes_on (k a)) -> goes_on (m ≫= k).
Proof.
  intros Hm Hk s. unfold mbind, M_bind. destruct (Hm s) as [a Ha].
  destruct (m s) as [[a'|r] s1]; simpl in Ha; [|done]. apply Hk.
Qed.

Create HintDb go discriminated.
#[local] Hint Resolve goes_on_write goes_on_read goes_on_refreshLine : go.

Ltac go_step :=
  lazymatch goal with
  | |- goes_on (mret _) => apply goes_on_ret
  | |- goes_on (gets _) => apply goes_on_gets
  | |- goes_on (modify _) => apply goes_on_modify
  | |- goes_on (call _) => apply goes_on_call
  | |- goes_on (mbind _ _) => apply goes_on_bind; [|intros ?]
  | |- goes_on (let _ := _ in _) => cbv zeta
  | |- goes_on (if ?b then _ else _) => destruct b
  | |- goes_on (match ?x with _ => _ end) => destruct x
  | |- _ => solve [auto with go]
  end.
Ltac go := repeat go_step.

Lemma goes_on_value {R A} (m : M R A) s r : goes_on m -> fst (m s) <> Ret r.
Proof. intros H. destruct (H s) as [a ->]. done. Qed.

Lemma insert_rest_goes_on {R} rest : goes_on (@insert_rest R rest).
Proof.
  induction rest as [|ch rest IH]; simpl; [apply goes_on_ret|].
  apply goes_on_bind; [apply clirEditInsert_goes_on|by intros ?].
Qed.

Lemma print_valid_goes_on {R} l : goes_on (@print_valid R l).
Proof.
  induction l as [|c l IH]; simpl; [apply goes_on_ret|].
  apply goes_on_bind; [apply goes_on_modify|by intros ?].
Qed.
#[local] Hint Resolve insert_rest_goes_on print_valid_goes_on clirEditInsert_goes_on : go.

Lemma ends_in_ret {A} (P : A -> Prop) a : P a -> ends_in P (mret a).
Proof. by intros H s. Qed.

Lemma ends_in_leave {A} (P : A -> Prop) r : P r -> ends_in P (leave r).
Proof. by intros H s. Qed.

Lemma ends_in_bind {A B} (P : A -> Prop) (m : M A B) (k : B -> M A A) :
  goes_on m -> (forall b, ends_in P (k b)) -> ends_in P (m ≫= k).
Proof.
  intros Hm Hk s. unfold mbind, M_bind. destruct (Hm s) as [b Hb].
  destruct (m s) as [[b'|r] s1]; simpl in Hb; [|done]. apply Hk.
Qed.

Lemma ends_in_call {R A} (P : A -> Prop) (body : M A A) s :
  ends_in P body -> exists a, fst (call body s : flow R A * Sys) = Go a /\ P a.
Proof.
  intros H. specialize (H s). unfold call.
  destruct (body s) as [[a|a] s1]; simpl in *; by eexists.
Qed.

Ltac ends_step :=
  lazymatch goal with
  | |- ends_in _ (mret _) => apply ends_in_ret
  | |- ends_in _ (leave _) => apply ends_in_leave
  | |- ends_in _ (mbind _ _) => apply ends_in_bind; [go|intros ?]
  | |- ends_in _ (let _ := _ in _) => cbv zeta
  | |- ends_in _ (if ?b then _ else _) => destruct b
  | |- ends_in _ (match ?x with _ => _ end) => destruct x
  end.

(** [completeWord] returns 0 or 1. *)
Lemma completeWord_value {R} s :
  exists r, fst (@completeWord R s) = Go r /\ (r = 0 \/ r = 1).
Proof.
  unfold completeWord. apply ends_in_call.
  unfold clirBeep, printf. repeat ends_step; auto.
Qed.


Lemma read_key {R} c rest s :
  input (world s) = Key c :: rest ->
  @read R 1 s = (Go (1, [c]), with_world (set_input rest) s).
Proof.
  intros H. unfold read. rewrite H. reflexivity.
Qed.

(** *** A redraw stops at the write that fails *)

Lemma unfailed_stops l : unfailed l = true -> stops_at_failure l = true.
Proof.
  induction l as [|e l IH]; simpl; [done|].
  intros H. apply andb_prop in H as [He Hl]. apply negb_true_iff in He. rewrite He.
  by apply IH.
Qed.

Lemma unfailed_app l1 l2 :
  unfailed l1 = true -> unfailed l2 = true -> unfailed (l1 ++ l2) = true.
Proof. unfold unfailed. rewrite forallb_app. by intros -> ->. Qed.

Lemma stops_app l1 l2 :
  unfailed l1 = true -> stops_at_failure l2 = true -> stops_at_failure (l1 ++ l2) = true.
Proof.
  induction l1 as [|e l1 IH]; simpl; [done|].
  intros H H2. apply andb_prop in H as [He Hl]. apply negb_true_iff in He. rewrite He.
  by apply IH.
Qed.

Lemma halts_ret {R A} (a : A) : halts (mret a : M R A).
Proof. intros s. exists []. by rewrite app_nil_r. Qed.

Lemma halts_gets {R A} (f : Sys -> A) : halts (gets f : M R A).
Proof. intros s. exists []. by rewrite app_nil_r. Qed.

Lemma halts_leave {R A} (r : R) : halts (leave r : M R A).
Proof. intros s. exists []. by rewrite app_nil_r. Qed.

Lemma halts_modify_st {R} (f : clirState -> clirState) : halts (modify (with_st f) : M R unit).
Proof. intros s. exists []. by rewrite app_nil_r. Qed.

Lemma halts_bind {R A B} (m : M R A) (k : A -> M R B) :
  halts m -> (forall a, halts (k a)) -> halts (m ≫= k).
Proof.
  intros Hm Hk s. unfold mbind, M_bind. destruct (Hm s) as (l1 & E1 & H1).
  destruct (m s) as [[a|r] s1]; cbn [fst snd] in *; [|by exists l1].
  destruct (Hk a s1) as (l2 & E2 & H2). exists (l1 ++ l2).
  split; [by rewrite E2, E1, app_assoc|].
  destruct (fst (k a s1)); [by apply unfailed_app|by apply stops_app].
Qed.

Lemma halts_write_or_return d : halts (write_or_return d).
Proof.
  intros s. unfold write_or_return, mbind, M_bind, write.
  destruct (write_fails (world s)) as [|[] ?]; cbv beta iota;
    try change (-1 =? -1) with true; try destruct (strlen d =? -1);
    unfold events; cbn; eexists; (split; [reflexivity|reflexivity]).
Qed.

Lemma halts_call {R A} (body : M A A) s :
  halts body ->
  exists l, events (snd (call body s : flow R A * Sys)) = events s ++ l /\
            stops_at_failure l = true.
Proof.
  intros H. destruct (H s) as (l & E & Hl). exists l. unfold call.
  destruct (body s) as [[a|a] s1]; cbn [fst snd] in *; (split; [done|]); [|done].
  by apply unfailed_stops.
Qed.

Ltac halts_step :=
  lazymatch goal with
  | |- halts (mret _) => apply halts_ret
  | |- halts (gets _) => apply halts_gets
  | |- halts (leave _) => apply halts_leave
  | |- halts (modify (with_st _)) => apply halts_modify_st
  | |- halts (write_or_return _) => apply halts_write_or_return
  | |- halts (mbind _ _) => apply halts_bind; [|intros ?]
  | |- halts (let _ := _ in _) => cbv zeta
  | |- halts (if ?b then _ else _) => destruct b
  | |- halts (match ?x with _ => _ end) => destruct x
  end.

Lemma halts_repeat_write n d : halts (repeat_write n d).
Proof. induction n; simpl; [apply halts_ret|]. by repeat halts_step. Qed.

Lemma halts_bump_maxrows rows : halts (bump_maxrows rows).
Proof. unfold bump_maxrows. repeat halts_step. Qed.

(** After a write that failed, a redraw writes nothing more. *)
Lemma refreshLine_stops {R} s :
  exists l, events (snd (@refreshLine R s)) = events s ++ l /\ stops_at_failure l = true.
Proof.
  unfold refreshLine, mbind, M_bind, gets. cbv beta iota.
  destruct (negb _); apply halts_call.
  - repeat first [ apply halts_repeat_write | apply halts_bump_maxrows | halts_step ].
  - repeat first [ apply halts_repeat_write | apply halts_bump_maxrows | halts_step ].
Qed.

(** *** Failed writes (C2) *)

Lemma self_insert_value c s :
  fst (self_insert c s) = if fast_path s && next_write_fails s then Ret (-1) else Go tt.
Proof.
  unfold self_insert, mbind, M_bind.
  pose proof (clirEditInsert_value (R:=Z) c s) as Hv.
  destruct (clirEditInsert c s) as [v s']. simpl in Hv. subst v.
  destruct (fast_path s && next_write_fails s); simpl; [done|].
  by destruct (Ascii.eqb c SPACE).
Qed.

(** A turn of the loop on a tab with a producer set goes on, whatever
    [completeWord] did and whatever became of its writes. *)
Lemma clirEdit_turn_completion c rest s :
  input (world s) = Key c :: rest -> schar c = 9 -> is_Some (completionCallback s) ->
  fst (clirEdit_turn s) = Go tt.
Proof.
  intros Hin Hc Hcb. unfold clirEdit_turn. unfold mbind at 1, M_bind at 1.
  rewrite (read_key c rest s Hin). cbv beta iota.
  change (1 <=? 0) with false. cbv iota beta.
  unfold mbind at 1 2, M_bind at 1 2, gets. cbv beta iota.
  change (byte_read _ [c] 0) with c. rewrite Hc. change (9 =? 9) with true.
  cbn [with_world completionCallback]. rewrite bool_decide_eq_true_2 by done.
  cbn [andb]. unfold mbind, M_bind.
  destruct (@completeWord_value Z (with_world (set_input rest) s)) as (r & Hr & Hv).
  destruct (completeWord _) as [f s1]. cbn [fst] in Hr. subst f.
  destruct Hv as [-> | ->]; cbn; [done|].
  apply refreshLine_go.
Qed.

(** C2, as amended.  A failed write inside a redraw is swallowed:
    [refreshLine] never makes its caller return, leaves buffer, length and
    cursor alone, and stops at the write that failed, attempting no write
    after it.  Whatever the outcomes of the writes, a turn of the edit loop
    leaves the same buffer, length and cursor.  The failure of the
    one-character echo on the fast path of [clirEditInsert] is reported by
    [clirEditInsert], which returns -1 then and only then.  Of its two
    callers, the default case of the [switch] passes that on and makes
    [clirEdit] return -1; [completeWord] drops it: it returns 0 or 1, and
    the turn of the loop on the tab goes on. *)
Theorem write_failure_leaves_edit_state :
  (forall s, fst (@refreshLine Z s) = Go tt /\
             logical (snd (@refreshLine Z s)) = logical s /\
             exists l, events (snd (@refreshLine Z s)) = events s ++ l /\
                       stops_at_failure l = true) /\
  (forall s f, logical (snd (clirEdit_turn (with_write_fails f s)))
               = logical (snd (clirEdit_turn s))) /\
  (forall c s, fst (@clirEditInsert Z c s)
               = Go (if fast_path s && next_write_fails s then -1 else 0)) /\
  (forall c s, fst (self_insert c s)
               = if fast_path s && next_write_fails s then Ret (-1) else Go tt) /\
  (forall s, fst (@completeWord Z s) = Go 0 \/ fst (@completeWord Z s) = Go 1) /\
  (forall c rest s,
     input (world s) = Key c :: rest -> schar c = 9 -> is_Some (completionCallback s) ->
     fst (clirEdit_turn s) = Go tt).
Proof.
  split; [|split; [|split; [|split; [|split]]]].
  - intros s. split; [apply refreshLine_go|]. split; [|apply refreshLine_stops].
    symmetry. apply same_edit_logical, refreshLine_same_edit.
  - intros s f. symmetry. by apply clirEdit_turn_agree.
  - intros c s. apply clirEditInsert_value.
  - apply self_insert_value.
  - intros s. destruct (@completeWord_value Z s) as (r & Hr & [-> | ->]); [by left|by right].
  - apply clirEdit_turn_completion.
Qed.

(** On "hel" and a tab with the driver's producer, the echo of the first
    character that [completeWord] inserts fails: the turn goes on. *)
Lemma write_failure_leaves_edit_state_witness :
  let s := with_write_fails [true] (after_typing "hel" TAB) in
  fast_path s = true /\ next_write_fails s = true /\
  fst (clirEdit_turn s) = Go tt.
Proof.
  split; [reflexivity|]. split; [reflexivity|].
  destruct write_failure_leaves_edit_state as (_ & _ & _ & _ & _ & H).
  apply (H "009"%char [] (with_write_fails [true] (after_typing "hel" TAB)));
    [reflexivity|reflexivity|].
  by eexists.
Defined.

(** The claim as first stated fails: with the prompt written and the echo
    of the typed character failing, [clirEditInsert] returns -1 and so
    does the session, which on a terminal without failures returns the
    length 1. *)
Lemma write_failure_reported :
  let a := replicate 16 "x"%char in
  let quiet := boot 0 None history_init (terminal "a" [] 80) in
  let noisy := boot 0 None history_init (terminal "a" [false; true] 80) in
  fst (clirEdit 0 a 16 "> " quiet) = Some 1 /\
  fst (clirEdit 0 a 16 "> " noisy) = Some (-1) /\
  logical (snd (clirEdit 0 a 16 "> " noisy)) = logical (snd (clirEdit 0 a 16 "> " quiet)).
Proof. vm_compute. repeat split. Qed.

(** *** The loop ends: every turn takes input or returns *)

#[export] Instance input_le_preorder : PreOrder input_le.
Proof. split; unfold input_le; [by intros s|intros a b c; lia]. Qed.

#[local] Hint Extern 1 (input_le _ _) => (unfold input_le; simpl; lia) : pres.

Lemma poke_input i c s : input (world (poke i c s)) = input (world s).
Proof. unfold poke. by destruct (_ && _). Qed.

Lemma store_input_le {R} i c : preserves input_le (@store R i c).
Proof. intros s. unfold input_le, store, modify. simpl. by rewrite poke_input. Qed.

Lemma memmove_input_le {R} d sr n : preserves input_le (@memmove R d sr n).
Proof.
  intros s. unfold input_le, memmove, modify, move_bytes. simpl.
  by destruct (memmove_buf _ _ _ _).
Qed.

Lemma strncpy_input_le {R} src n : preserves input_le (@strncpy R src n).
Proof.
  intros s. unfold input_le, strncpy, modify, copy_string. simpl.
  by destruct (strncpy_buf _ _ _).
Qed.

Lemma write_input_le {R} d : preserves input_le (@write R d).
Proof. intros s. unfold input_le, write. by destruct (write_fails (world s)) as [|[] ?]. Qed.

Lemma take_keys_length n i :
  (length (snd (take_keys n i)) <= length i)%nat.
Proof.
  revert i. induction n as [|n IH]; intros [|[c|] i]; simpl; try lia.
  specialize (IH i). destruct (take_keys n i). simpl in *. lia.
Qed.

Lemma read_input_le {R} n : preserves input_le (@read R n).
Proof.
  intros s. unfold input_le, read.
  destruct (input (world s)) as [|[c|] rest] eqn:E; simpl; rewrite ?E; simpl; try lia.
  pose proof (take_keys_length n (Key c :: rest)) as H.
  destruct (take_keys n (Key c :: rest)). simpl in *. lia.
Qed.
#[local] Hint Resolve store_input_le memmove_input_le strncpy_input_le write_input_le
  read_input_le : pres.

Lemma refreshLine_input_le {R} : preserves input_le (@refreshLine R).
Proof.
  intros s. pose proof (refreshLine_same_edit (R:=R) s) as H.
  unfold same_edit in H. unfold input_le.
  change (input (world s)) with (input (world (core s))). rewrite H. done.
Qed.
#[local] Hint Resolve refreshLine_input_le : pres.

Lemma clirEditInsert_input_le {R} c : preserves input_le (@clirEditInsert R c).
Proof. unfold clirEditInsert. pres. Qed.
#[local] Hint Resolve clirEditInsert_input_le : pres.

Lemma insert_rest_input_le {R} rest : preserves input_le (@insert_rest R rest).
Proof. induction rest; simpl; pres. Qed.

Lemma print_valid_input_le {R} l : preserves input_le (@print_valid R l).
Proof. induction l; simpl; unfold printf; pres. Qed.
#[local] Hint Resolve insert_rest_input_le print_valid_input_le : pres.

Lemma completeWord_input_le {R} : preserves input_le (@completeWord R).
Proof. unfold completeWord, clirBeep, printf. pres. Qed.

Lemma dispatch_input_le c : preserves input_le (dispatch c).
Proof.
  unfold dispatch, self_insert, escape_sequence, clirEditBackspace, clirEditDelete,
    swap_chars, clirEditMoveLeft, clirEditMoveRight, clirEditHistoryNext,
    clirEditDeletePrevWord, clirClearScreen, drop_newest, word_left, word_right.
  pres.
Qed.
#[local] Hint Resolve completeWord_input_le dispatch_input_le : pres.

Lemma read_one s nread got s1 :
  @read Z 1 s = (Go (nread, got), s1) ->
  nread <= 0 \/ (length (input (world s1)) < length (input (world s)))%nat.
Proof.
  unfold read. destruct (input (world s)) as [|[c|] rest] eqn:E; simpl.
  - intros [= <- <- <-]. by left.
  - intros [= <- <- <-]. right. simpl. lia.
  - intros [= <- <- <-]. by left.
Qed.

(** A turn that does not return has taken at least one input item. *)
Lemma clirEdit_turn_consumes s :
  match clirEdit_turn s with
  | (Go _, s') => (length (input (world s')) < length (input (world s)))%nat
  | (Ret _, _) => True
  end.
Proof.
  unfold clirEdit_turn. unfold mbind at 1. unfold M_bind at 1.
  destruct (read 1 s) as [[[nread got]|r] s1] eqn:Er; [|done].
  apply read_one in Er.
  destruct (Z.leb_spec nread 0) as [Hle|Hgt]; [done|].
  destruct Er as [?|Hlt]; [lia|].
  match goal with
  | |- match ?m s1 with _ => _ end =>
      assert (Hrest : preserves input_le m) by pres;
      specialize (Hrest s1); unfold input_le in Hrest;
      destruct (m s1) as [[[]|r] s']; simpl in *; [lia|done]
  end.
Qed.

Lemma clirEdit_loop_returns fuel s :
  (length (input (world s)) < fuel)%nat ->
  exists r s', clirEdit_loop fuel s = (Ret r, s').
Proof.
  revert s. induction fuel as [|fuel IH]; intros s Hlt; [lia|].
  simpl. unfold mbind, M_bind.
  pose proof (clirEdit_turn_consumes s) as Hc.
  destruct (clirEdit_turn s) as [[[]|r] s']; [|by eauto].
  apply IH. lia.
Qed.

(** [clirEdit] returns: its loop is never cut short by the bound on its
    turns. *)
Lemma clirEdit_returns fd0 a buflen0 prompt0 s :
  exists r, fst (clirEdit fd0 a buflen0 prompt0 s) = Some r.
Proof.
  unfold clirEdit.
  assert (Hf : (length (input (world s)) < S (length (input (world s))))%nat) by lia.
  revert Hf. generalize (S (length (input (world s)))) as fuel. intros fuel Hf.
  unfold clirEdit_body, mbind, M_bind, gets, modify, store. simpl.
  set (s1 := with_hist _ _).
  assert (Hin : input (world s1) = input (world s)).
  { unfold s1. simpl. by rewrite poke_input. }
  unfold write.
  destruct (write_fails (world s1)) as [|[] fs] eqn:Ew; simpl; [|by eexists|].
  all: destruct (strlen prompt0 =? -1); [by eexists|].
  all: match goal with
    | |- context [clirEdit_loop ?f ?x] =>
        destruct (clirEdit_loop_returns f x) as (r & s' & ->);
          [simpl; rewrite ?poke_input; simpl; lia|]
    end; by eexists.
Qed.

(** *** What the completion producer is handed (C3) *)

#[export] Instance no_call_preorder : PreOrder no_call.
Proof.
  split.
  - intros s. by exists [].
  - intros a b c (e1 & H1 & F1) (e2 & H2 & F2). exists (e2 ++ e1). split.
    + by rewrite H2, H1, app_assoc.
    + by apply Forall_app.
Qed.

Lemma no_call_same_trace s s' : trace (world s') = trace (world s) -> no_call s s'.
Proof. intros H. by exists []. Qed.

Lemma no_call_log e s : not_completion e -> no_call s (with_world (log e) s).
Proof. intros H. exists [e]. split; [done|]. by constructor. Qed.

Lemma poke_trace i c s : trace (world (poke i c s)) = trace (world s).
Proof. unfold poke. by destruct (_ && _). Qed.

#[local] Hint Extern 1 (no_call _ _) =>
  first [ apply no_call_same_trace; reflexivity
        | apply no_call_log; exact I ] : pres.

Lemma store_no_call {R} i c : preserves no_call (@store R i c).
Proof. intros s. apply no_call_same_trace, poke_trace. Qed.

Lemma memmove_no_call {R} d sr n : preserves no_call (@memmove R d sr n).
Proof.
  intros s. apply no_call_same_trace. unfold memmove, modify, move_bytes. simpl.
  by destruct (memmove_buf _ _ _ _).
Qed.

Lemma strncpy_no_call {R} src n : preserves no_call (@strncpy R src n).
Proof.
  intros s. apply no_call_same_trace. unfold strncpy, modify, copy_string. simpl.
  by destruct (strncpy_buf _ _ _).
Qed.

Lemma write_no_call {R} d : preserves no_call (@write R d).
Proof.
  intros s. unfold write.
  destruct (write_fails (world s)) as [|[] ?]; simpl;
    (eexists [_]; split; [reflexivity|by constructor]).
Qed.

Lemma write_or_return_no_call d : preserves no_call (write_or_return d).
Proof. unfold write_or_return. pres; apply write_no_call. Qed.
#[local] Hint Resolve store_no_call memmove_no_call strncpy_no_call write_no_call
  write_or_return_no_call : pres.

Lemma repeat_write_no_call n d : preserves no_call (repeat_write n d).
Proof. induction n; simpl; pres. Qed.
#[local] Hint Resolve repeat_write_no_call : pres.

Lemma refreshLine_no_call {R} : preserves no_call (@refreshLine R).
Proof.
  unfold refreshLine, refreshMultiLine, refreshSingleLine, bump_maxrows.
  pres.
Qed.
#[local] Hint Resolve refreshLine_no_call : pres.

Lemma clirEditInsert_no_call {R} c : preserves no_call (@clirEditInsert R c).
Proof. unfold clirEditInsert. pres. Qed.
#[local] Hint Resolve clirEditInsert_no_call : pres.

Lemma insert_rest_no_call {R} rest : preserves no_call (@insert_rest R rest).
Proof. induction rest; simpl; pres. Qed.

Lemma print_valid_no_call {R} l : preserves no_call (@print_valid R l).
Proof. induction l; simpl; unfold printf; pres. Qed.
#[local] Hint Resolve insert_rest_no_call print_valid_no_call : pres.






(** *** The placeholder entry at the end of a session (C4) *)

(** C4.  [clirEdit] adds the empty placeholder to the history when it
    starts.  The [case 13] (Enter) branch removes it again, and so does
    the ctrl-d branch; the [case 3] (ctrl-c) branch returns without doing
    so.  With one committed entry and "ab" typed, Enter leaves the history
    as it was, ctrl-c leaves the empty entry in it. *)
Theorem interrupt_keeps_placeholder :
  let h := run_ops [Add "ls"] history_init in
  let session typed :=
    clirEdit 0 (replicate 16 "x"%char) 16 "hello> "
             (boot 0 None h (terminal typed [] 80)) in
  entries h = ["ls"] /\
  fst (session ("ab" +:+ ENTER)) = Some 2 /\
  entries (hist (snd (session ("ab" +:+ ENTER)))) = ["ls"] /\
  fst (session ("ab" +:+ CTRL_C)) = Some (-1) /\
  entries (hist (snd (session ("ab" +:+ CTRL_C)))) = ["ls"; ""].
Proof. vm_compute. repeat split. Qed.

(** *** Completion on the driver's producer (C9) *)

(** C9.  With the producer of example.c: after "h" the tab key lists the
    four candidates and leaves the line "h"; after "he" it lists hello and
    hey and leaves the line "he"; after "hel" it lists nothing and the line
    becomes "hello ". *)
Theorem completion_scenario :
  let after typed := snd (small_session (typed +:+ TAB)) in
  (printed (after "h") = [CRLF; " 'hello'"; " 'hi'"; " 'hey'"; " 'howzit'"; CRLF]
   /\ line (after "h") = "h") /\
  (printed (after "he") = [CRLF; " 'hello'"; " 'hey'"; CRLF]
   /\ line (after "he") = "he") /\
  (printed (after "hel") = [] /\ line (after "hel") = "hello ").
Proof. vm_compute. repeat split. Qed.

(** *** Row arithmetic of the multi-row redraw (C6) *)

Lemma ceil_div_spec a b :
  0 < b -> (ceil_div a b - 1) * b < a <= ceil_div a b * b.
Proof.
  intros Hb. unfold ceil_div.
  pose proof (Z.div_mod (- a) b ltac:(lia)) as Hd.
  pose proof (Z.mod_pos_bound (- a) b Hb) as Hm. nia.
Qed.

Lemma ceil_div_round_up a b : 0 < b -> (a + b - 1) / b = ceil_div a b.
Proof.
  intros Hb. pose proof (ceil_div_spec a b Hb) as Hs.
  symmetry. apply (Z.div_unique _ _ _ (a + b - 1 - ceil_div a b * b)); lia.
Qed.

Lemma s32_small z : - 2 ^ 31 <= z < 2 ^ 31 -> s32 z = z.
Proof. intros H. unfold s32. rewrite Z.mod_small; lia. Qed.

Lemma u64_small z : 0 <= z < 2 ^ 64 -> u64 z = z.
Proof. intros H. unfold u64. by rewrite Z.mod_small. Qed.

(** C6, as amended.  For a column count of 1 or more and values that fit
    an [int], [refreshMultiLine] computes the number of rows of the line
    as the ceiling of (promptLen + length) / columns, and the previous
    relative row of the cursor as the floor of (promptLen + oldCursor) /
    columns, plus one: rows are counted from 1. *)
Theorem multiline_row_numbers (cs : clirState) :
  0 <= len cs -> 0 <= oldpos cs -> 1 <= cols cs ->
  strlen (prompt cs) + len cs + cols cs < 2 ^ 31 ->
  strlen (prompt cs) + oldpos cs + cols cs < 2 ^ 31 ->
  ml_rows cs = ceil_div (strlen (prompt cs) + len cs) (cols cs) /\
  ml_rpos cs = (strlen (prompt cs) + oldpos cs) / cols cs + 1.
Proof.
  intros Hl Ho Hc Hr Hp.
  assert (HP : 0 <= strlen (prompt cs)) by (unfold strlen; lia).
  unfold ml_rows, ml_rpos, ml_plen.
  rewrite (s32_small (strlen (prompt cs))) by lia.
  rewrite !u64_small by lia.
  split.
  - rewrite ceil_div_round_up by lia.
    pose proof (ceil_div_spec (strlen (prompt cs) + len cs) (cols cs) ltac:(lia)).
    apply s32_small. nia.
  - replace (strlen (prompt cs) + oldpos cs + cols cs)
      with (strlen (prompt cs) + oldpos cs + 1 * cols cs) by lia.
    rewrite Z.div_add by lia.
    pose proof (Z.div_pos (strlen (prompt cs) + oldpos cs) (cols cs) ltac:(lia) ltac:(lia)).
    pose proof (Z.div_le_upper_bound (strlen (prompt cs) + oldpos cs) (cols cs)
                  (strlen (prompt cs) + oldpos cs) ltac:(lia) ltac:(nia)).
    apply s32_small. lia.
Qed.

Lemma multiline_row_numbers_witness :
  let cs := mkState 0 (replicate 4096 NUL) 4096 "hello> " 7 100 73 100 80 0 0 0 in
  ml_rows cs = ceil_div (strlen (prompt cs) + len cs) (cols cs) /\
  ml_rpos cs = (strlen (prompt cs) + oldpos cs) / cols cs + 1.
Proof.
  apply (multiline_row_numbers
           (mkState 0 (replicate 4096 NUL) 4096 "hello> " 7 100 73 100 80 0 0 0));
    unfold strlen; simpl; lia.
Defined.

(** The claim as first stated fails for the cursor's row: with the prompt
    of example.c and the cursor last drawn at offset 73 of an 80-column
    terminal, the ceiling is 1 and the code computes row 2. *)
Lemma multiline_cursor_row_not_ceiling :
  let cs := mkState 0 (replicate 4096 NUL) 4096 "hello> " 7 100 73 100 80 0 0 0 in
  ceil_div (strlen (prompt cs) + oldpos cs) (cols cs) = 1 /\ ml_rpos cs = 2.
Proof. vm_compute. split; reflexivity. Qed.

(** *** Cursor and length stay within bounds (C8) *)

Lemma poke_ctl i c s :
  pos (st (poke i c s)) = pos (st s) /\ len (st (poke i c s)) = len (st s) /\
  buflen (st (poke i c s)) = buflen (st s).
Proof. unfold poke. by destruct (_ && _). Qed.

Lemma move_bytes_ctl d sr n s :
  pos (st (move_bytes d sr n s)) = pos (st s) /\
  len (st (move_bytes d sr n s)) = len (st s) /\
  buflen (st (move_bytes d sr n s)) = buflen (st s).
Proof. unfold move_bytes. by destruct (memmove_buf _ _ _ _). Qed.

Lemma same_edit_cursor_inv s s' : same_edit s s' -> cursor_inv s -> cursor_inv s'.
Proof.
  unfold same_edit, cursor_inv. intros H.
  change (pos (st s)) with (pos (st (core s))).
  change (len (st s)) with (len (st (core s))).
  change (buflen (st s)) with (buflen (st (core s))).
  by rewrite H.
Qed.

(** A loop that walks down and stops at zero ends between zero and its
    start. *)
Lemma while_down fuel cond x :
  (forall y, cond y = true -> 0 < y) -> 0 <= x ->
  0 <= while fuel cond (fun p => p - 1) x <= x.
Proof.
  intros Hc. revert x. induction fuel as [|fuel IH]; intros x Hx; simpl.
  - destruct (cond x); lia.
  - destruct (cond x) eqn:E; [|lia].
    specialize (Hc x E). specialize (IH (x - 1) ltac:(lia)). lia.
Qed.

Ltac ctl_simpl :=
  repeat first
    [ rewrite (proj1 (poke_ctl _ _ _))
    | rewrite (proj1 (proj2 (poke_ctl _ _ _)))
    | rewrite (proj2 (proj2 (poke_ctl _ _ _)))
    | rewrite (proj1 (move_bytes_ctl _ _ _ _))
    | rewrite (proj1 (proj2 (move_bytes_ctl _ _ _ _)))
    | rewrite (proj2 (proj2 (move_bytes_ctl _ _ _ _)))
    | progress cbn [with_st with_world st set_pos set_len set_buf pos len buflen] ].

(** After a redraw: the state the operation had reached, up to what the
    redraw may change. *)
Ltac refresh_frame :=
  cbv beta;
  match goal with
  | |- context [@refreshLine ?R ?x] =>
      let H := fresh "Hframe" in
      pose proof (@refreshLine_same_edit R x) as H;
      destruct (@refreshLine R x) as [[[]|?] ?]; simpl in H |- *;
      apply (same_edit_cursor_inv _ _ H); clear H
  end.

Lemma clirEditInsert_cursor_inv {R} c s :
  cursor_inv s -> cursor_inv (snd (@clirEditInsert R c s)).
Proof.
  intros Hi. unfold cursor_inv in Hi.
  unfold clirEditInsert, call, mbind, M_bind, gets, store, memmove, modify.
  destruct (Z.ltb_spec (len (st s)) (buflen (st s))); [|done].
  destruct (len (st s) =? pos (st s)).
  - destruct (_ && _); cbv beta.
    + unfold write.
      match goal with
      | |- context [write_fails (world ?x)] =>
          destruct (write_fails (world x)) as [|[] ?]
      end; simpl; unfold cursor_inv; ctl_simpl; lia.
    + refresh_frame; unfold cursor_inv; ctl_simpl; lia.
  - refresh_frame; unfold cursor_inv; ctl_simpl; lia.
Qed.

Lemma clirEditDelete_cursor_inv {R} s :
  cursor_inv s -> cursor_inv (snd (@clirEditDelete R s)).
Proof.
  intros Hi. unfold cursor_inv in Hi.
  unfold clirEditDelete, mbind, M_bind, gets, store, memmove, modify.
  destruct (len (st s) >? 0) eqn:E1; [|done].
  destruct (Z.ltb_spec (pos (st s)) (len (st s))); [|done]. cbn [andb].
  refresh_frame; unfold cursor_inv; ctl_simpl; lia.
Qed.

Lemma clirEditBackspace_cursor_inv {R} s :
  cursor_inv s -> cursor_inv (snd (@clirEditBackspace R s)).
Proof.
  intros Hi. unfold cursor_inv in Hi.
  unfold clirEditBackspace, mbind, M_bind, gets, store, memmove, modify.
  destruct (Z.gtb_spec (pos (st s)) 0); [|done].
  destruct (Z.gtb_spec (len (st s)) 0); [|done]. cbn [andb].
  refresh_frame; unfold cursor_inv; ctl_simpl; lia.
Qed.

Lemma clirEditDeletePrevWord_cursor_inv {R} s :
  cursor_inv s -> cursor_inv (snd (@clirEditDeletePrevWord R s)).
Proof.
  intros Hi. unfold cursor_inv in Hi.
  unfold clirEditDeletePrevWord, mbind, M_bind, gets, store, memmove, modify.
  cbv beta zeta.
  match goal with
  | |- context [with_st (set_pos ?p2)] => set (p2' := p2)
  end.
  assert (H2 : 0 <= p2' <= pos (st s)).
  { unfold p2'.
    match goal with
    | |- 0 <= while _ ?c2 _ (while ?f1 ?c1 _ ?x) <= _ =>
        pose proof (while_down f1 c1 x) as H1;
        pose proof (while_down (Z.to_nat (while f1 c1 (fun p => p - 1) x)) c2
                               (while f1 c1 (fun p => p - 1) x)) as H2
    end.
    lapply H1; [clear H1; intros H1|intros y Hy; apply andb_prop in Hy; lia].
    specialize (H1 ltac:(lia)).
    lapply H2; [clear H2; intros H2|intros y Hy; apply andb_prop in Hy; lia].
    specialize (H2 ltac:(lia)). lia. }
  clearbody p2'.
  refresh_frame; unfold cursor_inv; ctl_simpl;
    rewrite (u64_small (pos (st s) - p2')) by lia;
    rewrite u64_small by lia; lia.
Qed.

(** C8.  Starting from an empty buffer, after any sequence of inserts,
    forward deletes, backspaces and previous-word deletes, whatever the
    writes to the terminal do, 0 <= cursor <= length <= capacity, the
    capacity being the bound [cs->buflen] that [clirEditInsert] tests. *)
Theorem edit_sequence_keeps_bounds (os : list edit_op) (s : Sys) :
  pos (st s) = 0 -> len (st s) = 0 -> 0 <= buflen (st s) < 2 ^ 64 ->
  0 <= pos (st (run_edits os s)) <= len (st (run_edits os s)) /\
  len (st (run_edits os s)) <= buflen (st (run_edits os s)).
Proof.
  intros Hp Hl Hb.
  assert (Hi : cursor_inv s) by (unfold cursor_inv; lia).
  clear Hp Hl Hb.
  enough (cursor_inv (run_edits os s)) as [H1 H2] by (split; [exact H1|lia]).
  revert s Hi. induction os as [|o os IH]; intros s Hi; [done|].
  simpl. apply IH. destruct o; simpl.
  - by apply clirEditInsert_cursor_inv.
  - by apply clirEditDelete_cursor_inv.
  - by apply clirEditBackspace_cursor_inv.
  - by apply clirEditDeletePrevWord_cursor_inv.
Qed.

Lemma edit_sequence_keeps_bounds_witness :
  let s := after_typing "" "" in
  let os := [Insert "l"%char; Insert "s"%char; Insert " "%char; Insert "-"%char;
             DeleteBackward; DeletePrevWord; Insert "x"%char; DeleteForward] in
  0 <= pos (st (run_edits os s)) <= len (st (run_edits os s)) /\
  len (st (run_edits os s)) <= buflen (st (run_edits os s)).
Proof.
  apply (edit_sequence_keeps_bounds _ (after_typing "" "")).
  - reflexivity.
  - reflexivity.
  - vm_compute. split; [discriminate|reflexivity].
Defined.

(** *** The terminator and the size of the array (C10) *)

#[export] Instance quiet_preorder : PreOrder quiet.
Proof. split; unfold quiet; [by intros s|intros a b c; tauto]. Qed.

#[local] Hint Extern 1 (quiet _ _) => (unfold quiet; simpl; tauto) : pres.

Lemma store_quiet {R} i c : preserves quiet (@store R i c).
Proof. intros s. unfold quiet, store, modify. simpl. by rewrite (proj1 (proj2 (poke_frame _ _ _))). Qed.

Lemma memmove_quiet {R} d sr n : preserves quiet (@memmove R d sr n).
Proof.
  intros s. unfold quiet, memmove, modify, move_bytes. simpl.
  by destruct (memmove_buf _ _ _ _).
Qed.

Lemma write_quiet {R} d : preserves quiet (@write R d).
Proof. intros s. unfold quiet, write. intros ->. done. Qed.

Lemma write_or_return_quiet d : preserves quiet (write_or_return d).
Proof. unfold write_or_return. pres; apply write_quiet. Qed.
#[local] Hint Resolve store_quiet memmove_quiet write_quiet write_or_return_quiet : pres.

Lemma repeat_write_quiet n d : preserves quiet (repeat_write n d).
Proof. induction n; simpl; pres. Qed.
#[local] Hint Resolve repeat_write_quiet : pres.

Lemma refreshLine_quiet {R} : preserves quiet (@refreshLine R).
Proof. unfold refreshLine, refreshMultiLine, refreshSingleLine, bump_maxrows. pres. Qed.
#[local] Hint Resolve refreshLine_quiet : pres.

Lemma clirEditInsert_quiet {R} c : preserves quiet (@clirEditInsert R c).
Proof. unfold clirEditInsert. pres. Qed.

Lemma same_edit_typing n k i s s' : same_edit s s' -> typing n k i s -> typing n k i s'.
Proof.
  unfold same_edit. intros H [H1 H2 H3 H4 H5 H6].
  split.
  - change (len (st s')) with (len (st (core s'))). by rewrite <- H.
  - change (pos (st s')) with (pos (st (core s'))). by rewrite <- H.
  - change (buflen (st s')) with (buflen (st (core s'))). by rewrite <- H.
  - change (buf (st s')) with (buf (st (core s'))). by rewrite <- H.
  - change (input (world s')) with (input (world (core s'))). by rewrite <- H.
  - change (fault (world s')) with (fault (world (core s'))). by rewrite <- H.
Qed.

Lemma poke_size i c s : length (buf (st (poke i c s))) = length (buf (st s)).
Proof. unfold poke. destruct (_ && _); simpl; [by rewrite length_insert|done]. Qed.

Lemma poke_fault i c s :
  fault (world (poke i c s)) =
  fault (world s) || negb ((0 <=? i) && (i <? Z.of_nat (length (buf (st s))))).
Proof. unfold poke. destruct (_ && _); simpl; [by rewrite orb_false_r|by rewrite orb_true_r]. Qed.

(** One more character at the end of the line. *)
Lemma clirEditInsert_typing {R} c n k i s :
  typing n k i s -> (k < n)%nat -> typing n (S k) i (snd (@clirEditInsert R c s)).
Proof.
  intros [H1 H2 H3 H4 H5 H6] Hk.
  set (X := poke (len (st s) + 1) NUL
              (with_st (set_len (len (st s) + 1))
                 (with_st (set_pos (pos (st s) + 1)) (poke (pos (st s)) c s)))).
  assert (HX : typing n (S k) i X).
  { unfold X. split.
    - ctl_simpl. lia.
    - ctl_simpl. lia.
    - ctl_simpl. lia.
    - rewrite poke_size. cbn [with_st st set_len set_pos buf]. by rewrite poke_size.
    - rewrite poke_input. cbn [with_st world]. by rewrite poke_input.
    - intros Hn. rewrite poke_fault. cbn [with_st st set_len set_pos buf world].
      rewrite poke_size.
      destruct (Z.ltb_spec (len (st s) + 1) (Z.of_nat (length (buf (st s))))); [lia|].
      by rewrite andb_false_r, orb_true_r. }
  eapply same_edit_typing; [|exact HX].
  unfold clirEditInsert, call, mbind, M_bind, gets, store, memmove, modify. fold X.
  destruct (Z.ltb_spec (len (st s)) (buflen (st s))); [|lia].
  destruct (Z.eqb_spec (len (st s)) (pos (st s))); [|lia].
  fold X.
  destruct (_ && _); cbv beta.
  - unfold write. by destruct (write_fails (world X)) as [|[] ?].
  - match goal with
    | |- context [@refreshLine ?T ?x] =>
        pose proof (@refreshLine_same_edit T x) as Hf;
        destruct (@refreshLine T x) as [[[]|?] ?]; simpl in *; exact Hf
    end.
Qed.

(** A turn of the loop on a key that the [switch] sends to its default
    case, with no write failing. *)
Lemma clirEdit_turn_typing c n k i s :
  dispatch c = self_insert c -> (schar c =? 9) = false ->
  typing n k (Key c :: i) s -> (k < n)%nat -> write_fails (world s) = [] ->
  exists s', clirEdit_turn s = (Go tt, s') /\ typing n (S k) i s'
             /\ write_fails (world s') = [].
Proof.
  intros Hd Htab Ht Hk Hq. pose proof (typing_input _ _ _ _ Ht) as Hin.
  unfold clirEdit_turn. unfold mbind at 1. unfold M_bind at 1. unfold read.
  rewrite Hin. simpl take_keys. cbv beta iota.
  change (Z.of_nat (length [c]) <=? 0) with false. cbv iota.
  set (s1 := with_world (set_input i) s).
  assert (Ht1 : typing n k i s1) by (destruct Ht; by split).
  assert (Hq1 : write_fails (world s1) = []) by done.
  unfold mbind at 1 2. unfold M_bind at 1 2. unfold gets at 1 2. cbv beta iota zeta.
  change (byte_read (indeterminate s1) [c] 0) with c.
  rewrite Htab. cbn [andb]. rewrite Hd.
  pose proof (self_insert_value c s1) as Hv.
  unfold next_write_fails in Hv. rewrite Hq1, andb_false_r in Hv.
  pose proof (clirEditInsert_typing (R:=Z) c n k i s1 Ht1 Hk) as Hi.
  pose proof (clirEditInsert_quiet (R:=Z) c s1 Hq1) as Hw.
  unfold self_insert, mbind, M_bind in Hv |- *.
  pose proof (clirEditInsert_goes_on (R:=Z) c s1) as [v Hgo].
  destruct (clirEditInsert c s1) as [f s2]. simpl in Hgo, Hi, Hw. subst f.
  destruct (negb (v =? 0)); [done|].
  destruct (Ascii.eqb c SPACE).
  - unfold gets, modify. eexists. split; [reflexivity|]. split; [|done].
    destruct Hi. by split.
  - by exists s2.
Qed.

(** The loop on [m] more such keys and then the end of the input. *)
Lemma clirEdit_loop_typing c n m : forall k fuel s,
  dispatch c = self_insert c -> (schar c =? 9) = false ->
  typing n k (replicate m (Key c)) s -> (k + m = n)%nat -> (m < fuel)%nat ->
  write_fails (world s) = [] ->
  exists s', clirEdit_loop fuel s = (Ret (s32 (Z.of_nat n)), s') /\
             len (st s') = Z.of_nat n /\ length (buf (st s')) = n /\
             fault (world s') = true.
Proof.
  induction m as [|m IH]; intros k fuel s Hd Htab Ht Hn Hf Hq.
  - destruct fuel as [|fuel]; [lia|]. destruct Ht as [H1 H2 H3 H4 H5 H6].
    assert (k = n) by lia. subst k.
    exists s. simpl. unfold clirEdit_turn, mbind, M_bind, read, gets, leave.
    rewrite H5. simpl. rewrite H1.
    split; [done|]. split; [done|]. split; [done|]. by apply H6.
  - destruct fuel as [|fuel]; [lia|].
    destruct (clirEdit_turn_typing c n k (replicate m (Key c)) s Hd Htab Ht ltac:(lia) Hq)
      as (s1 & Hturn & Ht1 & Hq1).
    simpl. unfold mbind, M_bind. rewrite Hturn.
    apply (IH (S k)); try done; lia.
Qed.

(** A session on an array of [n] bytes in which [n] characters are typed
    and the input ends: all [n] are taken, the length reaches the size of
    the array, and the terminator of the last one is stored past its
    end. *)
Lemma clirEdit_takes_whole_array c n fd0 a prompt0 s :
  dispatch c = self_insert c -> (schar c =? 9) = false ->
  (1 <= n)%nat -> length a = n ->
  input (world s) = replicate n (Key c) -> write_fails (world s) = [] ->
  exists s', clirEdit fd0 a (Z.of_nat n) prompt0 s = (Some (s32 (Z.of_nat n)), s') /\
             len (st s') = Z.of_nat n /\ length (buf (st s')) = n /\
             fault (world s') = true.
Proof.
  intros Hd Htab Hn Ha Hin Hq.
  unfold clirEdit, clirEdit_body.
  unfold mbind, M_bind, gets, store, modify. cbv beta iota zeta.
  match goal with |- context [write prompt0 ?x] => set (s1 := x) end.
  assert (Ht : typing n 0 (replicate n (Key c)) s1).
  { unfold s1. split; cbn [with_hist st world]; ctl_simpl; try done.
    - rewrite poke_size. done.
    - by rewrite poke_input.
    - lia. }
  assert (Hq1 : write_fails (world s1) = []).
  { unfold s1. cbn [with_hist world]. by rewrite (proj1 (proj2 (poke_frame _ _ _))). }
  unfold write. rewrite Hq1. cbv beta iota.
  assert (Hp : (strlen prompt0 =? -1) = false) by (apply Z.eqb_neq; unfold strlen; lia).
  rewrite Hp.
  match goal with
  | |- context [clirEdit_loop ?f ?x] =>
      destruct (clirEdit_loop_typing c n n 0%nat f x Hd Htab) as (s' & -> & H);
        [destruct Ht; by split|lia|rewrite Hin, length_replicate; lia|done|]
  end.
  by exists s'.
Qed.

(** C10.  [clirEdit] sets [cs.buflen] from its parameter before it
    decrements the parameter, "to make sure there is always space for the
    nulterm", so the editing functions work with the full size.  On the
    4096-byte array of [clir], 4096 typed characters are all accepted: the
    length reaches 4096 and the terminator goes to [buf[4096]], outside
    the array.  And a typed NUL byte is inserted like any character: after
    a, NUL, b the length is 3 and the line read back is "a". *)
Theorem session_leaves_no_room_for_terminator :
  (let w := mkWorld (replicate 4096 (Key "a"%char)) [] [] (Some 80) NUL false in
   exists s', clirEdit 0 (replicate 4096 "x"%char) LINENOISE_MAX_LINE "hello> "
                       (boot 0 (Some completion) history_init w) = (Some 4096, s') /\
              len (st s') = 4096 /\ length (buf (st s')) = 4096%nat /\
              fault (world s') = true) /\
  (let s' := snd (small_session (String "a" (String NUL (String "b" "")))) in
   len (st s') = 3 /\ line s' = "a").
Proof.
  split.
  - cbv zeta.
    destruct (clirEdit_takes_whole_array "a"%char 4096 0 (replicate 4096 "x"%char) "hello> "
                (boot 0 (Some completion) history_init
                   (mkWorld (replicate 4096 (Key "a"%char)) [] [] (Some 80) NUL false)))
      as (s' & H & H');
      [reflexivity|reflexivity|lia|apply length_replicate|reflexivity|reflexivity|].
    exists s'. split; [exact H|exact H'].
  - vm_compute. split; reflexivity.
Qed.

(** *** The bounds on the loops are never reached *)

(** A loop whose body lowers a measure that is positive whenever the
    condition holds has left its condition once the bound on its turns is
    at least the measure. *)
Lemma while_exits (mu : Z -> Z) fuel cond body x :
  (forall y, cond y = true -> 0 < mu y /\ mu (body y) <= mu y - 1) ->
  (Z.to_nat (mu x) <= fuel)%nat ->
  cond (while fuel cond body x) = false.
Proof.
  intros Hmu. revert x. induction fuel as [|fuel IH]; intros x Hf; simpl.
  - destruct (cond x) eqn:E; [|done]. destruct (Hmu x E). lia.
  - destruct (cond x) eqn:E; [|done]. destruct (Hmu x E). apply IH. lia.
Qed.

(** The backward scans of [clirEditDeletePrevWord] and of the word jump
    to the left. *)
Lemma while_down_exits cond x :
  (forall y, cond y = true -> 0 < y) ->
  cond (while (Z.to_nat x) cond (fun p => p - 1) x) = false.
Proof.
  intros Hc. apply (while_exits (fun p => p)); [|lia].
  intros y Hy. specialize (Hc y Hy). lia.
Qed.

(** The forward scans of the word jump to the right. *)
Lemma while_up_exits cond bound x :
  (forall y, cond y = true -> y < bound) ->
  cond (while (Z.to_nat (bound - x)) cond (fun p => p + 1) x) = false.
Proof.
  intros Hc. apply (while_exits (fun p => bound - p)); [|lia].
  intros y Hy. specialize (Hc y Hy). lia.
Qed.

Lemma u64_pred a : 0 < u64 a -> u64 (a - 1) = u64 a - 1.
Proof.
  unfold u64. intros H.
  pose proof (Z.mod_pos_bound a (2 ^ 64) ltac:(lia)) as Hb.
  symmetry. apply (Z.mod_unique _ _ (a / 2 ^ 64)); [lia|].
  pose proof (Z.div_mod a (2 ^ 64) ltac:(lia)). lia.
Qed.

Lemma u64_add_u64 a b : u64 (a + u64 b) = u64 (a + b).
Proof. unfold u64. by rewrite Zplus_mod_idemp_r. Qed.

(** The second loop of [refreshSingleLine]. *)
Lemma trim_exits plen cols l :
  0 <= cols ->
  let cond := fun l => u64 (plen + l) >? cols in
  cond (while (Z.to_nat (u64 (plen + l))) cond (fun l => u64 (l - 1)) l) = false.
Proof.
  intros Hc cond. apply (while_exits (fun l => u64 (plen + l))); [|lia].
  intros y Hy. unfold cond in Hy.
  assert (0 < u64 (plen + y)) by lia. split; [done|].
  rewrite u64_add_u64. replace (plen + (y - 1)) with (plen + y - 1) by lia.
  rewrite u64_pred by done. lia.
Qed.

(** The first loop of [refreshSingleLine], on a terminal of one column
    or more. *)
Lemma slide_exits fuel plen cols off l p :
  1 <= cols -> (Z.to_nat (u64 (plen + p)) <= fuel)%nat ->
  let '(_, _, p') := slide fuel plen cols (off, l, p) in
  (u64 (plen + p') >=? cols) = false.
Proof.
  intros Hc. revert off l p. induction fuel as [|fuel IH]; intros off l p Hf; simpl.
  - destruct (Z.geb_spec (u64 (plen + p)) cols) as [H|H]; [lia|].
    destruct (Z.geb_spec (u64 (plen + p)) cols); [lia|done].
  - destruct (Z.geb_spec (u64 (plen + p)) cols) as [H|H].
    + apply IH. rewrite u64_add_u64.
      replace (plen + (p - 1)) with (plen + p - 1) by lia.
      rewrite u64_pred by lia. lia.
    + destruct (Z.geb_spec (u64 (plen + p)) cols); [lia|done].
Qed.

Lemma getColumns_positive w : 1 <= getColumns w < 2 ^ 16.
Proof.
  unfold getColumns. destruct (winsize w) as [c|]; [|lia].
  pose proof (Z.mod_pos_bound c (2 ^ 16) ltac:(lia)).
  destruct (Z.eqb_spec (c mod 2 ^ 16) 0); lia.
Qed.
End EditFacts.

(** ** Loading the history (C5) *)

Module PersistFacts.
Import Hist Persist.

Lemma clirHistoryLoad_missing fs filename h :
  fs filename = None -> clirHistoryLoad fs filename h = (-1, h).
Proof. intros H. unfold clirHistoryLoad. by rewrite H. Qed.

Lemma clirHistoryLoad_found fs filename data h :
  fs filename = Some data -> fst (clirHistoryLoad fs filename h) = 0.
Proof. intros H. unfold clirHistoryLoad. by rewrite H. Qed.

Lemma fgets_consumes n c data :
  (length (snd (fgets (S n) (c :: data))) <= length data)%nat.
Proof.
  revert c data. induction n as [|n IH]; intros c data; simpl.
  - destruct (Ascii.eqb c LF); simpl; lia.
  - destruct (Ascii.eqb c LF); simpl; [lia|].
    destruct data as [|d data]; simpl; [lia|].
    specialize (IH d data). simpl in IH.
    destruct (Ascii.eqb d LF); simpl in *; [lia|].
    destruct (fgets n data). simpl in *. lia.
Qed.

(** The loop of [clirHistoryLoad] reads the whole file: a larger bound on
    its turns changes nothing. *)
Lemma load_lines_enough fuel data h :
  (length data <= fuel)%nat -> load_lines fuel data h = load_lines (length data) data h.
Proof.
  enough (forall f1 f2 d h, (length d <= f1)%nat -> (length d <= f2)%nat ->
            load_lines f1 d h = load_lines f2 d h) as H by (intros; by apply H).
  clear. induction f1 as [|f1 IH]; intros f2 d h H1 H2.
  - destruct d; [|simpl in H1; lia]. by destruct f2.
  - destruct d as [|c d]; [by destruct f2|].
    destruct f2 as [|f2]; [simpl in H2; lia|].
    cbn [load_lines].
    pose proof (fgets_consumes (Z.to_nat (LINENOISE_MAX_LINE - 1) - 1) c d) as Hc.
    replace (S (Z.to_nat (LINENOISE_MAX_LINE - 1) - 1))
      with (Z.to_nat (LINENOISE_MAX_LINE - 1)) in Hc by (unfold LINENOISE_MAX_LINE; lia).
    destruct (fgets (Z.to_nat (LINENOISE_MAX_LINE - 1)) (c :: d)) as [chunk rest].
    simpl in Hc, H1, H2. apply IH; lia.
Qed.

(** C5.  When [fopen] fails, [clirHistoryLoad] leaves the history alone
    but returns -1, the value it returns on error, where its own comment
    promises zero for a file that does not exist. *)
Theorem history_load_missing_file (filename : string) (h : History) :
  clirHistoryLoad (fun _ => None) filename h = (-1, h).
Proof. by apply clirHistoryLoad_missing. Qed.

(** On a file that exists the lines come in, each without its line end. *)
Example history_load_two_lines :
  let fs : FS := fun _ => Some (list_ascii_of_string
                   ("one" +:+ String LF ("two" +:+ String CR (String LF "")))) in
  fst (clirHistoryLoad fs "history.txt" history_init) = 0 /\
  entries (snd (clirHistoryLoad fs "history.txt" history_init)) = ["one"; "two"].
Proof. vm_compute. split; reflexivity. Qed.

End PersistFacts.

(** ** More on the history store *)

Module HistMore.
Import Hist Vocab HistFacts.

Lemma entries_alloc h : wf h -> entries (alloc h) = entries h.
Proof.
  intros Hw. unfold alloc. destruct (history h) eqn:E; [done|].
  pose proof (wf_null _ Hw E) as Hz. unfold entries. simpl. by rewrite Hz.
Qed.

Lemma evict_not_full h : history_len h <> history_max_len h -> evict h = h.
Proof. intros H. unfold evict. by destruct (Z.eqb_spec (history_len h) (history_max_len h)). Qed.

(** The store after the first two blocks of [clirHistoryAdd]: allocated,
    with room, holding the old entries without the oldest if it was
    full. *)
Lemma evict_alloc_entries h :
  wf h ->
  wf (evict (alloc h)) /\ history (evict (alloc h)) <> None /\
  history_len (evict (alloc h)) < history_max_len (evict (alloc h)) /\
  history_max_len (evict (alloc h)) = history_max_len h /\
  entries (evict (alloc h)) =
    if history_len h =? history_max_len h then drop 1 (entries h) else entries h.
Proof.
  intros Hw.
  pose proof (evict_wf _ (alloc_wf _ Hw) (alloc_allocated h)) as Hw2.
  pose proof (evict_room _ (alloc_wf _ Hw)) as Hroom.
  pose proof (evict_allocated _ (alloc_allocated h)) as Hal.
  split; [done|]. split; [done|]. split; [done|].
  destruct (Z.eqb_spec (history_len h) (history_max_len h)) as [Hfull|Hne].
  - destruct (evict_full h Hw Hfull) as (x & l & stale & He & Hev).
    rewrite Hev, He. simpl. split; [done|].
    pose proof (length_entries _ Hw) as Hlen. rewrite He in Hlen. simpl in Hlen.
    unfold entries. cbn [history_len slots history from_option id].
    replace (Z.to_nat (history_len h - 1)) with (length (Some <$> l))
      by (rewrite length_fmap; lia).
    by rewrite take_app_length, omap_id_Some.
  - assert (Hl : history_len (alloc h) = history_len h)
      by (unfold alloc; by destruct (history h)).
    assert (Hm : history_max_len (alloc h) = history_max_len h)
      by (unfold alloc; by destruct (history h)).
    rewrite evict_not_full by lia. split; [done|]. by apply entries_alloc.
Qed.

(** What [clirHistoryAdd] does, in terms of the entries: it drops the
    oldest entry of a full store, then either finds the line to be the
    newest entry left and returns 0, or puts it last and returns 1. *)
Lemma clirHistoryAdd_entries line h :
  wf h ->
  let kept := if history_len h =? history_max_len h then drop 1 (entries h)
              else entries h in
  wf (snd (clirHistoryAdd line h)) /\
  history_max_len (snd (clirHistoryAdd line h)) = history_max_len h /\
  ((last kept = Some line /\ fst (clirHistoryAdd line h) = 0 /\
    entries (snd (clirHistoryAdd line h)) = kept)
   \/ (last kept <> Some line /\ fst (clirHistoryAdd line h) = 1 /\
       entries (snd (clirHistoryAdd line h)) = kept ++ [line])).
Proof.
  intros Hw kept. split; [by apply clirHistoryAdd_wf|].
  pose proof (wf_max _ Hw) as Hmax.
  rewrite clirHistoryAdd_stages by lia.
  destruct (evict_alloc_entries h Hw) as (Hw2 & Hal & Hroom & Hm & He).
  fold kept in He.
  destruct (decide (last kept = Some line)) as [Hl|Hl].
  - rewrite append_duplicate by (by rewrite ?He). simpl.
    split; [done|]. left. by rewrite He.
  - destruct (append_fresh line (evict (alloc h))) as (h' & -> & He' & _ & Hm');
      [done|done|done|by rewrite He|].
    simpl. split; [lia|]. right. by rewrite He', He.
Qed.

(** Whatever it returns, after [clirHistoryAdd] the newest entry of the
    store is the line. *)
Theorem clirHistoryAdd_newest (line : string) (h : History) :
  wf h -> last (entries (snd (clirHistoryAdd line h))) = Some line.
Proof.
  intros Hw. destruct (clirHistoryAdd_entries line h Hw) as (_ & _ & [H|H]).
  - destruct H as (Hl & _ & ->). exact Hl.
  - destruct H as (_ & _ & ->). by rewrite last_snoc.
Qed.

Lemma clirHistoryAdd_newest_witness :
  let h := run_ops [SetMaxLen 2; Add "a"; Add "b"] history_init in
  last (entries (snd (clirHistoryAdd "b" h))) = Some "b".
Proof.
  apply (clirHistoryAdd_newest "b" (run_ops [SetMaxLen 2; Add "a"; Add "b"] history_init)).
  apply run_ops_wf, wf_init.
Defined.

(** Below its capacity the store takes a line that differs from its
    newest entry at the end, and nothing else changes. *)
Theorem clirHistoryAdd_appends (line : string) (h : History) :
  wf h -> history_len h < history_max_len h -> last (entries h) <> Some line ->
  fst (clirHistoryAdd line h) = 1 /\
  entries (snd (clirHistoryAdd line h)) = entries h ++ [line] /\
  history_max_len (snd (clirHistoryAdd line h)) = history_max_len h.
Proof.
  intros Hw Hroom Hl.
  destruct (clirHistoryAdd_entries line h Hw) as (_ & Hm & H).
  destruct (Z.eqb_spec (history_len h) (history_max_len h)); [lia|].
  destruct H as [(Hl' & _)|(_ & H1 & H2)]; [done|]. done.
Qed.

Lemma clirHistoryAdd_appends_witness :
  fst (clirHistoryAdd "ls" history_init) = 1 /\
  entries (snd (clirHistoryAdd "ls" history_init)) = entries history_init ++ ["ls"] /\
  history_max_len (snd (clirHistoryAdd "ls" history_init)) = history_max_len history_init.
Proof.
  apply (clirHistoryAdd_appends "ls" history_init).
  - apply wf_init.
  - reflexivity.
  - discriminate.
Defined.


Lemma clirHistorySetMaxLen_entries (n : Z) (h : History) :
  wf h -> 1 <= n ->
  fst (clirHistorySetMaxLen n h) = 1 /\
  history_max_len (snd (clirHistorySetMaxLen n h)) = n /\
  entries (snd (clirHistorySetMaxLen n h)) =
    drop (Z.to_nat (history_len h - n)) (entries h).
Proof.
  intros Hw Hn.
  pose proof (wf_len _ Hw) as Hlen.
  pose proof (wf_entries _ Hw) as Hent.
  unfold clirHistorySetMaxLen.
  destruct (Z.ltb_spec n 1) as [?|_]; [lia|]. cbv zeta.
  destruct (history h) as [a|] eqn:Ea.
  - assert (Hs : slots h = a) by (unfold slots; by rewrite Ea).
    rewrite Hs in Hent.
    set (tocopy := if n <? history_len h then n else history_len h).
    assert (Ht : tocopy = Z.min n (history_len h))
      by (unfold tocopy; destruct (Z.ltb_spec n (history_len h)); lia).
    assert (Hcopy : take (Z.to_nat tocopy) (drop (Z.to_nat (history_len h - tocopy)) a)
                    = Some <$> drop (Z.to_nat (history_len h - n)) (entries h)).
    { rewrite take_drop_commute.
      replace (Z.to_nat (history_len h - tocopy) + Z.to_nat tocopy)%nat
        with (Z.to_nat (history_len h)) by lia.
      rewrite Hent, fmap_drop. f_equal. lia. }
    assert (Hlc : length (take (Z.to_nat tocopy)
                    (drop (Z.to_nat (history_len h - tocopy)) a)) = Z.to_nat tocopy).
    { rewrite Hcopy, length_fmap, length_drop, (length_entries _ Hw). lia. }
    cbn [history history_len history_max_len fst snd].
    split; [done|].
    destruct (Z.gtb_spec (history_len h) n) as [Hgt|Hle];
      cbn [history history_len history_max_len]; (split; [done|]);
      unfold entries; cbn [slots history history_len from_option id].
    + replace (Z.to_nat n) with (Z.to_nat tocopy) at 1 by lia.
      rewrite <- Hlc at 1. rewrite take_app_length.
      by rewrite Hcopy, omap_id_Some.
    + replace (Z.to_nat (history_len h)) with (Z.to_nat tocopy) at 1 by lia.
      rewrite <- Hlc at 1. rewrite take_app_length.
      by rewrite Hcopy, omap_id_Some.
  - pose proof (wf_null _ Hw Ea) as Hz.
    cbn [history history_len history_max_len fst snd]. split; [done|].
    rewrite Hz. destruct (Z.gtb_spec 0 n); [lia|].
    cbn [history history_len history_max_len]. split; [done|].
    unfold entries. cbn [slots history history_len from_option id]. rewrite Ea, Hz.
    simpl. by rewrite drop_nil.
Qed.


(** [clirHistorySetMaxLen] refuses a length below 1 and changes nothing. *)
Lemma clirHistorySetMaxLen_refuses n h :
  n < 1 -> clirHistorySetMaxLen n h = (0, h).
Proof. intros H. unfold clirHistorySetMaxLen. by destruct (Z.ltb_spec n 1); [|lia]. Qed.

(** What [clirHistorySetMaxLen] does on a well-formed store: a length
    below 1 is refused, with result 0 and nothing changed; any other
    length becomes the capacity, with result 1, and the newest entries
    that fit are kept, in their order. *)
Theorem clirHistorySetMaxLen_keeps_newest (n : Z) (h : History) :
  wf h ->
  (n < 1 -> clirHistorySetMaxLen n h = (0, h)) /\
  (1 <= n ->
   fst (clirHistorySetMaxLen n h) = 1 /\
   history_max_len (snd (clirHistorySetMaxLen n h)) = n /\
   entries (snd (clirHistorySetMaxLen n h)) =
     drop (Z.to_nat (history_len h - n)) (entries h)).
Proof.
  intros Hw. split.
  - apply clirHistorySetMaxLen_refuses.
  - intros Hn. by apply clirHistorySetMaxLen_entries.
Qed.

Lemma clirHistorySetMaxLen_keeps_newest_witness :
  let h := run_ops [Add "a"; Add "b"; Add "c"] history_init in
  clirHistorySetMaxLen 0 h = (0, h) /\
  (fst (clirHistorySetMaxLen 2 h) = 1 /\
   history_max_len (snd (clirHistorySetMaxLen 2 h)) = 2 /\
   entries (snd (clirHistorySetMaxLen 2 h)) =
     drop (Z.to_nat (history_len h - 2)) (entries h)).
Proof.
  split.
  - apply (clirHistorySetMaxLen_keeps_newest 0 (run_ops [Add "a"; Add "b"; Add "c"] history_init)).
    + apply run_ops_wf, wf_init.
    + lia.
  - apply (clirHistorySetMaxLen_keeps_newest 2 (run_ops [Add "a"; Add "b"; Add "c"] history_init)).
    + apply run_ops_wf, wf_init.
    + lia.
Defined.

Lemma no_repeat_snoc (l : list string) (x : string) :
  no_repeat l -> last l <> Some x -> no_repeat (l ++ [x]).
Proof.
  induction l as [|a [|b l] IH]; simpl; intros Hn Hl; [done| |].
  - split; [congruence|done].
  - destruct Hn as [Hab Hn]. split; [done|]. apply IH; [done|]. exact Hl.
Qed.

Lemma no_repeat_drop (k : nat) (l : list string) : no_repeat l -> no_repeat (drop k l).
Proof.
  revert l. induction k as [|k IH]; intros l Hn; [by rewrite drop_0|].
  destruct l as [|a [|b l]]; simpl; [done|by rewrite drop_nil|].
  apply (IH (b :: l)). by destruct Hn.
Qed.

Lemma run_ops_snoc os o h : run_ops (os ++ [o]) h = run_op o (run_ops os h).
Proof. unfold run_ops. by rewrite fold_left_app. Qed.

(** Starting from the initial store, whatever [clirHistoryAdd] and
    [clirHistorySetMaxLen] calls are made, no two neighbouring entries of
    the history are equal. *)
Theorem history_never_repeats (os : list op) :
  no_repeat (entries (run_ops os history_init)).
Proof.
  induction os as [|o os IH] using rev_ind; [exact I|].
  rewrite run_ops_snoc.
  assert (Hw : wf (run_ops os history_init)) by apply run_ops_wf, wf_init.
  set (h := run_ops os history_init) in *. clearbody h.
  destruct o as [line|n]; unfold run_op.
  - destruct (clirHistoryAdd_entries line h Hw) as (_ & _ & H).
    assert (Hk : no_repeat (if history_len h =? history_max_len h
                            then drop 1 (entries h) else entries h))
      by (destruct (_ =? _); [by apply no_repeat_drop|done]).
    destruct H as [(_ & _ & ->)|(Hl & _ & ->)]; [done|].
    by apply no_repeat_snoc.
  - destruct (Z.ltb_spec n 1) as [Hn|Hn].
    + by rewrite clirHistorySetMaxLen_refuses.
    + destruct (clirHistorySetMaxLen_entries n h Hw Hn) as (_ & _ & ->).
      by apply no_repeat_drop.
Qed.

End HistMore.

(** ** Saving and loading the history *)

Module PersistMore.
Import Hist Edit Persist Vocab HistFacts PersistFacts HistMore.

Lemma fgets_text_line (n : nat) (e : string) (rest : list ascii) :
  Forall (fun c => c <> LF) (list_ascii_of_string e) ->
  (String.length e < n)%nat ->
  fgets n (text_line e ++ rest) = (text_line e, rest).
Proof.
  unfold text_line. revert n. induction e as [|c e IH]; intros n Hf Hn.
  - destruct n; [simpl in Hn; lia|]. reflexivity.
  - destruct n; [simpl in Hn; lia|]. simpl in Hf, Hn |- *.
    inversion Hf as [|? ? Hc Hf']; subst.
    destruct (Ascii.eqb_spec c LF) as [|_]; [done|].
    rewrite IH by (done || lia). reflexivity.
Qed.

Lemma cstr_text (l : list ascii) :
  Forall (fun c => c <> NUL) l -> cstr l = string_of_list_ascii l.
Proof.
  induction 1 as [|c l Hc _ IH]; [done|]. simpl.
  destruct (Ascii.eqb_spec c NUL); [done|]. by rewrite IH.
Qed.

Lemma append_nil (t : string) : EmptyString +:+ t = t.
Proof. reflexivity. Qed.

Lemma append_cons (x : ascii) (e t : string) : String x e +:+ t = String x (e +:+ t).
Proof. reflexivity. Qed.

Lemma strchr_absent (e : string) (c : ascii) (tail : string) :
  Forall (fun x => x <> c) (list_ascii_of_string e) ->
  strchr (e +:+ tail) c = (fun i => String.length e + i)%nat <$> strchr tail c.
Proof.
  induction e as [|x e IH]; intros Hf.
  - rewrite append_nil. simpl. by destruct (strchr tail c).
  - inversion Hf as [|? ? Hx Hf']; subst. rewrite append_cons. simpl.
    destruct (Ascii.eqb_spec x c); [done|]. rewrite IH by done.
    by destruct (strchr tail c).
Qed.

Lemma prefix_app (e tail : string) : prefix (String.length e) (e +:+ tail) = e.
Proof.
  induction e as [|x e IH]; [by destruct tail|].
  rewrite append_cons. simpl. by rewrite IH.
Qed.

Lemma string_of_text_line (e : string) :
  string_of_list_ascii (text_line e) = e +:+ String LF EmptyString.
Proof.
  unfold text_line. induction e as [|x e IH]; [done|].
  rewrite append_cons. simpl. by rewrite IH.
Qed.

(** What [clirHistoryLoad] makes of a line that [clirHistorySave] wrote. *)
Lemma chop_text_line (e : string) :
  Forall (fun c => c <> LF /\ c <> CR /\ c <> NUL) (list_ascii_of_string e) ->
  chop (cstr (text_line e)) = e.
Proof.
  intros Hf.
  rewrite cstr_text, string_of_text_line.
  - unfold chop.
    rewrite (strchr_absent e CR) by (eapply Forall_impl; [exact Hf|]; by intros ? (_ & ? & _)).
    rewrite (strchr_absent e LF) by (eapply Forall_impl; [exact Hf|]; by intros ? (? & _)).
    simpl. rewrite Nat.add_0_r. apply prefix_app.
  - unfold text_line. apply Forall_app. split.
    + eapply Forall_impl; [exact Hf|]; by intros ? (_ & _ & ?).
    + by repeat constructor.
Qed.

Lemma load_lines_step fuel c d h :
  load_lines (S fuel) (c :: d) h =
  let (chunk, rest) := fgets (Z.to_nat (LINENOISE_MAX_LINE - 1)) (c :: d) in
  load_lines fuel rest (snd (clirHistoryAdd (chop (cstr chunk)) h)).
Proof. reflexivity. Qed.

Lemma load_lines_text (l : list string) (h : History) :
  Forall plain_line l ->
  load_lines (length (flat_map text_line l)) (flat_map text_line l) h = add_all l h.
Proof.
  revert h. induction l as [|e l IH]; intros h Hf; [done|].
  inversion Hf as [|? ? [He1 He2] Hf']; subst.
  cbn [flat_map add_all fold_left].
  assert (Hne : exists c d, text_line e ++ flat_map text_line l = c :: d).
  { unfold text_line. destruct (list_ascii_of_string e); simpl; eauto. }
  destruct Hne as (c & d & Hcd).
  assert (Hlen : length (text_line e ++ flat_map text_line l) = S (length d))
    by (by rewrite Hcd).
  rewrite Hlen, Hcd, load_lines_step, <- Hcd.
  rewrite fgets_text_line;
    [|eapply Forall_impl; [exact He2|]; by intros ? (? & _)|done].
  rewrite chop_text_line by done.
  rewrite load_lines_enough.
  - apply IH. done.
  - assert (length (text_line e) >= 1)%nat
      by (unfold text_line; rewrite length_app; simpl; lia).
    rewrite length_app in Hlen. lia.
Qed.

Lemma saved_lines_entries (h : History) :
  wf h -> saved_lines h = flat_map text_line (entries h).
Proof.
  intros Hw. unfold saved_lines.
  pose proof (wf_entries _ Hw) as He. pose proof (length_entries _ Hw) as Hl.
  pose proof (wf_len _ Hw) as Hlen.
  assert (Hslot : forall j, (j < length (entries h))%nat ->
            slot h (Z.of_nat j) = entries h !! j).
  { intros j Hj. unfold slot. destruct (Z.ltb_spec (Z.of_nat j) 0); [lia|].
    rewrite Nat2Z.id.
    rewrite <- (lookup_take_lt _ (Z.to_nat (history_len h))) by lia.
    rewrite He, list_lookup_fmap. by destruct (entries h !! j). }
  rewrite <- Hl. clear He Hl Hlen.
  induction (entries h) as [|e l IH] using rev_ind; [done|].
  rewrite length_app. simpl. rewrite Nat.add_1_r, seq_S.
  rewrite !flat_map_app. simpl. rewrite !app_nil_r. f_equal.
  - rewrite <- IH.
    + apply flat_map_ext. done.
    + intros j Hj. rewrite Hslot by (rewrite length_app; simpl; lia).
      by rewrite lookup_app_l.
  - rewrite Hslot by (rewrite length_app; simpl; lia).
    rewrite lookup_app_r, Nat.sub_diag by lia. reflexivity.
Qed.

Lemma add_all_fresh (l : list string) (h : History) :
  wf h -> no_repeat (entries h ++ l) ->
  history_len h + Z.of_nat (length l) <= history_max_len h ->
  entries (add_all l h) = entries h ++ l /\ wf (add_all l h).
Proof.
  revert h. induction l as [|e l IH]; intros h Hw Hn Hroom.
  - simpl. by rewrite app_nil_r.
  - cbn [add_all fold_left].
    assert (Hlast : last (entries h) <> Some e).
    { clear -Hn. induction (entries h) as [|a [|b k] IHk]; simpl in *; [done| |].
      - intros [= ->]. by destruct Hn.
      - apply IHk. by destruct Hn. }
    simpl in Hroom.
    destruct (clirHistoryAdd_entries e h Hw) as (_ & Hm & He).
    destruct (Z.eqb_spec (history_len h) (history_max_len h)); [lia|].
    destruct He as [(Hl' & _)|(_ & _ & He)]; [done|].
    pose proof (clirHistoryAdd_wf e h Hw) as Hw'.
    pose proof (length_entries _ Hw') as Hl'. pose proof (length_entries _ Hw) as Hl.
    rewrite He, length_app in Hl'. simpl in Hl'.
    pose proof (wf_len _ Hw). pose proof (wf_len _ Hw').
    destruct (IH (snd (clirHistoryAdd e h))) as [IH1 IH2].
    + done.
    + rewrite He, <- app_assoc. done.
    + rewrite Hm. lia.
    + fold (add_all l (snd (clirHistoryAdd e h))).
      split; [|done]. rewrite IH1, He, <- app_assoc. done.
Qed.

(** Saving a history and loading the file into an empty store with room
    for it gives the same entries back, provided no entry holds a line
    end or a NUL, none is too long for the line buffer, and no two
    neighbours are equal. *)
Theorem history_save_load_round_trip
    (writable : string -> bool) (fs : FS) (filename : string) (h h0 : History) :
  wf h -> wf h0 -> history_len h0 = 0 -> history_len h <= history_max_len h0 ->
  Forall plain_line (entries h) -> no_repeat (entries h) ->
  writable filename = true ->
  fst (clirHistorySave writable fs filename h) = 0 /\
  fst (clirHistoryLoad (snd (clirHistorySave writable fs filename h)) filename h0) = 0 /\
  entries (snd (clirHistoryLoad (snd (clirHistorySave writable fs filename h)) filename h0))
    = entries h.
Proof.
  intros Hw Hw0 Hz Hroom Hplain Hn Hwr.
  unfold clirHistorySave. rewrite Hwr. cbn [fst snd].
  unfold clirHistoryLoad. rewrite String.eqb_refl. cbn [fst snd].
  split; [done|]. split; [done|].
  rewrite saved_lines_entries by done.
  rewrite load_lines_text by done.
  assert (He0 : entries h0 = []).
  { pose proof (length_entries _ Hw0) as Hl. rewrite Hz in Hl.
    by destruct (entries h0). }
  destruct (add_all_fresh (entries h) h0) as [-> _]; [done| | |].
  - by rewrite He0.
  - rewrite (length_entries _ Hw). pose proof (wf_len _ Hw). lia.
  - by rewrite He0.
Qed.

Lemma history_save_load_round_trip_witness :
  let h := run_ops [Add "ls"; Add ""; Add "cd /tmp"] history_init in
  let w := fun _ : string => true in
  let fs : FS := fun _ => None in
  fst (clirHistorySave w fs "history.txt" h) = 0 /\
  fst (clirHistoryLoad (snd (clirHistorySave w fs "history.txt" h)) "history.txt"
         history_init) = 0 /\
  entries (snd (clirHistoryLoad (snd (clirHistorySave w fs "history.txt" h))
                  "history.txt" history_init)) = entries h.
Proof.
  apply (history_save_load_round_trip (fun _ => true) (fun _ => None) "history.txt"
           (run_ops [Add "ls"; Add ""; Add "cd /tmp"] history_init) history_init).
  - apply run_ops_wf, wf_init.
  - apply wf_init.
  - reflexivity.
  - vm_compute. discriminate.
  - let e := eval vm_compute in
        (entries (run_ops [Add "ls"; Add ""; Add "cd /tmp"] history_init)) in
    change (Forall plain_line e).
    repeat (apply List.Forall_cons;
            [split; [unfold LINENOISE_MAX_LINE; cbn [String.length]; lia
                    |cbn [list_ascii_of_string]; repeat constructor; discriminate]|]).
    apply List.Forall_nil.
  - vm_compute. repeat split; discriminate.
  - reflexivity.
Defined.

(** [clirHistorySave] on a path that cannot be opened for writing returns
    -1 and leaves the files alone. *)
Lemma clirHistorySave_unwritable writable fs filename h :
  writable filename = false -> clirHistorySave writable fs filename h = (-1, fs).
Proof. intros H. unfold clirHistorySave. by rewrite H. Qed.

End PersistMore.

(** ** The line buffer as a text with a cursor *)

Module LineFacts.
Import Hist Edit Vocab EditFacts.

Lemma same_edit_sane s s' : same_edit s s' -> sane s -> sane s'.
Proof.
  unfold same_edit. intros H.
  change (sane s) with (sane (core s)). change (sane s') with (sane (core s')).
  by rewrite H.
Qed.

(** What a redraw leaves is, for all that depends on the buffer, the
    cursor, the history and the input, the state it started from. *)
Ltac refresh_away :=
  cbv beta;
  match goal with
  | |- context [@refreshLine ?R ?x] =>
      let H := fresh "Hframe" in
      let s' := fresh "s'" in
      pose proof (@refreshLine_same_edit R x) as H;
      destruct (@refreshLine R x) as [[[]|?] s']; cbn [fst snd] in H |- *;
      unfold same_edit in H;
      pattern s';
      match goal with
      | |- ?P s' => change (P (core s')); rewrite <- H; change (P x); cbv beta; clear H
      end; try clear s'
  end.

Lemma poke_in i c s :
  0 <= i < Z.of_nat (length (buf (st s))) ->
  poke i c s = with_st (set_buf (<[Z.to_nat i := c]> (buf (st s)))) s.
Proof.
  intros H. unfold poke.
  destruct (Z.leb_spec 0 i); [|lia]. destruct (Z.ltb_spec i (Z.of_nat (length (buf (st s))))); [|lia].
  done.
Qed.

Lemma poke_out i c s :
  ~ 0 <= i < Z.of_nat (length (buf (st s))) -> fault (world (poke i c s)) = true.
Proof.
  intros H. unfold poke.
  destruct (Z.leb_spec 0 i); destruct (Z.ltb_spec i (Z.of_nat (length (buf (st s)))));
    try lia; done.
Qed.

Lemma move_bytes_in d sr n s :
  0 <= d -> 0 <= sr -> 0 <= n < 2 ^ 64 ->
  d + n <= Z.of_nat (length (buf (st s))) -> sr + n <= Z.of_nat (length (buf (st s))) ->
  move_bytes d sr n s =
  with_st (set_buf (take (Z.to_nat d) (buf (st s))
                    ++ take (Z.to_nat n) (drop (Z.to_nat sr) (buf (st s)))
                    ++ drop (Z.to_nat (d + n)) (buf (st s)))) s.
Proof.
  intros Hd Hs Hn H1 H2. unfold move_bytes, memmove_buf.
  rewrite (u64_small n) by lia.
  destruct (Z.leb_spec 0 d); [|lia]. destruct (Z.leb_spec 0 sr); [|lia].
  destruct (Z.leb_spec (d + n) (Z.of_nat (length (buf (st s))))); [|lia].
  destruct (Z.leb_spec (sr + n) (Z.of_nat (length (buf (st s))))); [|lia].
  done.
Qed.

(** A buffer written as the new text followed by what is left of the
    array: storing the terminator behind the text. *)
Lemma terminate_front (front back : list ascii) (n : nat) (c : ascii) :
  n = length front -> back <> [] ->
  take n (<[n := c]> (front ++ back)) = front /\
  <[n := c]> (front ++ back) !! n = Some c.
Proof.
  intros -> Hb. split.
  - by rewrite take_insert_ge, take_app_length by lia.
  - apply list_lookup_insert_eq. rewrite length_app.
    destruct back; [done|]. simpl. lia.
Qed.

Lemma sane_size s : sane s -> (Z.to_nat (len (st s)) < length (buf (st s)))%nat.
Proof. intros (_ & H & _). by apply lookup_lt_Some in H. Qed.


Section Buffers.
Context {A : Type}.
Implicit Types a : list A.

Lemma lookup_app_dec a1 a2 (i : nat) :
  (a1 ++ a2) !! i = if decide (i < length a1)%nat then a1 !! i else a2 !! (i - length a1)%nat.
Proof. case_decide; [by apply lookup_app_l|apply lookup_app_r; lia]. Qed.

Lemma lookup_cons_dec (x : A) a (i : nat) :
  (x :: a) !! i = if decide (i = 0)%nat then Some x else a !! (i - 1)%nat.
Proof. destruct i; simpl; [done|]. by rewrite Nat.sub_0_r. Qed.

Lemma lookup_nil_dec (i : nat) : ([] : list A) !! i = None.
Proof. done. Qed.

End Buffers.

Ltac look :=
  repeat first
    [ rewrite lookup_take | rewrite lookup_drop | rewrite list_lookup_insert
    | rewrite lookup_app_dec | rewrite lookup_cons_dec | rewrite lookup_nil_dec
    | rewrite length_take | rewrite length_drop | rewrite length_insert
    | rewrite length_app | rewrite length_cons | rewrite length_nil ].

Ltac cases := repeat (case_decide; try (exfalso; lia)).

Ltac buf_eq :=
  apply list_eq; intros ?i; look; cases;
  first [ done | f_equal; lia
        | symmetry; apply lookup_ge_None_2; lia
        | apply lookup_ge_None_2; lia ].

(** Moving a fact about the state a redraw or a write left to the state
    it started from. *)
Ltac transport H s1 x :=
  unfold same_edit in H; pattern s1;
  match goal with
  | |- ?P s1 => change (P (core s1)); rewrite <- H; change (P x); cbv beta; clear H
  end.

Ltac st_simpl :=
  cbn [with_st with_world with_hist st world hist mlmode completionCallback
       set_pos set_len set_buf set_word_pos set_history_index
       pos len buflen buf fd prompt plen oldpos cols maxrows history_index word_pos
       fault input] in *.

(** The state [clirEditInsert] leaves when there is room, up to what the
    echo or the redraw changes. *)
Lemma clirEditInsert_shape {R} c s :
  len (st s) < buflen (st s) ->
  same_edit
    (if len (st s) =? pos (st s)
     then poke (len (st s) + 1) NUL
            (with_st (set_len (len (st s) + 1))
               (with_st (set_pos (pos (st s) + 1)) (poke (pos (st s)) c s)))
     else poke (len (st s) + 1) NUL
            (with_st (set_pos (pos (st s) + 1))
               (with_st (set_len (len (st s) + 1))
                  (poke (pos (st s)) c
                     (move_bytes (pos (st s) + 1) (pos (st s))
                                 (len (st s) - pos (st s)) s)))))
    (snd (@clirEditInsert R c s)).
Proof.
  intros Hroom.
  unfold clirEditInsert, call, mbind, M_bind, gets, store, memmove, modify.
  destruct (Z.ltb_spec (len (st s)) (buflen (st s))); [|lia].
  destruct (len (st s) =? pos (st s)).
  - destruct (_ && _); cbv beta.
    + match goal with
      | |- context [@write ?T ?d ?x] =>
          pose proof (@write_same_edit T d x) as Hw; unfold preserves in Hw;
          destruct (@write T d x) as [[r|r] s1]; cbn [fst snd] in Hw |- *
      end; [|done].
      by destruct (r =? -1).
    + match goal with
      | |- context [@refreshLine ?T ?x] =>
          pose proof (@refreshLine_same_edit T x) as Hw; unfold preserves in Hw;
          destruct (@refreshLine T x) as [[r|r] s1]; cbn [fst snd] in Hw |- *
      end; done.
  - cbv beta.
    match goal with
    | |- context [@refreshLine ?T ?x] =>
        pose proof (@refreshLine_same_edit T x) as Hw; unfold preserves in Hw;
        destruct (@refreshLine T x) as [[r|r] s1]; cbn [fst snd] in Hw |- *
    end; done.
Qed.

(** The text and the cursor after an insertion for which there is room. *)
Lemma clirEditInsert_text {R} (c : ascii) (s : Sys) :
  sane s -> len (st s) < buflen (st s) ->
  len (st s) + 1 < Z.of_nat (length (buf (st s))) ->
  let s' := snd (@clirEditInsert R c s) in
  sane s' /\
  text s' = take (Z.to_nat (pos (st s))) (text s) ++ c :: drop (Z.to_nat (pos (st s))) (text s) /\
  pos (st s') = pos (st s) + 1.
Proof.
  intros Hs Hroom Hsize s'. pose proof (sane_size _ Hs) as Hl.
  destruct Hs as ((Hpos & Hcap) & Hnul & Hf & Hobj).
  pose proof (@clirEditInsert_shape R c s Hroom) as Hx. fold s' in Hx.
  clearbody s'.
  match type of Hx with same_edit ?x _ => transport Hx s' x end.
  destruct (Z.eqb_spec (len (st s)) (pos (st s))) as [He|Hne].
  - rewrite (poke_in (pos (st s)) c s) by lia. st_simpl.
    rewrite poke_in by (st_simpl; rewrite length_insert; lia). st_simpl.
    unfold sane, cursor_inv, text. st_simpl.
    rewrite <- He.
    replace (Z.to_nat (len (st s) + 1)) with (S (Z.to_nat (len (st s)))) by lia.
    assert (Hl' : (S (Z.to_nat (len (st s))) < length (buf (st s)))%nat) by lia.
    split; [split; [lia|split; [|split; [done|look; lia]]]|split; [|lia]];
      clear -Hl' Hnul; set (l := Z.to_nat (len (st s))) in *; clearbody l.
    + look. cases. done.
    + buf_eq.
  - rewrite move_bytes_in; [|lia..].
    rewrite (poke_in (pos (st s)) c) by (st_simpl; look; lia). st_simpl.
    rewrite poke_in by (st_simpl; look; lia). st_simpl.
    unfold sane, cursor_inv, text. st_simpl.
    replace (Z.to_nat (len (st s) + 1)) with (S (Z.to_nat (len (st s)))) by lia.
    replace (Z.to_nat (pos (st s) + 1)) with (S (Z.to_nat (pos (st s)))) by lia.
    replace (Z.to_nat (pos (st s) + 1 + (len (st s) - pos (st s))))
      with (S (Z.to_nat (len (st s)))) by lia.
    replace (Z.to_nat (len (st s) - pos (st s)))
      with (Z.to_nat (len (st s)) - Z.to_nat (pos (st s)))%nat by lia.
    assert (Hl' : (S (Z.to_nat (len (st s))) < length (buf (st s)))%nat) by lia.
    assert (Hp' : (Z.to_nat (pos (st s)) < Z.to_nat (len (st s)))%nat) by lia.
    split; [split; [lia|split; [|split; [done|look; lia]]]|split; [|lia]];
      clear -Hl' Hp' Hnul; set (l := Z.to_nat (len (st s))) in *;
      set (p := Z.to_nat (pos (st s))) in *; clearbody l p.
    + look. cases. done.
    + buf_eq.
Qed.

(** A full buffer takes no character: the call returns 0 and changes
    nothing. *)
Lemma clirEditInsert_full {R} (c : ascii) (s : Sys) :
  buflen (st s) <= len (st s) -> @clirEditInsert R c s = (Go 0, s).
Proof.
  intros H. unfold clirEditInsert, call, mbind, M_bind, gets.
  by destruct (Z.ltb_spec (len (st s)) (buflen (st s))); [lia|].
Qed.

(** [clirEditInsert] on a full buffer returns 0 and changes nothing.  With
    room in the buffer and in the array it puts the character into the
    text at the cursor, moves the cursor behind it and terminates the
    longer line, whatever the echo or the redraw does. *)
Theorem clirEditInsert_inserts {R} (c : ascii) (s : Sys) :
  (buflen (st s) <= len (st s) -> @clirEditInsert R c s = (Go 0, s)) /\
  (sane s -> len (st s) < buflen (st s) ->
   len (st s) + 1 < Z.of_nat (length (buf (st s))) ->
   let s' := snd (@clirEditInsert R c s) in
   sane s' /\
   text s' = take (Z.to_nat (pos (st s))) (text s)
             ++ c :: drop (Z.to_nat (pos (st s))) (text s) /\
   pos (st s') = pos (st s) + 1).
Proof.
  split.
  - apply clirEditInsert_full.
  - intros Hs Hroom Hsize. by apply clirEditInsert_text.
Qed.


Ltac frame_refresh :=
  cbv beta;
  match goal with
  | |- context [@refreshLine ?T ?x] =>
      let Hw := fresh "Hw" in
      pose proof (@refreshLine_same_edit T x) as Hw; unfold preserves in Hw;
      destruct (@refreshLine T x) as [[?|?] ?]; cbn [fst snd] in Hw |- *
  end.

Lemma clirEditBackspace_shape {R} s :
  0 < pos (st s) -> 0 < len (st s) ->
  same_edit
    (poke (len (st s) - 1) NUL
       (with_st (set_len (len (st s) - 1))
          (with_st (set_pos (pos (st s) - 1))
             (move_bytes (pos (st s) - 1) (pos (st s)) (len (st s) - pos (st s)) s))))
    (snd (@clirEditBackspace R s)).
Proof.
  intros Hp Hl.
  unfold clirEditBackspace, mbind, M_bind, gets, store, memmove, modify.
  destruct (Z.gtb_spec (pos (st s)) 0); [|lia].
  destruct (Z.gtb_spec (len (st s)) 0); [|lia]. cbn [andb].
  frame_refresh; done.
Qed.

(** With the cursor at the start of the line, or on an empty line,
    [clirEditBackspace] does nothing at all. *)
Lemma clirEditBackspace_at_start {R} s :
  pos (st s) <= 0 \/ len (st s) <= 0 -> @clirEditBackspace R s = (Go tt, s).
Proof.
  intros H. unfold clirEditBackspace, mbind, M_bind, gets.
  destruct (Z.gtb_spec (pos (st s)) 0); destruct (Z.gtb_spec (len (st s)) 0);
    try done; lia.
Qed.

(** The text and the cursor after a backspace that has a character to
    remove. *)
Lemma clirEditBackspace_text {R} (s : Sys) :
  sane s -> 0 < pos (st s) ->
  let s' := snd (@clirEditBackspace R s) in
  sane s' /\
  text s' = take (Z.to_nat (pos (st s)) - 1) (text s) ++ drop (Z.to_nat (pos (st s))) (text s) /\
  pos (st s') = pos (st s) - 1.
Proof.
  intros Hs Hp s'. pose proof (sane_size _ Hs) as Hl.
  destruct Hs as ((Hpos & Hcap) & Hnul & Hf & Hobj).
  pose proof (@clirEditBackspace_shape R s Hp ltac:(lia)) as Hx. fold s' in Hx.
  clearbody s'.
  match type of Hx with same_edit ?x _ => transport Hx s' x end.
  rewrite move_bytes_in; [|lia..].
  rewrite poke_in by (st_simpl; look; lia). st_simpl.
  unfold sane, cursor_inv, text. st_simpl.
  replace (Z.to_nat (len (st s) - 1)) with (Z.to_nat (len (st s)) - 1)%nat by lia.
  replace (Z.to_nat (pos (st s) - 1)) with (Z.to_nat (pos (st s)) - 1)%nat by lia.
  replace (Z.to_nat (pos (st s) - 1 + (len (st s) - pos (st s))))
    with (Z.to_nat (len (st s)) - 1)%nat by lia.
  replace (Z.to_nat (len (st s) - pos (st s)))
    with (Z.to_nat (len (st s)) - Z.to_nat (pos (st s)))%nat by lia.
  assert (Hp' : (0 < Z.to_nat (pos (st s)) <= Z.to_nat (len (st s)))%nat) by lia.
  split; [split; [lia|split; [|split; [done|look; lia]]]|split; [|lia]];
    clear -Hl Hp' Hnul; set (l := Z.to_nat (len (st s))) in *;
    set (p := Z.to_nat (pos (st s))) in *; clearbody l p.
  - look. cases. done.
  - buf_eq.
Qed.

(** With the cursor at the start of the line [clirEditBackspace] changes
    nothing.  Elsewhere it removes the character before the cursor from
    the text and moves the cursor back by one; the line stays
    terminated. *)
Theorem clirEditBackspace_removes {R} (s : Sys) :
  (pos (st s) <= 0 \/ len (st s) <= 0 -> @clirEditBackspace R s = (Go tt, s)) /\
  (sane s -> 0 < pos (st s) ->
   let s' := snd (@clirEditBackspace R s) in
   sane s' /\
   text s' = take (Z.to_nat (pos (st s)) - 1) (text s)
             ++ drop (Z.to_nat (pos (st s))) (text s) /\
   pos (st s') = pos (st s) - 1).
Proof.
  split.
  - apply clirEditBackspace_at_start.
  - intros Hs Hp. by apply clirEditBackspace_text.
Qed.

Lemma clirEditDelete_shape {R} s :
  0 < len (st s) -> pos (st s) < len (st s) ->
  same_edit
    (poke (len (st s) - 1) NUL
       (with_st (set_len (len (st s) - 1))
          (move_bytes (pos (st s)) (pos (st s) + 1) (len (st s) - pos (st s) - 1) s)))
    (snd (@clirEditDelete R s)).
Proof.
  intros Hp Hl.
  unfold clirEditDelete, mbind, M_bind, gets, store, memmove, modify.
  destruct (Z.gtb_spec (len (st s)) 0); [|lia].
  destruct (Z.ltb_spec (pos (st s)) (len (st s))); [|lia]. cbn [andb].
  frame_refresh; done.
Qed.

(** At the end of the line [clirEditDelete] does nothing at all. *)
Lemma clirEditDelete_at_end {R} s :
  len (st s) <= pos (st s) -> 0 <= pos (st s) -> @clirEditDelete R s = (Go tt, s).
Proof.
  intros H H0. unfold clirEditDelete, mbind, M_bind, gets.
  destruct (Z.gtb_spec (len (st s)) 0); destruct (Z.ltb_spec (pos (st s)) (len (st s)));
    try done; lia.
Qed.

(** The text and the cursor after a delete that has a character to
    remove. *)
Lemma clirEditDelete_text {R} (s : Sys) :
  sane s -> pos (st s) < len (st s) ->
  let s' := snd (@clirEditDelete R s) in
  sane s' /\
  text s' = take (Z.to_nat (pos (st s))) (text s) ++ drop (Z.to_nat (pos (st s)) + 1) (text s) /\
  pos (st s') = pos (st s).
Proof.
  intros Hs Hp s'. pose proof (sane_size _ Hs) as Hl.
  destruct Hs as ((Hpos & Hcap) & Hnul & Hf & Hobj).
  pose proof (@clirEditDelete_shape R s ltac:(lia) Hp) as Hx. fold s' in Hx.
  clearbody s'.
  match type of Hx with same_edit ?x _ => transport Hx s' x end.
  rewrite move_bytes_in; [|lia..].
  rewrite poke_in by (st_simpl; look; lia). st_simpl.
  unfold sane, cursor_inv, text. st_simpl.
  replace (Z.to_nat (len (st s) - 1)) with (Z.to_nat (len (st s)) - 1)%nat by lia.
  replace (Z.to_nat (pos (st s) + 1)) with (Z.to_nat (pos (st s)) + 1)%nat by lia.
  replace (Z.to_nat (pos (st s) + (len (st s) - pos (st s) - 1)))
    with (Z.to_nat (len (st s)) - 1)%nat by lia.
  replace (Z.to_nat (len (st s) - pos (st s) - 1))
    with (Z.to_nat (len (st s)) - Z.to_nat (pos (st s)) - 1)%nat by lia.
  assert (Hp' : (Z.to_nat (pos (st s)) < Z.to_nat (len (st s)))%nat) by lia.
  split; [split; [lia|split; [|split; [done|look; lia]]]|split; [|lia]];
    clear -Hl Hp' Hnul; set (l := Z.to_nat (len (st s))) in *;
    set (p := Z.to_nat (pos (st s))) in *; clearbody l p.
  - look. cases. done.
  - buf_eq.
Qed.

(** With the cursor at the end of the line [clirEditDelete] changes
    nothing.  Inside the line it removes the character under the cursor
    from the text and leaves the cursor where it is; the line stays
    terminated. *)
Theorem clirEditDelete_removes {R} (s : Sys) :
  (len (st s) <= pos (st s) -> 0 <= pos (st s) -> @clirEditDelete R s = (Go tt, s)) /\
  (sane s -> pos (st s) < len (st s) ->
   let s' := snd (@clirEditDelete R s) in
   sane s' /\
   text s' = take (Z.to_nat (pos (st s))) (text s)
             ++ drop (Z.to_nat (pos (st s)) + 1) (text s) /\
   pos (st s') = pos (st s)).
Proof.
  split.
  - apply clirEditDelete_at_end.
  - intros Hs Hp. by apply clirEditDelete_text.
Qed.


(** Typing a character and taking it back with backspace restores the
    text and the cursor. *)
Theorem insert_then_backspace {R} (c : ascii) (s : Sys) :
  sane s -> len (st s) < buflen (st s) ->
  len (st s) + 1 < Z.of_nat (length (buf (st s))) ->
  let s' := snd (@clirEditBackspace R (snd (@clirEditInsert R c s))) in
  sane s' /\ text s' = text s /\ pos (st s') = pos (st s).
Proof.
  intros Hs Hroom Hsize.
  destruct (@clirEditInsert_text R c s Hs Hroom Hsize) as (Hs1 & Ht1 & Hp1).
  pose proof Hs as ((Hpos & _) & _).
  destruct (@clirEditBackspace_text R _ Hs1 ltac:(lia)) as (Hs2 & Ht2 & Hp2).
  cbv zeta. split; [done|]. split; [|lia].
  rewrite Ht2, Ht1, Hp1.
  assert (Hlen : length (take (Z.to_nat (pos (st s))) (text s)) = Z.to_nat (pos (st s))).
  { unfold text. rewrite take_take, length_take. pose proof (sane_size _ Hs). lia. }
  replace (Z.to_nat (pos (st s) + 1) - 1)%nat with (Z.to_nat (pos (st s))) by lia.
  replace (Z.to_nat (pos (st s) + 1)) with (Z.to_nat (pos (st s)) + 1)%nat by lia.
  rewrite take_app_length' by done.
  rewrite <- Hlen at 2. rewrite drop_app_add. simpl. rewrite drop_0.
  apply take_drop.
Qed.

Lemma insert_then_backspace_witness :
  let s := after_typing "ls" "" in
  let s' := snd (@clirEditBackspace unit (snd (@clirEditInsert unit "x" s))) in
  sane s' /\ text s' = text s /\ pos (st s') = pos (st s).
Proof.
  apply (@insert_then_backspace unit "x" (after_typing "ls" "")).
  - vm_compute. repeat split; congruence.
  - reflexivity.
  - reflexivity.
Defined.


Lemma clirEditInsert_inserts_witness :
  let s := after_typing "ls" "" in
  let full := with_st (set_len 16) s in
  @clirEditInsert unit "x" full = (Go 0, full) /\
  (let s' := snd (@clirEditInsert unit "x" s) in
   sane s' /\
   text s' = take (Z.to_nat (pos (st s))) (text s)
             ++ "x"%char :: drop (Z.to_nat (pos (st s))) (text s) /\
   pos (st s') = pos (st s) + 1).
Proof.
  split.
  - apply (@clirEditInsert_inserts unit "x" (with_st (set_len 16) (after_typing "ls" ""))).
    vm_compute. discriminate.
  - apply (@clirEditInsert_inserts unit "x" (after_typing "ls" "")).
    + vm_compute. repeat split; congruence.
    + reflexivity.
    + reflexivity.
Defined.

Lemma clirEditBackspace_removes_witness :
  let s := after_typing "ls" "" in
  let empty := after_typing "" "" in
  @clirEditBackspace unit empty = (Go tt, empty) /\
  (let s' := snd (@clirEditBackspace unit s) in
   sane s' /\
   text s' = take (Z.to_nat (pos (st s)) - 1) (text s)
             ++ drop (Z.to_nat (pos (st s))) (text s) /\
   pos (st s') = pos (st s) - 1).
Proof.
  split.
  - apply (@clirEditBackspace_removes unit (after_typing "" "")).
    left. vm_compute. discriminate.
  - apply (@clirEditBackspace_removes unit (after_typing "ls" "")).
    + vm_compute. repeat split; congruence.
    + reflexivity.
Defined.

Lemma clirEditDelete_removes_witness :
  let s := after_typing ("ls" +:+ String "002" EmptyString) "" in
  let at_end := after_typing "ls" "" in
  @clirEditDelete unit at_end = (Go tt, at_end) /\
  (let s' := snd (@clirEditDelete unit s) in
   sane s' /\
   text s' = take (Z.to_nat (pos (st s))) (text s)
             ++ drop (Z.to_nat (pos (st s)) + 1) (text s) /\
   pos (st s') = pos (st s)).
Proof.
  split.
  - apply (@clirEditDelete_removes unit (after_typing "ls" "")).
    + vm_compute. discriminate.
    + vm_compute. discriminate.
  - apply (@clirEditDelete_removes unit (after_typing ("ls" +:+ String "002" EmptyString) "")).
    + vm_compute. repeat split; congruence.
    + reflexivity.
Defined.

(** A loop that walks down over the bytes on which [f] holds stops at the
    first byte, from the right, on which it does not, or at zero. *)
Lemma while_scan_down (f : Z -> bool) (fuel : nat) (x : Z) :
  0 <= x -> (Z.to_nat x <= fuel)%nat ->
  let r := while fuel (fun p => (p >? 0) && f (p - 1)) (fun p => p - 1) x in
  0 <= r <= x /\ (forall i, r <= i < x -> f i = true) /\ (r = 0 \/ f (r - 1) = false).
Proof.
  revert x. induction fuel as [|fuel IH]; intros x Hx Hfuel; cbn [while].
  - assert (x = 0) as -> by lia. simpl. split; [lia|]. split; [intros; lia|by left].
  - destruct (Z.gtb_spec x 0) as [Hpos|Hz]; cbn [andb].
    + destruct (f (x - 1)) eqn:Ef.
      * destruct (IH (x - 1) ltac:(lia) ltac:(lia)) as (Hr & Hall & Hstop).
        split; [lia|]. split; [|done].
        intros i Hi. destruct (decide (i = x - 1)) as [->|]; [done|]. apply Hall. lia.
      * split; [lia|]. split; [intros; lia|by right].
    + split; [lia|]. split; [intros; lia|left; lia].
Qed.

Lemma clirEditDeletePrevWord_shape {R} s :
  exists p1 p2,
    p1 = while (Z.to_nat (pos (st s)))
               (fun p => (p >? 0) && Ascii.eqb (load (indeterminate s) (buf (st s)) (p - 1)) SPACE)
               (fun p => p - 1) (pos (st s)) /\
    p2 = while (Z.to_nat p1)
               (fun p => (p >? 0) && negb (Ascii.eqb (load (indeterminate s) (buf (st s)) (p - 1)) SPACE))
               (fun p => p - 1) p1 /\
    same_edit
      (with_st (set_len (u64 (len (st s) - u64 (pos (st s) - p2))))
         (move_bytes p2 (pos (st s)) (len (st s) - pos (st s) + 1)
            (with_st (set_pos p2) s)))
      (snd (@clirEditDeletePrevWord R s)).
Proof.
  eexists _, _. split; [reflexivity|]. split; [reflexivity|].
  unfold clirEditDeletePrevWord, mbind, M_bind, gets, store, memmove, modify.
  cbv beta zeta.
  frame_refresh; done.
Qed.

Lemma load_text s (i : Z) :
  0 <= i < len (st s) -> (Z.to_nat (len (st s)) < length (buf (st s)))%nat ->
  text s !! Z.to_nat i = Some (load (indeterminate s) (buf (st s)) i).
Proof.
  intros Hi Hl. unfold text, load.
  destruct (Z.ltb_spec i 0); [lia|].
  rewrite lookup_take_lt by lia.
  destruct (lookup_lt_is_Some_2 (buf (st s)) (Z.to_nat i)) as [c Hc]; [lia|].
  rewrite Hc. f_equal. symmetry. by apply nth_lookup_Some with (d := indeterminate s) in Hc.
Qed.

(** The text after [clirEditDeletePrevWord]: what was before the place the
    two loops walked back to, followed by what was behind the cursor. *)
Lemma clirEditDeletePrevWord_cut {R} (s : Sys) :
  sane s ->
  let s' := snd (@clirEditDeletePrevWord R s) in
  sane s' /\
  text s' = take (Z.to_nat (pos (st s'))) (text s) ++ drop (Z.to_nat (pos (st s))) (text s) /\
  exists p1,
    p1 = while (Z.to_nat (pos (st s)))
               (fun p => (p >? 0) && Ascii.eqb (load (indeterminate s) (buf (st s)) (p - 1)) SPACE)
               (fun p => p - 1) (pos (st s)) /\
    pos (st s') =
         while (Z.to_nat p1)
               (fun p => (p >? 0) && negb (Ascii.eqb (load (indeterminate s) (buf (st s)) (p - 1)) SPACE))
               (fun p => p - 1) p1.
Proof.
  intros Hs s'. pose proof (sane_size _ Hs) as Hl.
  destruct Hs as ((Hpos & Hcap) & Hnul & Hf & Hobj).
  destruct (@clirEditDeletePrevWord_shape R s) as (p1 & p2 & Hp1 & Hp2 & Hx).
  fold s' in Hx. clearbody s'.
  pose proof (while_scan_down
    (fun i => Ascii.eqb (load (indeterminate s) (buf (st s)) i) SPACE)
    (Z.to_nat (pos (st s))) (pos (st s)) ltac:(lia) ltac:(lia)) as H1.
  cbv beta zeta in H1. rewrite <- Hp1 in H1. destruct H1 as (Hr1 & _ & _).
  pose proof (while_scan_down
    (fun i => negb (Ascii.eqb (load (indeterminate s) (buf (st s)) i) SPACE))
    (Z.to_nat p1) p1 ltac:(lia) ltac:(lia)) as H2.
  cbv beta zeta in H2. rewrite <- Hp2 in H2. destruct H2 as (Hr2 & _ & _).
  match type of Hx with same_edit ?x _ => transport Hx s' x end.
  rewrite move_bytes_in; [|st_simpl; lia..]. st_simpl.
  rewrite (u64_small (pos (st s) - p2)) by lia.
  rewrite u64_small by lia.
  unfold sane, cursor_inv. st_simpl.
  split; [split; [lia|split; [|split; [done|look; lia]]]|split].
  - replace (Z.to_nat (len (st s) - (pos (st s) - p2)))
      with (Z.to_nat p2 + (Z.to_nat (len (st s)) - Z.to_nat (pos (st s))))%nat by lia.
    replace (Z.to_nat (len (st s) - pos (st s) + 1))
      with (S (Z.to_nat (len (st s)) - Z.to_nat (pos (st s))))%nat by lia.
    assert (Hp' : (Z.to_nat p2 <= Z.to_nat (pos (st s)) <= Z.to_nat (len (st s)))%nat) by lia.
    clear -Hl Hp' Hnul. set (l := Z.to_nat (len (st s))) in *.
    set (p := Z.to_nat (pos (st s))) in *. set (q := Z.to_nat p2) in *. clearbody l p q.
    look. cases. rewrite <- Hnul. f_equal. lia.
  - unfold text. st_simpl.
    replace (Z.to_nat (len (st s) - (pos (st s) - p2)))
      with (Z.to_nat p2 + (Z.to_nat (len (st s)) - Z.to_nat (pos (st s))))%nat by lia.
    replace (Z.to_nat (len (st s) - pos (st s) + 1))
      with (S (Z.to_nat (len (st s)) - Z.to_nat (pos (st s))))%nat by lia.
    replace (Z.to_nat (p2 + (len (st s) - pos (st s) + 1)))
      with (S (Z.to_nat p2 + (Z.to_nat (len (st s)) - Z.to_nat (pos (st s)))))%nat by lia.
    assert (Hp' : (Z.to_nat p2 <= Z.to_nat (pos (st s)) <= Z.to_nat (len (st s)))%nat) by lia.
    clear -Hl Hp' Hnul. set (l := Z.to_nat (len (st s))) in *.
    set (p := Z.to_nat (pos (st s))) in *. set (q := Z.to_nat p2) in *. clearbody l p q.
    buf_eq.
  - exists p1. by rewrite <- Hp1, <- Hp2.
Qed.

(** [clirEditDeletePrevWord] removes, from the text before the cursor, all
    the spaces that end it and the whole word before them, and puts the
    cursor where that word began.  From [p1] to the cursor there are only
    spaces, and [p1] is the start of the line or stands behind a character
    that is no space; from the new cursor to [p1] there is no space, and
    the new cursor is the start of the line or stands behind a space.
    This fixes [p1] and the new cursor. *)
Theorem clirEditDeletePrevWord_removes_word {R} (s : Sys) :
  sane s ->
  let s' := snd (@clirEditDeletePrevWord R s) in
  let p := Z.to_nat (pos (st s)) in
  let p' := Z.to_nat (pos (st s')) in
  sane s' /\
  text s' = take p' (text s) ++ drop p (text s) /\
  exists p1 : nat,
    (p' <= p1 <= p)%nat /\
    (forall i, (p1 <= i < p)%nat -> text s !! i = Some SPACE) /\
    (p1 = 0%nat \/ text s !! (p1 - 1)%nat <> Some SPACE) /\
    (forall i, (p' <= i < p1)%nat -> text s !! i <> Some SPACE) /\
    (p' = 0%nat \/ text s !! (p' - 1)%nat = Some SPACE).
Proof.
  intros Hs s' p p'. pose proof (sane_size _ Hs) as Hl.
  destruct (@clirEditDeletePrevWord_cut R s Hs) as (Hs' & Ht & p1 & Hp1 & Hp2).
  fold s' in Hs', Ht, Hp2.
  split; [done|]. split; [done|].
  destruct Hs as ((Hpos & Hcap) & Hnul & Hf & Hobj).
  pose proof (while_scan_down
    (fun i => Ascii.eqb (load (indeterminate s) (buf (st s)) i) SPACE)
    (Z.to_nat (pos (st s))) (pos (st s)) ltac:(lia) ltac:(lia)) as H1.
  cbv beta zeta in H1. rewrite <- Hp1 in H1. destruct H1 as (Hr1 & Hall1 & Hstop1).
  pose proof (while_scan_down
    (fun i => negb (Ascii.eqb (load (indeterminate s) (buf (st s)) i) SPACE))
    (Z.to_nat p1) p1 ltac:(lia) ltac:(lia)) as H2.
  cbv beta zeta in H2. rewrite <- Hp2 in H2. destruct H2 as (Hr2 & Hall2 & Hstop2).
  assert (Htext : forall i, 0 <= i < len (st s) ->
            text s !! Z.to_nat i = Some (load (indeterminate s) (buf (st s)) i))
    by (intros; by apply load_text).
  subst p p'. set (p2 := pos (st s')) in *. clearbody p2.
  exists (Z.to_nat p1). split; [lia|]. split; [|split; [|split]].
  - intros i Hi. replace i with (Z.to_nat (Z.of_nat i)) by lia.
    rewrite Htext by lia. f_equal. apply Ascii.eqb_eq. apply Hall1. lia.
  - destruct Hstop1 as [->|Hstop1]; [by left|].
    destruct (decide (p1 = 0)) as [->|]; [by left|]. right.
    replace (Z.to_nat p1 - 1)%nat with (Z.to_nat (p1 - 1)) by lia.
    rewrite Htext by lia. intros [= Heq]. rewrite Heq in Hstop1.
    by rewrite Ascii.eqb_refl in Hstop1.
  - intros i Hi. replace i with (Z.to_nat (Z.of_nat i)) by lia.
    rewrite Htext by lia. intros [= Heq].
    specialize (Hall2 (Z.of_nat i) ltac:(lia)). cbv beta in Hall2.
    rewrite Heq in Hall2. by rewrite Ascii.eqb_refl in Hall2.
  - destruct Hstop2 as [->|Hstop2]; [by left|].
    destruct (decide (p2 = 0)) as [->|]; [by left|]. right.
    replace (Z.to_nat p2 - 1)%nat with (Z.to_nat (p2 - 1)) by lia.
    rewrite Htext by lia. f_equal. apply Ascii.eqb_eq.
    by apply negb_false_iff in Hstop2.
Qed.

Lemma clirEditDeletePrevWord_removes_word_witness :
  let s := after_typing "cd  /tmp  " "" in
  let s' := snd (@clirEditDeletePrevWord unit s) in
  let p := Z.to_nat (pos (st s)) in
  let p' := Z.to_nat (pos (st s')) in
  sane s' /\
  text s' = take p' (text s) ++ drop p (text s) /\
  exists p1 : nat,
    (p' <= p1 <= p)%nat /\
    (forall i, (p1 <= i < p)%nat -> text s !! i = Some SPACE) /\
    (p1 = 0%nat \/ text s !! (p1 - 1)%nat <> Some SPACE) /\
    (forall i, (p' <= i < p1)%nat -> text s !! i <> Some SPACE) /\
    (p' = 0%nat \/ text s !! (p' - 1)%nat = Some SPACE).
Proof.
  apply (@clirEditDeletePrevWord_removes_word unit (after_typing "cd  /tmp  " "")).
  vm_compute. repeat split; congruence.
Defined.

End LineFacts.

(** ** The line stays a terminated string through a whole session *)

Module SessionFacts.
Import Hist Edit Vocab EditFacts LineFacts.

#[export] Instance fault_le_preorder : PreOrder fault_le.
Proof. split; [intros x H; exact H|intros x y z H1 H2 H; exact (H2 (H1 H))]. Qed.

#[export] Instance stays_intact_preorder : PreOrder stays_intact.
Proof. split; [intros x H; exact H|intros x y z H1 H2 H; exact (H2 (H1 H))]. Qed.

#[local] Hint Extern 1 (fault_le _ _) => (unfold fault_le; simpl; tauto) : pres.

Lemma same_edit_fault s s' : same_edit s s' -> fault (world s') = fault (world s).
Proof.
  unfold same_edit. intros H.
  change (fault (world s)) with (fault (world (core s))). by rewrite H.
Qed.

Lemma same_edit_fault_le {R A} (m : M R A) : preserves same_edit m -> preserves fault_le m.
Proof. intros H s. unfold fault_le. by rewrite (same_edit_fault _ _ (H s)). Qed.

Lemma store_fault_le {R} i c : preserves fault_le (@store R i c).
Proof.
  intros s. unfold fault_le, store, modify. simpl. rewrite poke_fault.
  intros ->. done.
Qed.

Lemma memmove_fault_le {R} d sr n : preserves fault_le (@memmove R d sr n).
Proof.
  intros s. unfold fault_le, memmove, modify, move_bytes. simpl.
  by destruct (memmove_buf _ _ _ _).
Qed.

Lemma strncpy_fault_le {R} src n : preserves fault_le (@strncpy R src n).
Proof.
  intros s. unfold fault_le, strncpy, modify, copy_string. simpl.
  by destruct (strncpy_buf _ _ _).
Qed.

Lemma write_fault_le {R} d : preserves fault_le (@write R d).
Proof. apply same_edit_fault_le, write_same_edit. Qed.

Lemma read_fault_le {R} n : preserves fault_le (@read R n).
Proof.
  intros s. unfold fault_le, read.
  destruct (input (world s)) as [|[c|] rest] eqn:E; simpl; rewrite ?E; simpl; try done.
  by destruct (take_keys n (Key c :: rest)).
Qed.

Lemma refreshLine_fault_le {R} : preserves fault_le (@refreshLine R).
Proof. apply same_edit_fault_le, refreshLine_same_edit. Qed.
#[local] Hint Resolve store_fault_le memmove_fault_le strncpy_fault_le write_fault_le
  read_fault_le refreshLine_fault_le : pres.

Lemma clirEditInsert_fault_le {R} c : preserves fault_le (@clirEditInsert R c).
Proof. unfold clirEditInsert. pres. Qed.
#[local] Hint Resolve clirEditInsert_fault_le : pres.

Lemma insert_rest_fault_le {R} rest : preserves fault_le (@insert_rest R rest).
Proof. induction rest; simpl; pres. Qed.

Lemma print_valid_fault_le {R} l : preserves fault_le (@print_valid R l).
Proof. induction l; simpl; unfold printf; pres. Qed.
#[local] Hint Resolve insert_rest_fault_le print_valid_fault_le : pres.

Lemma completeWord_fault_le {R} : preserves fault_le (@completeWord R).
Proof. unfold completeWord, clirBeep, printf. pres. Qed.

Lemma dispatch_fault_le c : preserves fault_le (dispatch c).
Proof.
  unfold dispatch, self_insert, escape_sequence, clirEditBackspace, clirEditDelete,
    swap_chars, clirEditMoveLeft, clirEditMoveRight, clirEditHistoryNext,
    clirEditDeletePrevWord, clirClearScreen, drop_newest, word_left, word_right.
  pres.
Qed.
#[local] Hint Resolve completeWord_fault_le dispatch_fault_le : pres.

(** A handler keeps the line intact if it keeps a sane line sane whenever
    it ends without a fault: a fault, once raised, stays. *)
Lemma stays_intact_intro {R A} (m : M R A) :
  preserves fault_le m ->
  (forall s, sane s -> fault (world (snd (m s))) = false -> sane (snd (m s))) ->
  preserves stays_intact m.
Proof.
  intros Hmono H s Hok Hnf. apply H; [|done]. apply Hok.
  destruct (fault (world s)) eqn:E; [|done].
  specialize (Hmono s E). congruence.
Qed.


Ltac sane_case :=
  let s := fresh "s" in
  intros s Hs; pose proof (sane_size _ Hs) as Hl;
  pose proof Hs as ((Hpos & Hcap) & Hnul & Hf & Hobj).

Ltac refresh_away :=
  cbv beta;
  match goal with
  | |- context [@refreshLine ?T ?x] =>
      let Hw := fresh "Hw" in
      let s1 := fresh "s1" in
      pose proof (@refreshLine_same_edit T x) as Hw; unfold preserves in Hw;
      destruct (@refreshLine T x) as [[?|?] s1]; cbn [fst snd] in Hw |- *;
      transport Hw s1 x
  end.

Ltac sane_fin :=
  unfold sane, cursor_inv; cbn [fst snd]; st_simpl; repeat split; try done; try lia.

Ltac intact_modify :=
  unfold stays_intact, intact, sane, cursor_inv;
  cbn [with_st with_world with_hist st world hist mlmode completionCallback
       set_pos set_len set_buf set_word_pos set_history_index
       pos len buflen buf fault input log raise_fault set_input];
  first [ tauto | intros; discriminate
        | let H := fresh in let Hf := fresh in
          intros H Hf; specialize (H Hf); intuition lia ].

#[local] Hint Extern 1 (stays_intact _ _) => intact_modify : pres.

Lemma poke_cases i c s :
  (0 <= i < Z.of_nat (length (buf (st s))) /\
   poke i c s = with_st (set_buf (<[Z.to_nat i := c]> (buf (st s)))) s)
  \/ fault (world (poke i c s)) = true.
Proof.
  destruct (decide (0 <= i < Z.of_nat (length (buf (st s))))) as [H|H].
  - left. split; [done|]. by apply poke_in.
  - right. by apply poke_out.
Qed.

(** With room below [buflen] but none in the array, the terminator of an
    inserted character is stored past the end of the array. *)
Lemma clirEditInsert_overflows {R} c : forall s,
  sane s -> len (st s) < buflen (st s) ->
  ~ len (st s) + 1 < Z.of_nat (length (buf (st s))) ->
  fault (world (snd (@clirEditInsert R c s))) = true.
Proof.
  sane_case. intros Hroom Hout.
  pose proof (@clirEditInsert_shape R c s Hroom) as Hx.
  rewrite (same_edit_fault _ _ Hx). clear Hx.
  destruct (len (st s) =? pos (st s)).
  - rewrite (poke_in (pos (st s)) c s) by lia. st_simpl.
    rewrite poke_out; [done|]. st_simpl. rewrite length_insert. lia.
  - rewrite move_bytes_in; [|lia..].
    rewrite (poke_in (pos (st s)) c) by (st_simpl; look; lia). st_simpl.
    rewrite poke_out; [done|]. st_simpl. look. lia.
Qed.

Lemma clirEditInsert_sane {R} c : forall s,
  sane s ->
  len (st s) + 1 < Z.of_nat (length (buf (st s))) \/ buflen (st s) <= len (st s) ->
  sane (snd (@clirEditInsert R c s)).
Proof.
  sane_case. intros Hcase.
  destruct (Z.ltb_spec (len (st s)) (buflen (st s))) as [Hroom|Hfull].
  - destruct Hcase as [Hin|Hno]; [|lia]. by apply clirEditInsert_text.
  - by rewrite clirEditInsert_full.
Qed.

Lemma clirEditInsert_intact {R} c : preserves stays_intact (@clirEditInsert R c).
Proof.
  apply stays_intact_intro; [apply clirEditInsert_fault_le|].
  sane_case.
  destruct (Z.ltb_spec (len (st s)) (buflen (st s))) as [Hroom|Hfull].
  - destruct (decide (len (st s) + 1 < Z.of_nat (length (buf (st s))))) as [Hin|Hout].
    + intros _. apply clirEditInsert_sane; [done|by left].
    + intros Hnf. rewrite clirEditInsert_overflows in Hnf; done.
  - intros _. apply clirEditInsert_sane; [done|right; lia].
Qed.

Lemma clirEditBackspace_sane {R} : forall s, sane s -> sane (snd (@clirEditBackspace R s)).
Proof.
  sane_case.
  destruct (decide (0 < pos (st s))) as [Hp|Hp].
  - by apply clirEditBackspace_text.
  - rewrite clirEditBackspace_at_start by lia. done.
Qed.

Lemma clirEditBackspace_intact {R} : preserves stays_intact (@clirEditBackspace R).
Proof.
  apply stays_intact_intro; [unfold clirEditBackspace; pres|].
  intros s Hs _. by apply clirEditBackspace_sane.
Qed.

Lemma clirEditDelete_sane {R} : forall s, sane s -> sane (snd (@clirEditDelete R s)).
Proof.
  sane_case.
  destruct (decide (pos (st s) < len (st s))) as [Hp|Hp].
  - by apply clirEditDelete_text.
  - rewrite clirEditDelete_at_end by lia. done.
Qed.

Lemma clirEditDelete_intact {R} : preserves stays_intact (@clirEditDelete R).
Proof.
  apply stays_intact_intro; [unfold clirEditDelete; pres|].
  intros s Hs _. by apply clirEditDelete_sane.
Qed.

Lemma clirEditDeletePrevWord_sane {R} :
  forall s, sane s -> sane (snd (@clirEditDeletePrevWord R s)).
Proof. sane_case. by apply clirEditDeletePrevWord_cut. Qed.

Lemma clirEditDeletePrevWord_intact {R} : preserves stays_intact (@clirEditDeletePrevWord R).
Proof.
  apply stays_intact_intro; [unfold clirEditDeletePrevWord; pres|].
  intros s Hs _. by apply clirEditDeletePrevWord_sane.
Qed.

Lemma clirEditMoveLeft_sane {R} : forall s, sane s -> sane (snd (@clirEditMoveLeft R s)).
Proof.
  sane_case. unfold clirEditMoveLeft, mbind, M_bind, gets, modify.
  destruct (Z.gtb_spec (pos (st s)) 0); [|done].
  refresh_away; sane_fin.
Qed.

Lemma clirEditMoveLeft_intact {R} : preserves stays_intact (@clirEditMoveLeft R).
Proof.
  apply stays_intact_intro; [unfold clirEditMoveLeft; pres|].
  intros s Hs _. by apply clirEditMoveLeft_sane.
Qed.

Lemma clirEditMoveRight_sane {R} : forall s, sane s -> sane (snd (@clirEditMoveRight R s)).
Proof.
  sane_case. unfold clirEditMoveRight, mbind, M_bind, gets, modify.
  destruct (Z.eqb_spec (pos (st s)) (len (st s))); [done|]. cbn [negb].
  refresh_away; sane_fin.
Qed.

Lemma clirEditMoveRight_intact {R} : preserves stays_intact (@clirEditMoveRight R).
Proof.
  apply stays_intact_intro; [unfold clirEditMoveRight; pres|].
  intros s Hs _. by apply clirEditMoveRight_sane.
Qed.


Lemma while_up fuel cond x bound :
  (forall y, cond y = true -> y < bound) -> x <= bound ->
  x <= while fuel cond (fun p => p + 1) x <= bound.
Proof.
  intros Hc. revert x. induction fuel as [|fuel IH]; intros x Hx; simpl.
  - destruct (cond x); lia.
  - destruct (cond x) eqn:E; [|lia].
    specialize (Hc x E). specialize (IH (x + 1) ltac:(lia)). lia.
Qed.

Lemma load_lookup w (a : list ascii) (i : Z) c :
  0 <= i -> a !! Z.to_nat i = Some c -> load w a i = c.
Proof.
  intros Hi Ha. unfold load. destruct (Z.ltb_spec i 0); [lia|].
  by apply nth_lookup_Some with (d := w) in Ha.
Qed.

Lemma word_right_sane {R} : forall s, sane s -> sane (snd (@word_right R s)).
Proof.
  sane_case. unfold word_right, mbind, M_bind, gets, modify. cbv zeta.
  match goal with
  | |- context [with_st (set_pos (while ?f2 ?c2 ?b2 (while ?f1 ?c1 ?b1 ?x)))] =>
      pose proof (while_up f1 c1 x (len (st s))) as H1;
      pose proof (while_up f2 c2 (while f1 c1 b1 x) (len (st s))) as H2;
      set (p2 := while f2 c2 b2 (while f1 c1 b1 x)) in *
  end.
  cbv beta in H1, H2.
  lapply H1; [clear H1; intros H1|intros y Hy; apply andb_prop in Hy; lia].
  specialize (H1 ltac:(lia)).
  lapply H2; [clear H2; intros H2|].
  - specialize (H2 ltac:(lia)). clearbody p2.
    refresh_away; sane_fin.
  - intros y Hy. apply andb_prop in Hy. destruct Hy as [Hsp Hle].
    destruct (decide (y = len (st s))) as [->|]; [|lia].
    rewrite (load_lookup _ _ _ NUL) in Hsp by (done || lia). done.
Qed.

Lemma word_right_intact {R} : preserves stays_intact (@word_right R).
Proof.
  apply stays_intact_intro; [unfold word_right; pres|].
  intros s Hs _. by apply word_right_sane.
Qed.

Lemma word_left_sane {R} : forall s, sane s -> sane (snd (@word_left R s)).
Proof.
  sane_case. unfold word_left, mbind, M_bind, gets, modify. cbv zeta.
  match goal with
  | |- context [with_st (set_pos (while ?f2 ?c2 ?b2 (while ?f1 ?c1 ?b1 ?x)))] =>
      pose proof (while_down f1 c1 x) as H1;
      pose proof (while_down f2 c2 (while f1 c1 b1 x)) as H2;
      assert (Hx : 0 <= x <= pos (st s)) by (destruct (Z.gtb_spec (pos (st s)) 0); lia);
      set (p2 := while f2 c2 b2 (while f1 c1 b1 x)) in *;
      set (x0 := x) in *
  end.
  lapply H1; [clear H1; intros H1|intros y Hy; apply andb_prop in Hy; lia].
  specialize (H1 ltac:(lia)).
  lapply H2; [clear H2; intros H2|intros y Hy; apply andb_prop in Hy; lia].
  specialize (H2 ltac:(lia)). clearbody p2 x0.
  refresh_away; sane_fin.
Qed.

Lemma word_left_intact {R} : preserves stays_intact (@word_left R).
Proof.
  apply stays_intact_intro; [unfold word_left; pres|].
  intros s Hs _. by apply word_left_sane.
Qed.

Lemma swap_chars_sane {R} : forall s, sane s -> sane (snd (@swap_chars R s)).
Proof.
  sane_case. unfold swap_chars, mbind, M_bind, gets, store, modify. cbv zeta.
  destruct (Z.gtb_spec (pos (st s)) 0); [|done].
  destruct (Z.ltb_spec (pos (st s)) (len (st s))); [|done]. cbn [andb].
  destruct (negb (pos (st s) =? len (st s) - 1)); unfold mret, M_ret; cbv beta iota;
    refresh_away;
    rewrite (poke_in (pos (st s) - 1)) by lia;
    rewrite poke_in by (st_simpl; look; lia);
    sane_fin; look; cases; done.
Qed.

Lemma swap_chars_intact {R} : preserves stays_intact (@swap_chars R).
Proof.
  apply stays_intact_intro; [unfold swap_chars; pres|].
  intros s Hs _. by apply swap_chars_sane.
Qed.

(** The C string of an array that holds a NUL ends at a NUL, at or before
    that one. *)
Lemma cstr_stops (b : list ascii) (i : nat) :
  b !! i = Some NUL ->
  (String.length (cstr b) <= i)%nat /\ b !! String.length (cstr b) = Some NUL.
Proof.
  revert i. induction b as [|c b IH]; intros i Hi; [done|].
  simpl. destruct (Ascii.eqb_spec c NUL) as [->|Hc]; simpl.
  - split; [lia|done].
  - destruct i as [|i]; simpl in Hi; [congruence|].
    destruct (IH i Hi). split; [lia|done].
Qed.

Lemma copy_string_in src n s :
  0 <= n <= Z.of_nat (length (buf (st s))) ->
  copy_string src n s =
  with_st (set_buf (take (Z.to_nat n) (list_ascii_of_string src ++ replicate (Z.to_nat n) NUL)
                    ++ drop (Z.to_nat n) (buf (st s)))) s.
Proof.
  intros H. unfold copy_string, strncpy_buf.
  destruct (Z.leb_spec 0 n); [|lia].
  destruct (Z.leb_spec n (Z.of_nat (length (buf (st s))))); [|lia]. done.
Qed.

Lemma copy_string_cases src n s :
  (0 <= n <= Z.of_nat (length (buf (st s))) /\
   copy_string src n s =
   with_st (set_buf (take (Z.to_nat n) (list_ascii_of_string src ++ replicate (Z.to_nat n) NUL)
                     ++ drop (Z.to_nat n) (buf (st s)))) s)
  \/ fault (world (copy_string src n s)) = true.
Proof.
  unfold copy_string, strncpy_buf.
  destruct (Z.leb_spec 0 n); destruct (Z.leb_spec n (Z.of_nat (length (buf (st s)))));
    cbn [andb]; try (by right). left. split; [lia|done].
Qed.

Lemma clirEditHistoryNext_intact {R} dir : preserves stays_intact (@clirEditHistoryNext R dir).
Proof.
  apply stays_intact_intro; [unfold clirEditHistoryNext; pres|].
  sane_case.
  unfold clirEditHistoryNext, call, mbind, M_bind, gets, store, strncpy, modify, leave.
  destruct (history_len (hist s) >? 1); [|done]. cbv zeta beta.
  match goal with
  | |- context [if ?a <? 0 then _ else _] => destruct (a <? 0); [intros _; sane_fin|]
  end.
  match goal with
  | |- context [if ?a >=? ?b then _ else _] => destruct (a >=? b); [intros _; sane_fin|]
  end.
  cbv beta.
  match goal with
  | |- context [copy_string ?src ?n ?x] =>
      destruct (copy_string_cases src n x) as [[Hn ->]|Hfault]
  end.
  - st_simpl.
    match goal with
    | |- context [poke ?i ?c ?x] => destruct (poke_cases i c x) as [[Hi ->]|Hfault]
    end.
    + st_simpl.
      match goal with
      | |- context [cstr ?b] =>
          destruct (cstr_stops b (Z.to_nat (buflen (st s) - 1))) as [Hle Hstop];
          [apply list_lookup_insert_eq; revert Hi; look; lia|];
          set (b' := b) in *
      end.
      assert (Hsize : length b' = length (buf (st s))) by (unfold b'; look; rewrite ?length_replicate; lia).
      clearbody b'.
      refresh_away; intros _; unfold strlen; sane_fin; try lia.
      all: by rewrite Nat2Z.id.
    + match goal with
      | |- context [@refreshLine ?T ?x] =>
          pose proof (@refreshLine_same_edit T x) as Hw; unfold preserves in Hw;
          destruct (@refreshLine T x) as [[?|?] s1]; cbn [fst snd] in Hw |- *;
          rewrite (same_edit_fault _ _ Hw); st_simpl; rewrite Hfault; done
      end.
  - match goal with
    | |- context [@refreshLine ?T ?x] =>
        pose proof (@refreshLine_same_edit T x) as Hw; unfold preserves in Hw;
        destruct (@refreshLine T x) as [[?|?] s1]; cbn [fst snd] in Hw |- *;
        rewrite (same_edit_fault _ _ Hw); st_simpl
    end.
    all: rewrite poke_fault; st_simpl; rewrite Hfault; done.
Qed.


(** With a capacity of one byte or more that is no larger than the array,
    no store of [clirEditHistoryNext] falls outside it. *)
Lemma clirEditHistoryNext_sane {R} dir : forall s,
  sane s -> 1 <= buflen (st s) <= Z.of_nat (length (buf (st s))) ->
  sane (snd (@clirEditHistoryNext R dir s)).
Proof.
  sane_case. intros Hfit.
  unfold clirEditHistoryNext, call, mbind, M_bind, gets, store, strncpy, modify, leave.
  destruct (history_len (hist s) >? 1); [|done]. cbv zeta beta.
  match goal with
  | |- context [if ?a <? 0 then _ else _] => destruct (a <? 0); [sane_fin|]
  end.
  match goal with
  | |- context [if ?a >=? ?b then _ else _] => destruct (a >=? b); [sane_fin|]
  end.
  cbv beta.
  match goal with
  | |- context [copy_string ?src ?n ?x] => rewrite (copy_string_in src n x) by (st_simpl; lia)
  end.
  st_simpl.
  rewrite poke_in by (st_simpl; look; rewrite ?length_replicate; lia).
  st_simpl.
  match goal with
  | |- context [cstr ?b] =>
      destruct (cstr_stops b (Z.to_nat (buflen (st s) - 1))) as [Hle Hstop];
      [apply list_lookup_insert_eq; look; rewrite ?length_replicate; lia|];
      set (b' := b) in *
  end.
  assert (Hsize : length b' = length (buf (st s)))
    by (unfold b'; look; rewrite ?length_replicate; lia).
  clearbody b'.
  refresh_away; unfold strlen; sane_fin; try lia.
  all: by rewrite Nat2Z.id.
Qed.

Lemma same_edit_intact {R A} (m : M R A) : preserves same_edit m -> preserves stays_intact m.
Proof.
  intros H s Hok. specialize (H s). unfold intact in *.
  rewrite (same_edit_fault _ _ H). intros Hf. by apply (same_edit_sane _ _ H), Hok.
Qed.

Lemma write_intact {R} d : preserves stays_intact (@write R d).
Proof. apply same_edit_intact, write_same_edit. Qed.

Lemma refreshLine_intact {R} : preserves stays_intact (@refreshLine R).
Proof. apply same_edit_intact, refreshLine_same_edit. Qed.

Lemma read_intact {R} n : preserves stays_intact (@read R n).
Proof.
  intros s. unfold read.
  destruct (input (world s)) as [|[c|] rest] eqn:E; simpl; rewrite ?E; simpl;
    try (by intros ?).
  destruct (take_keys n (Key c :: rest)). simpl. by intros ?.
Qed.

(** ctrl-u *)
Lemma kill_line_sane {R} : forall s, sane s ->
  sane (snd ((store 0 NUL;; modify (with_st (set_len 0));; modify (with_st (set_pos 0));;
              refreshLine : M R unit) s)).
Proof.
  sane_case. unfold mbind, M_bind, store, modify. cbv beta iota.
  refresh_away; rewrite poke_in by lia; sane_fin; look; cases; done.
Qed.

Lemma kill_line_intact {R} :
  preserves stays_intact
    (store 0 NUL;; modify (with_st (set_len 0));; modify (with_st (set_pos 0));;
     refreshLine : M R unit).
Proof. apply stays_intact_intro; [pres|]. intros s Hs _. by apply kill_line_sane. Qed.

(** ctrl-k *)
Lemma kill_to_end_sane {R} : forall s, sane s ->
  sane (snd ((cs ← gets st; store (pos cs) NUL;; modify (with_st (set_len (pos cs)));;
              refreshLine : M R unit) s)).
Proof.
  sane_case. unfold mbind, M_bind, gets, store, modify. cbv beta iota.
  refresh_away; rewrite poke_in by lia; sane_fin; look; cases; done.
Qed.

Lemma kill_to_end_intact {R} :
  preserves stays_intact
    (cs ← gets st; store (pos cs) NUL;; modify (with_st (set_len (pos cs)));;
     refreshLine : M R unit).
Proof. apply stays_intact_intro; [pres|]. intros s Hs _. by apply kill_to_end_sane. Qed.

(** ctrl-e *)
Lemma to_end_sane {R} : forall s, sane s ->
  sane (snd ((cs ← gets st; modify (with_st (set_pos (len cs)));; refreshLine : M R unit) s)).
Proof.
  sane_case. unfold mbind, M_bind, gets, store, modify. cbv beta iota.
  refresh_away; sane_fin.
Qed.

Lemma to_end_intact {R} :
  preserves stays_intact
    (cs ← gets st; modify (with_st (set_pos (len cs)));; refreshLine : M R unit).
Proof. apply stays_intact_intro; [pres|]. intros s Hs _. by apply to_end_sane. Qed.

(** The End key *)
Lemma end_key_sane {R} : forall s, sane s ->
  sane (snd ((cs ← gets st;
              if negb (pos cs =? len cs)
              then modify (with_st (set_pos (len cs)));; refreshLine
              else mret tt : M R unit) s)).
Proof.
  sane_case. unfold mbind, M_bind, gets, store, modify. cbv beta iota.
  destruct (negb _); [|done].
  refresh_away; sane_fin.
Qed.

Lemma end_key_intact {R} :
  preserves stays_intact
    (cs ← gets st;
     if negb (pos cs =? len cs)
     then modify (with_st (set_pos (len cs)));; refreshLine else mret tt : M R unit).
Proof. apply stays_intact_intro; [pres|]. intros s Hs _. by apply end_key_sane. Qed.

#[local] Hint Resolve write_intact refreshLine_intact read_intact
  clirEditInsert_intact clirEditBackspace_intact clirEditDelete_intact
  clirEditDeletePrevWord_intact clirEditMoveLeft_intact clirEditMoveRight_intact
  word_right_intact word_left_intact swap_chars_intact clirEditHistoryNext_intact
  kill_line_intact kill_to_end_intact to_end_intact end_key_intact : pres.

Ltac intact := repeat first [ solve [auto with pres] | pres_step ].

Lemma insert_rest_intact {R} rest : preserves stays_intact (@insert_rest R rest).
Proof. induction rest; simpl; intact. Qed.

Lemma print_valid_intact {R} l : preserves stays_intact (@print_valid R l).
Proof. induction l; simpl; unfold printf; intact. Qed.
#[local] Hint Resolve insert_rest_intact print_valid_intact : pres.

Lemma completeWord_intact {R} : preserves stays_intact (@completeWord R).
Proof. unfold completeWord, clirBeep, printf. intact. Qed.

Lemma escape_sequence_intact : preserves stays_intact escape_sequence.
Proof. unfold escape_sequence. intact. Qed.
#[local] Hint Resolve completeWord_intact escape_sequence_intact : pres.

Lemma dispatch_intact c : preserves stays_intact (dispatch c).
Proof. unfold dispatch, self_insert, clirClearScreen, drop_newest. intact. Qed.
#[local] Hint Resolve dispatch_intact : pres.

Lemma clirEdit_turn_intact : preserves stays_intact clirEdit_turn.
Proof. unfold clirEdit_turn. intact. Qed.
#[local] Hint Resolve clirEdit_turn_intact : pres.

Lemma clirEdit_loop_intact fuel : preserves stays_intact (clirEdit_loop fuel).
Proof. induction fuel; simpl; intact. Qed.


Lemma clirEdit_state fd0 a buflen0 prompt0 s :
  snd (clirEdit fd0 a buflen0 prompt0 s) =
  snd (clirEdit_body fd0 a buflen0 prompt0 (S (length (input (world s)))) s).
Proof. unfold clirEdit. by destruct (clirEdit_body _ _ _ _ _ s) as [[]]. Qed.

(** A session that ends without a store outside the array leaves a
    terminated line in it: [0 <= pos <= len <= buflen], [buf[len]] is the
    NUL, and the C string the caller reads back is no longer than
    [len]. *)
Theorem clirEdit_leaves_terminated_line
    (fd0 : Z) (a : list ascii) (buflen0 : Z) (prompt0 : string) (s : Sys) :
  0 <= buflen0 < 2 ^ 64 -> Z.of_nat (length a) < 2 ^ 64 ->
  fault (world s) = false ->
  let s' := snd (clirEdit fd0 a buflen0 prompt0 s) in
  fault (world s') = false ->
  sane s' /\ strlen (line s') <= len (st s').
Proof.
  intros Hb Ha Hf s' Hf'.
  assert (Hs : sane s').
  { revert Hf'. subst s'. rewrite clirEdit_state.
    set (fuel := S (length (input (world s)))). clearbody fuel.
    unfold clirEdit_body.
    change (intact (snd ((w ← gets world;
      modify (with_st (fun _ =>
        mkState fd0 a buflen0 prompt0 (strlen prompt0) 0 0 0 (getColumns w) 0 0 0));;
      store 0 NUL;;
      modify (with_hist (fun h => snd (Hist.clirHistoryAdd EmptyString h)));;
      r ← write prompt0;
      if r =? -1 then leave (-1) else clirEdit_loop fuel) s))).
    unfold mbind at 1 2 3, M_bind at 1 2 3, gets, store, modify at 1 2. cbv beta iota.
    match goal with
    | |- intact (snd (?k ?x)) =>
        assert (Hk : preserves stays_intact k)
          by (pose proof (clirEdit_loop_intact fuel); intact);
        apply (Hk x)
    end.
    intros Hnf.
    destruct (poke_cases 0 NUL (with_st (fun _ =>
        mkState fd0 a buflen0 prompt0 (strlen prompt0) 0 0 0 (getColumns (world s)) 0 0 0) s))
      as [[Hi Hp]|Hp]; [|congruence].
    rewrite Hp. st_simpl. sane_fin.
    - apply list_lookup_insert_eq. lia.
    - rewrite length_insert. lia. }
  split; [done|].
  destruct Hs as ((Hpos & _) & Hnul & _).
  destruct (cstr_stops _ _ Hnul) as [Hle _].
  unfold line, strlen. lia.
Qed.


Lemma clirEdit_leaves_terminated_line_witness :
  let s := boot 0 (Some completion) history_init (terminal ("ls" +:+ ENTER) [] 80) in
  let s' := snd (clirEdit 0 (replicate 16 "x"%char) 16 "hello> " s) in
  sane s' /\ strlen (line s') <= len (st s').
Proof.
  apply (clirEdit_leaves_terminated_line 0 (replicate 16 "x"%char) 16 "hello> "
           (boot 0 (Some completion) history_init (terminal ("ls" +:+ ENTER) [] 80))).
  - vm_compute. split; [discriminate|reflexivity].
  - reflexivity.
  - reflexivity.
  - vm_compute. reflexivity.
Defined.

(** *** What a session returns *)

#[local] Hint Resolve goes_on_write goes_on_read goes_on_refreshLine : go.

Lemma goes_on_handlers {R} :
  goes_on (@clirEditBackspace R) /\ goes_on (@clirEditDelete R) /\
  goes_on (@clirEditMoveLeft R) /\ goes_on (@clirEditMoveRight R) /\
  goes_on (@clirEditDeletePrevWord R) /\ goes_on (@swap_chars R) /\
  goes_on (@word_right R) /\ goes_on (@word_left R) /\
  goes_on (@clirClearScreen R) /\ goes_on (@drop_newest R) /\
  (forall dir, goes_on (@clirEditHistoryNext R dir)) /\
  (forall c, goes_on (@clirEditInsert R c)) /\ goes_on (@completeWord R).
Proof.
  unfold clirEditBackspace, clirEditDelete, clirEditMoveLeft, clirEditMoveRight,
    clirEditDeletePrevWord, swap_chars, word_right, word_left, clirClearScreen,
    drop_newest, clirEditHistoryNext, clirEditInsert, completeWord, store, memmove.
  repeat apply conj;
    lazymatch goal with |- forall _, goes_on _ => intros ? | |- _ => idtac end; go.
Qed.

Lemma rl_goes_on {A} (m : M Z A) : goes_on m -> returns_len m.
Proof. intros H s. destruct (H s) as [a Ha]. by destruct (m s) as [[|] ?]. Qed.

Lemma rl_bind {A B} (m : M Z A) (k : A -> M Z B) :
  returns_len m -> (forall a, returns_len (k a)) -> returns_len (m ≫= k).
Proof.
  intros Hm Hk s. unfold mbind, M_bind. specialize (Hm s).
  destruct (m s) as [[a|r] s1]; [apply Hk|done].
Qed.

Lemma rl_leave_fail {A} : returns_len (leave (-1) : M Z A).
Proof. intros s. by left. Qed.

Lemma rl_leave_len {A} : returns_len (cs ← gets st; leave (s32 (len cs)) : M Z A).
Proof. intros s. by right. Qed.

Ltac rl_step :=
  lazymatch goal with
  | |- returns_len (leave (-1)) => apply rl_leave_fail
  | |- returns_len (mbind (fun cs => leave (s32 (len cs))) (gets st)) => apply rl_leave_len
  | |- returns_len (mbind _ _) => apply rl_bind; [|intros ?]
  | |- returns_len (let _ := _ in _) => cbv zeta
  | |- returns_len (if ?b then _ else _) => destruct b
  | |- returns_len (match ?x with _ => _ end) => destruct x
  | |- returns_len _ =>
      first [ solve [auto] | apply rl_goes_on; first [ solve [auto with go] | go ] ]
  end.
Ltac rl := repeat rl_step.

Lemma dispatch_returns_len c : returns_len (dispatch c).
Proof.
  destruct (@goes_on_handlers Z) as
    (? & ? & ? & ? & ? & ? & ? & ? & ? & ? & ? & ? & ?).
  assert (goes_on escape_sequence) by apply goes_on_call.
  unfold dispatch, self_insert. rl.
Qed.

Lemma clirEdit_turn_returns_len : returns_len clirEdit_turn.
Proof.
  destruct (@goes_on_handlers Z) as
    (? & ? & ? & ? & ? & ? & ? & ? & ? & ? & ? & ? & ?).
  pose proof dispatch_returns_len.
  unfold clirEdit_turn. rl.
Qed.

Lemma clirEdit_loop_returns_len fuel : returns_len (clirEdit_loop fuel).
Proof.
  induction fuel as [|fuel IH]; simpl; [apply rl_goes_on, goes_on_ret|].
  apply rl_bind; [apply clirEdit_turn_returns_len|by intros ?].
Qed.

(** A session on a finite input that makes no store outside the array
    returns, and what it returns is -1 or the length of the line, as an
    [int]. *)
Theorem clirEdit_returns_length
    (fd0 : Z) (a : list ascii) (buflen0 : Z) (prompt0 : string) (s : Sys) :
  fault (world (snd (clirEdit fd0 a buflen0 prompt0 s))) = false ->
  exists r, fst (clirEdit fd0 a buflen0 prompt0 s) = Some r /\
            (r = -1 \/ r = s32 (len (st (snd (clirEdit fd0 a buflen0 prompt0 s))))).
Proof.
  intros _.
  destruct (clirEdit_returns fd0 a buflen0 prompt0 s) as [r Hr].
  exists r. split; [done|].
  assert (Hb : returns_len
            (clirEdit_body fd0 a buflen0 prompt0 (S (length (input (world s)))))).
  { pose proof (clirEdit_loop_returns_len (S (length (input (world s))))).
    unfold clirEdit_body. generalize (S (length (input (world s)))) H. intros fuel Hl.
    unfold store. rl. all: try done. }
  specialize (Hb s). unfold clirEdit in Hr |- *.
  destruct (clirEdit_body _ _ _ _ _ s) as [[?|r'] s1]; simpl in *; [done|].
  by injection Hr as ->.
Qed.

Lemma clirEdit_returns_length_witness :
  let run := clirEdit 0 (replicate 16 "x"%char) 16 "hello> "
               (boot 0 (Some completion) history_init (terminal ("ls" +:+ ENTER) [] 80)) in
  fault (world (snd run)) = false /\
  exists r, fst run = Some r /\ (r = -1 \/ r = s32 (len (st (snd run)))).
Proof.
  split; [vm_compute; reflexivity|].
  apply (clirEdit_returns_length 0 (replicate 16 "x"%char) 16 "hello> "
           (boot 0 (Some completion) history_init (terminal ("ls" +:+ ENTER) [] 80))).
  vm_compute. reflexivity.
Defined.

End SessionFacts.

(** ** How a session ends, and what it never touches *)

Module TurnFacts.
Import Hist Edit Vocab EditFacts LineFacts SessionFacts.

#[local] Hint Resolve goes_on_write goes_on_read goes_on_refreshLine : go.

#[local] Hint Resolve insert_rest_goes_on print_valid_goes_on clirEditInsert_goes_on : go.

(** The only ways a turn of the edit loop ends the session: the input is
    at its end or fails, Enter, ctrl-c, ctrl-d on an empty line, and a
    self-inserted character whose echo fails.  No other key, and no
    completion, makes [clirEdit] return. *)
Theorem turn_ends_session_only_on (s : Sys) (r : Z) :
  fst (clirEdit_turn s) = Ret r ->
  match input (world s) with
  | [] | ReadError :: _ => r = s32 (len (st s))
  | Key c :: _ =>
      (schar c = 13 /\ r = s32 (len (st s))) \/
      (schar c = 3 /\ r = -1) \/
      (schar c = 4 /\ len (st s) <= 0 /\ r = -1) \/
      (dispatch c = self_insert c /\ r = -1 /\
       fast_path s = true /\ next_write_fails s = true)
  end.
Proof.
  destruct (@goes_on_handlers Z) as
    (? & ? & ? & ? & ? & ? & ? & ? & ? & ? & ? & ? & ?).
  assert (goes_on escape_sequence) by apply goes_on_call.
  unfold clirEdit_turn. unfold mbind at 1, M_bind at 1.
  destruct (input (world s)) as [|[c|] rest] eqn:Ein.
  - unfold read. rewrite Ein. simpl. by intros [= <-].
  - rewrite (read_key c rest s Ein). cbv beta iota.
    set (s1 := with_world (set_input rest) s).
    unfold mbind at 1 2, M_bind at 1 2, gets. simpl.
    unfold mbind at 1, M_bind at 1. simpl.
    match goal with |- context [if ?b then _ else dispatch c] => destruct b end.
    + unfold mbind, M_bind.
      destruct (@completeWord_value Z s1) as (v & Hv & Hv01).
      destruct (completeWord s1) as [[v'|?] s2]; simpl in Hv; [|done].
      injection Hv as ->.
      destruct Hv01 as [-> | ->]; simpl; [done|].
      intros Hr. exfalso. revert Hr. by apply goes_on_value, goes_on_refreshLine.
    + intros Hr.
      assert (Hlen : len (st s1) = len (st s)) by done.
      assert (Hfp : fast_path s1 = fast_path s) by done.
      assert (Hnw : next_write_fails s1 = next_write_fails s) by done.
      clearbody s1.
      assert (Hdef : dispatch c = self_insert c ->
                r = -1 /\ fast_path s = true /\ next_write_fails s = true).
      { intros Hd. rewrite Hd, self_insert_value, Hfp, Hnw in Hr.
        destruct (fast_path s); destruct (next_write_fails s); simpl in Hr; try done.
        by injection Hr as <-. }
      revert Hr Hdef. unfold dispatch, store.
      remember (schar c) as z eqn:Ez.
      repeat match goal with
             | |- context [match ?p with _ => _ end] =>
                 first [ is_var p | fail 1 ]; destruct p
             end;
        intros Hr Hdef;
        first [ right; right; right; split; [reflexivity|by apply Hdef]
              | exfalso; revert Hr; apply goes_on_value; go; fail
              | idtac ].
      * left. split; [done|]. simpl in Hr. injection Hr as <-. by rewrite <- Hlen.
      * right. left. split; [done|]. simpl in Hr. by injection Hr as <-.
      * right. right. left. split; [done|].
        unfold mbind, M_bind, gets in Hr. cbv beta iota in Hr. rewrite <- Hlen.
        destruct (Z.gtb_spec (len (st s1)) 0).
        -- exfalso. revert Hr. by apply goes_on_value.
        -- split; [lia|]. simpl in Hr. by injection Hr as <-.
  - unfold read. rewrite Ein. simpl. by intros [= <-].
Qed.

Lemma turn_ends_session_only_on_witness :
  let s := after_typing "ls" ENTER in
  match input (world s) with
  | [] | ReadError :: _ => 2 = s32 (len (st s))
  | Key c :: _ =>
      (schar c = 13 /\ 2 = s32 (len (st s))) \/
      (schar c = 3 /\ 2 = -1) \/
      (schar c = 4 /\ len (st s) <= 0 /\ 2 = -1) \/
      (dispatch c = self_insert c /\ 2 = -1 /\
       fast_path s = true /\ next_write_fails s = true)
  end.
Proof.
  apply (turn_ends_session_only_on (after_typing "ls" ENTER) 2).
  reflexivity.
Defined.


Lemma dispatch_enter c :
  schar c = 13 -> dispatch c = (drop_newest;; cs ← gets st; leave (s32 (len cs))).
Proof. intros H. unfold dispatch. by rewrite H. Qed.

Lemma dispatch_interrupt c : schar c = 3 -> dispatch c = leave (-1).
Proof. intros H. unfold dispatch. by rewrite H. Qed.

Lemma dispatch_eof c :
  schar c = 4 ->
  dispatch c = (cs ← gets st;
                if len cs >? 0 then clirEditDelete else drop_newest;; leave (-1)).
Proof. intros H. unfold dispatch. by rewrite H. Qed.

Lemma turn_dispatches c rest s :
  input (world s) = Key c :: rest -> schar c <> 9 ->
  clirEdit_turn s = dispatch c (with_world (set_input rest) s).
Proof.
  intros Hin Hc. unfold clirEdit_turn. unfold mbind at 1, M_bind at 1.
  rewrite (read_key c rest s Hin). cbv beta iota.
  unfold mbind at 1 2, M_bind at 1 2, gets. simpl.
  destruct (Z.eqb_spec (schar c) 9); [done|]. done.
Qed.

(** The keys that end a session, whatever the state: Enter returns the
    length and drops the placeholder from the history; ctrl-c returns -1
    and leaves everything, the placeholder too, as it is; ctrl-d on an
    empty line returns -1 and drops the placeholder.  None of them writes
    to the terminal or touches the buffer.  At the end of the input the
    length is returned and the placeholder stays. *)
Theorem turn_exit_paths (s : Sys) (c : ascii) (rest : list input_item) :
  let s1 := with_world (set_input rest) s in
  let dropped :=
    with_hist (fun h => mkHistory (history h) (history_len h - 1) (history_max_len h)) s1 in
  (input (world s) = [] -> clirEdit_turn s = (Ret (s32 (len (st s))), s)) /\
  (input (world s) = Key c :: rest ->
   (schar c = 13 -> clirEdit_turn s = (Ret (s32 (len (st s))), dropped)) /\
   (schar c = 3 -> clirEdit_turn s = (Ret (-1), s1)) /\
   (schar c = 4 -> len (st s) <= 0 -> clirEdit_turn s = (Ret (-1), dropped))).
Proof.
  intros s1 dropped. split.
  - intros Hin. unfold clirEdit_turn, mbind, M_bind, read. rewrite Hin. done.
  - intros Hin. repeat split.
    + intros Hc. rewrite (turn_dispatches c rest s Hin) by lia.
      by rewrite (dispatch_enter c Hc).
    + intros Hc. rewrite (turn_dispatches c rest s Hin) by lia.
      by rewrite (dispatch_interrupt c Hc).
    + intros Hc Hl. rewrite (turn_dispatches c rest s Hin) by lia.
      rewrite (dispatch_eof c Hc). unfold mbind, M_bind, gets. cbv beta iota.
      change (len (st (with_world (set_input rest) s))) with (len (st s)).
      by destruct (Z.gtb_spec (len (st s)) 0); [lia|].
Qed.

Lemma turn_exit_paths_witness :
  let drop1 := fun h => mkHistory (history h) (history_len h - 1) (history_max_len h) in
  (let s := after_typing "ls" "" in
   clirEdit_turn s = (Ret (s32 (len (st s))), s)) /\
  (let s := after_typing "ls" ENTER in
   clirEdit_turn s = (Ret (s32 (len (st s))), with_hist drop1 (with_world (set_input []) s))) /\
  (let s := after_typing "ls" CTRL_C in
   clirEdit_turn s = (Ret (-1), with_world (set_input []) s)) /\
  (let s := after_typing "" (String "004" EmptyString) in
   clirEdit_turn s = (Ret (-1), with_hist drop1 (with_world (set_input []) s))).
Proof.
  intros drop1. split; [|split; [|split]]; cbv zeta.
  - destruct (turn_exit_paths (after_typing "ls" "") "a" []) as [H _].
    apply H. reflexivity.
  - destruct (turn_exit_paths (after_typing "ls" ENTER) "013" []) as [_ H].
    destruct H as (H & _ & _); [reflexivity|]. apply H. reflexivity.
  - destruct (turn_exit_paths (after_typing "ls" CTRL_C) "003" []) as [_ H].
    destruct H as (_ & H & _); [reflexivity|]. apply H. reflexivity.
  - destruct (turn_exit_paths (after_typing "" (String "004" EmptyString)) "004" []) as [_ H].
    destruct H as (_ & _ & H); [reflexivity|]. apply H; [reflexivity|].
    vm_compute. discriminate.
Defined.

(** When the write of the prompt fails, [clirEdit] returns -1 at once: no
    input is taken, and the empty placeholder it has just added stays in
    the history. *)
Theorem clirEdit_prompt_write_fails
    (fd0 : Z) (a : list ascii) (buflen0 : Z) (prompt0 : string) (s : Sys) :
  next_write_fails s = true ->
  let s' := snd (clirEdit fd0 a buflen0 prompt0 s) in
  fst (clirEdit fd0 a buflen0 prompt0 s) = Some (-1) /\
  input (world s') = input (world s) /\
  hist s' = snd (clirHistoryAdd EmptyString (hist s)).
Proof.
  intros Hw. unfold next_write_fails in Hw.
  destruct (write_fails (world s)) as [|[] fails] eqn:Ef; try done.
  unfold clirEdit, clirEdit_body, mbind, M_bind, gets, store, modify.
  cbv beta iota zeta.
  match goal with
  | |- context [@write ?T ?d ?x] =>
      assert (Hx : write_fails (world x) = true :: fails)
        by (cbn [with_hist world]; by rewrite (proj1 (proj2 (poke_frame _ _ _))));
      assert (Hi : input (world x) = input (world s))
        by (cbn [with_hist world]; by rewrite poke_input);
      assert (Hh : hist x = snd (clirHistoryAdd EmptyString (hist s)))
        by (cbn [with_hist hist]; unfold poke; by destruct (_ && _));
      set (x0 := x) in *; clearbody x0
  end.
  unfold write. rewrite Hx. simpl. done.
Qed.

Lemma clirEdit_prompt_write_fails_witness :
  let s := boot 0 None history_init (terminal "ls" [true] 80) in
  let s' := snd (clirEdit 0 (replicate 16 "x"%char) 16 "hello> " s) in
  fst (clirEdit 0 (replicate 16 "x"%char) 16 "hello> " s) = Some (-1) /\
  input (world s') = input (world s) /\
  hist s' = snd (clirHistoryAdd EmptyString (hist s)).
Proof.
  apply (clirEdit_prompt_write_fails 0 (replicate 16 "x"%char) 16 "hello> "
           (boot 0 None history_init (terminal "ls" [true] 80))).
  reflexivity.
Defined.


(** *** What a session never changes *)

#[export] Instance same_frame_preorder : PreOrder same_frame.
Proof. split; [by intros ?|]. intros x y z. unfold same_frame. congruence. Qed.

#[local] Hint Extern 1 (same_frame _ _) => exact eq_refl : pres.

Lemma same_edit_frame {R A} (m : M R A) : preserves same_edit m -> preserves same_frame m.
Proof.
  intros H s. specialize (H s). unfold same_edit in H. unfold same_frame.
  change (frame s) with (frame (core s)).
  change (frame (snd (m s))) with (frame (core (snd (m s)))). by rewrite H.
Qed.

Lemma store_frame {R} i c : preserves same_frame (@store R i c).
Proof.
  intros s. unfold same_frame, frame, store, modify. simpl.
  rewrite poke_size. unfold poke. by destruct (_ && _).
Qed.

Lemma memmove_frame {R} d sr n : preserves same_frame (@memmove R d sr n).
Proof.
  intros s. unfold same_frame, frame, memmove, modify, move_bytes, memmove_buf. simpl.
  destruct (Z.leb_spec 0 d); [|done]. destruct (Z.leb_spec 0 sr); [|done].
  destruct (Z.leb_spec (d + u64 n) (Z.of_nat (length (buf (st s))))); [|done].
  destruct (Z.leb_spec (sr + u64 n) (Z.of_nat (length (buf (st s))))); [|done].
  assert (0 <= u64 n) by (unfold u64; apply Z.mod_pos_bound; lia).
  simpl.
  match goal with
  | |- context [length (?x ++ ?y)] =>
      replace (length (x ++ y)) with (length (buf (st s))) by (look; lia)
  end. done.
Qed.

Lemma strncpy_frame {R} src n : preserves same_frame (@strncpy R src n).
Proof.
  intros s. unfold same_frame, frame, strncpy, modify, copy_string, strncpy_buf. simpl.
  destruct (Z.leb_spec 0 n); [|done].
  destruct (Z.leb_spec n (Z.of_nat (length (buf (st s))))); [|done].
  simpl.
  match goal with
  | |- context [length (?x ++ ?y)] =>
      replace (length (x ++ y)) with (length (buf (st s)))
        by (look; rewrite length_replicate; lia)
  end. done.
Qed.

Lemma write_frame {R} d : preserves same_frame (@write R d).
Proof. apply same_edit_frame, write_same_edit. Qed.

Lemma read_frame {R} n : preserves same_frame (@read R n).
Proof.
  intros s. unfold read.
  destruct (input (world s)) as [|[c|] rest] eqn:E; simpl; rewrite ?E; simpl; try done.
  by destruct (take_keys n (Key c :: rest)).
Qed.

Lemma refreshLine_frame {R} : preserves same_frame (@refreshLine R).
Proof. apply same_edit_frame, refreshLine_same_edit. Qed.
#[local] Hint Resolve store_frame memmove_frame strncpy_frame write_frame read_frame
  refreshLine_frame : pres.

Lemma clirEditInsert_frame {R} c : preserves same_frame (@clirEditInsert R c).
Proof. unfold clirEditInsert. pres. Qed.
#[local] Hint Resolve clirEditInsert_frame : pres.

Lemma insert_rest_frame {R} rest : preserves same_frame (@insert_rest R rest).
Proof. induction rest; simpl; pres. Qed.

Lemma print_valid_frame {R} l : preserves same_frame (@print_valid R l).
Proof. induction l; simpl; unfold printf; pres. Qed.
#[local] Hint Resolve insert_rest_frame print_valid_frame : pres.

Lemma clirEdit_turn_frame : preserves same_frame clirEdit_turn.
Proof.
  unfold clirEdit_turn, completeWord, clirBeep, printf,
    dispatch, self_insert, escape_sequence, clirEditBackspace, clirEditDelete,
    swap_chars, clirEditMoveLeft, clirEditMoveRight, clirEditHistoryNext,
    clirEditDeletePrevWord, clirClearScreen, drop_newest, word_left, word_right.
  pres.
Qed.
#[local] Hint Resolve clirEdit_turn_frame : pres.

Lemma clirEdit_loop_frame fuel : preserves same_frame (clirEdit_loop fuel).
Proof. induction fuel; simpl; pres. Qed.

(** A session works to its end with what [clirEdit] set up at its start:
    the prompt, the capacity, the array and its size, the mode and the
    producer stay, and so does the column count, which is read from the
    terminal once and is never zero. *)
Theorem session_keeps_frame
    (fd0 : Z) (a : list ascii) (buflen0 : Z) (prompt0 : string) (s : Sys) :
  let s' := snd (clirEdit fd0 a buflen0 prompt0 s) in
  frame s' = (fd0, prompt0, strlen prompt0, getColumns (world s), buflen0, length a,
              mlmode s, completionCallback s) /\
  1 <= cols (st s') < 2 ^ 16.
Proof.
  intros s'.
  assert (Hf : frame s' = (fd0, prompt0, strlen prompt0, getColumns (world s), buflen0,
                           length a, mlmode s, completionCallback s)).
  { subst s'. rewrite clirEdit_state.
    set (fuel := S (length (input (world s)))). clearbody fuel.
    unfold clirEdit_body.
    unfold mbind at 1 2, M_bind at 1 2, gets, modify at 1. cbv beta iota.
    match goal with
    | |- frame (snd (?k ?x)) = _ =>
        assert (Hk : preserves same_frame k)
          by (pose proof (clirEdit_loop_frame fuel); pres);
        rewrite <- (Hk x)
    end.
    reflexivity. }
  split; [done|].
  assert (Hc : cols (st s') = getColumns (world s)) by (unfold frame in Hf; congruence).
  rewrite Hc. apply getColumns_positive.
Qed.

End TurnFacts.

(** ** Completion *)

Module CompletionFacts.
Import Hist Edit Vocab EditFacts LineFacts SessionFacts TurnFacts.

Lemma text_length s : sane s -> length (text s) = Z.to_nat (len (st s)).
Proof. intros Hs. pose proof (sane_size _ Hs). unfold text. rewrite length_take. lia. Qed.

(** The characters of a string, inserted one by one at the cursor. *)
Lemma insert_rest_text {R} (rest : string) : forall s,
  sane s ->
  len (st s) + strlen rest <= buflen (st s) ->
  len (st s) + strlen rest < Z.of_nat (length (buf (st s))) ->
  let s' := snd (@insert_rest R rest s) in
  sane s' /\
  text s' = take (Z.to_nat (pos (st s))) (text s) ++ list_ascii_of_string rest
            ++ drop (Z.to_nat (pos (st s))) (text s) /\
  pos (st s') = pos (st s) + strlen rest /\
  len (st s') = len (st s) + strlen rest /\
  frame s' = frame s /\
  fst (@insert_rest R rest s) = Go tt.
Proof.
  induction rest as [|c rest IH]; intros s Hs Hroom Hsize.
  - simpl. unfold strlen. simpl. rewrite take_drop.
    split; [done|]. split; [done|]. split; [lia|]. split; [lia|]. done.
  - cbn [insert_rest]. unfold mbind, M_bind.
    unfold strlen in Hroom, Hsize. cbn [String.length] in Hroom, Hsize.
    destruct (@clirEditInsert_text R c s Hs ltac:(lia) ltac:(lia)) as (Hs1 & Ht1 & Hp1).
    pose proof (@clirEditInsert_frame R c s) as Hfr.
    destruct (@clirEditInsert_goes_on R c s) as [v Hv].
    assert (Hl1 : len (st (snd (@clirEditInsert R c s))) = len (st s) + 1).
    { pose proof (text_length _ Hs1) as H1. pose proof (text_length _ Hs) as H0.
      rewrite Ht1, length_app, length_cons, length_take, length_drop in H1.
      destruct Hs as ((? & ?) & _). destruct Hs1 as ((? & ?) & _). lia. }
    destruct (@clirEditInsert R c s) as [[v'|?] s1]; simpl in Hv; [|done].
    cbn [fst snd] in *.
    assert (Hb : buflen (st s1) = buflen (st s) /\
                 length (buf (st s1)) = length (buf (st s)))
      by (unfold same_frame, frame in Hfr; split; congruence).
    destruct Hb as [Hb1 Hb2].
    destruct (IH s1 Hs1) as (Hs2 & Ht2 & Hp2 & Hl2 & Hf2 & Hv2);
      [unfold strlen; lia|unfold strlen; lia|].
    split; [done|]. split; [|split; [|split; [|split]]].
    + rewrite Ht2, Ht1, Hp1.
      pose proof (text_length _ Hs) as H0. destruct Hs as ((? & ?) & _).
      assert (Hlen : length (take (Z.to_nat (pos (st s))) (text s)) = Z.to_nat (pos (st s)))
        by (rewrite length_take; lia).
      replace (Z.to_nat (pos (st s) + 1)) with (Z.to_nat (pos (st s)) + 1)%nat by lia.
      rewrite take_app_add', drop_app_add' by done. simpl.
      rewrite take_0, drop_0, <- app_assoc. done.
    + unfold strlen in *. cbn [String.length]. lia.
    + unfold strlen in *. cbn [String.length]. lia.
    + rewrite Hf2. symmetry. exact Hfr.
    + done.
Qed.


(** With exactly one candidate that fits, and room for it, [completeWord]
    inserts at the cursor the candidate's characters from index [cs->pos]
    on, then a space, and returns 0. *)
Theorem completeWord_unique_match {R} (s : Sys) (cb : clirCompletionCallback)
    (cand rest : string) :
  completionCallback s = Some cb ->
  valid_candidates cb s = [cand] ->
  skip (Z.to_nat (pos (st s))) cand = Some rest ->
  sane s ->
  len (st s) + strlen rest + 1 <= buflen (st s) ->
  len (st s) + strlen rest + 1 < Z.of_nat (length (buf (st s))) ->
  let s' := snd (@completeWord R s) in
  fst (@completeWord R s) = Go 0 /\
  sane s' /\
  text s' = take (Z.to_nat (pos (st s))) (text s) ++ list_ascii_of_string rest
            ++ SPACE :: drop (Z.to_nat (pos (st s))) (text s) /\
  pos (st s') = pos (st s) + strlen rest + 1.
Proof.
  intros Hcb Hvalid Hskip Hs Hroom Hsize.
  unfold valid_candidates, line in Hvalid.
  unfold completeWord, call, mbind, M_bind, gets, modify.
  cbv beta iota zeta. rewrite Hcb. cbn [from_option].
  rewrite Hvalid. cbn [length last default from_option id].
  destruct (Z.eqb_spec (Z.of_nat (length (cb (cstr (buf (st s)))))) 0) as [He|_].
  { destruct (cb (cstr (buf (st s)))); [done|simpl in He; lia]. }
  change (Z.of_nat 1 =? 1) with true. cbv iota. rewrite Hskip.
  set (s0 := with_world (log (Completion (cstr (buf (st s))))) s).
  assert (Hs0 : sane s0) by done.
  destruct (@insert_rest_text Z rest s0 Hs0) as (Hs1 & Ht1 & Hp1 & Hl1 & Hf1 & Hv1);
    [subst s0; st_simpl; lia..|].
  destruct (@insert_rest Z rest s0) as [[[]|?] s1]; simpl in Hv1; [|done].
  cbn [fst snd] in *.
  assert (Hb : buflen (st s1) = buflen (st s) /\
               length (buf (st s1)) = length (buf (st s)))
    by (unfold frame in Hf1; subst s0; st_simpl; split; congruence).
  destruct Hb as [Hb1 Hb2].
  change (len (st s0)) with (len (st s)) in Hl1.
  change (pos (st s0)) with (pos (st s)) in Hp1, Ht1.
  change (text s0) with (text s) in Ht1.
  destruct (@clirEditInsert_text Z SPACE s1 Hs1 ltac:(lia) ltac:(lia)) as (Hs2 & Ht2 & Hp2).
  destruct (@clirEditInsert_goes_on Z SPACE s1) as [v Hv].
  destruct (@clirEditInsert Z SPACE s1) as [[v'|?] s2]; simpl in Hv; [|done].
  unfold mret, M_ret. cbn [fst snd] in *.
  split; [done|]. split; [done|]. split; [|lia].
  rewrite Ht2, Ht1, Hp1.
  pose proof (text_length _ Hs) as H0. destruct Hs as ((? & ?) & _).
  assert (Hlen : length (take (Z.to_nat (pos (st s))) (text s) ++ list_ascii_of_string rest)
                 = Z.to_nat (pos (st s) + strlen rest)).
  { rewrite length_app, length_take. unfold strlen.
    replace (length (list_ascii_of_string rest)) with (String.length rest); [lia|].
    clear. induction rest; simpl; congruence. }
  rewrite !app_assoc.
  rewrite take_app_length', drop_app_length' by done.
  by rewrite <- !app_assoc.
Qed.

Lemma completeWord_unique_match_witness :
  let s := after_typing "hel" "" in
  let s' := snd (@completeWord Z s) in
  fst (@completeWord Z s) = Go 0 /\
  sane s' /\
  text s' = take (Z.to_nat (pos (st s))) (text s) ++ list_ascii_of_string "lo"
            ++ SPACE :: drop (Z.to_nat (pos (st s))) (text s) /\
  pos (st s') = pos (st s) + strlen "lo" + 1.
Proof.
  apply (@completeWord_unique_match Z (after_typing "hel" "") completion "hello" "lo").
  - reflexivity.
  - reflexivity.
  - reflexivity.
  - vm_compute. repeat split; congruence.
  - vm_compute. discriminate.
  - reflexivity.
Defined.


Lemma skip_none (n : nat) (cand : string) :
  (String.length cand < n)%nat -> skip n cand = None.
Proof.
  revert n. induction cand as [|c cand IH]; intros [|n] H; simpl in *; try lia; [done|].
  apply IH. lia.
Qed.

(** A single candidate that is shorter than what is typed before the
    cursor is read beyond its terminator: [completeWord] takes the
    characters to insert from index [cs->pos] of the candidate. *)
Theorem completeWord_reads_past_candidate {R} (s : Sys) (cb : clirCompletionCallback)
    (cand : string) :
  completionCallback s = Some cb ->
  valid_candidates cb s = [cand] ->
  strlen cand < pos (st s) ->
  fault (world (snd (@completeWord R s))) = true.
Proof.
  intros Hcb Hvalid Hshort.
  assert (Hskip : skip (Z.to_nat (pos (st s))) cand = None)
    by (apply skip_none; unfold strlen in Hshort; lia).
  unfold valid_candidates, line in Hvalid.
  unfold completeWord, call, mbind, M_bind, gets, modify.
  cbv beta iota zeta. rewrite Hcb. cbn [from_option].
  rewrite Hvalid. cbn [length last default from_option id].
  destruct (Z.eqb_spec (Z.of_nat (length (cb (cstr (buf (st s)))))) 0) as [He|_].
  { destruct (cb (cstr (buf (st s)))); [done|simpl in He; lia]. }
  change (Z.of_nat 1 =? 1) with true. cbv iota. rewrite Hskip. cbv beta iota.
  match goal with
  | |- context [@clirEditInsert ?T ?c ?x] =>
      pose proof (@clirEditInsert_fault_le T c x eq_refl) as Hf;
      destruct (@clirEditInsert T c x) as [[?|?] ?]
  end; exact Hf.
Qed.

Lemma completeWord_reads_past_candidate_witness :
  fault (world (snd (@completeWord Z (after_typing "hix" "")))) = true.
Proof.
  apply (@completeWord_reads_past_candidate Z (after_typing "hix" "") completion "hi").
  - reflexivity.
  - reflexivity.
  - reflexivity.
Defined.

Lemma events_log e s : events (with_world (log e) s) = events s ++ [e].
Proof. done. Qed.

Lemma print_valid_prints {R} (l : list string) (s : Sys) :
  fst (@print_valid R l s) = Go tt /\
  logical (snd (@print_valid R l s)) = logical s /\
  events (snd (@print_valid R l s)) =
    events s ++ ((fun c => Printed (" '" +:+ c +:+ "'")) <$> l).
Proof.
  revert s. induction l as [|c l IH]; intros s.
  - simpl. by rewrite app_nil_r.
  - cbn [print_valid]. unfold mbind, M_bind, printf, modify. cbv beta iota.
    destruct (IH (with_world (log (Printed (" '" +:+ c +:+ "'"))) s)) as (H1 & H2 & H3).
    split; [done|]. split; [done|].
    rewrite H3, events_log, fmap_cons, <- app_assoc. done.
Qed.

(** Unless exactly one candidate fits, [completeWord] leaves the line and
    the cursor alone: with no candidate at all it beeps and returns 0,
    with none that fits it returns 0 in silence, and with more than one it
    prints them between two line breaks and returns 1. *)
Theorem completeWord_without_unique_match {R} (s : Sys) (cb : clirCompletionCallback) :
  completionCallback s = Some cb ->
  length (valid_candidates cb s) <> 1%nat ->
  let s' := snd (@completeWord R s) in
  let several := (1 <? length (valid_candidates cb s))%nat in
  logical s' = logical s /\
  fst (@completeWord R s) = Go (if several then 1 else 0) /\
  events s' = events s ++ Completion (line s) ::
    (if decide (cb (line s) = []) then [Beeped]
     else if several
          then Printed CRLF ::
               ((fun c => Printed (" '" +:+ c +:+ "'")) <$> valid_candidates cb s)
               ++ [Printed CRLF]
          else []).
Proof.
  intros Hcb Hvalid. cbv zeta. revert Hvalid.
  unfold valid_candidates, line.
  unfold completeWord, call, mbind, M_bind, gets, clirBeep, printf, modify.
  cbv beta iota zeta. rewrite Hcb. cbn [from_option].
  set (s0 := with_world (log (Completion (cstr (buf (st s))))) s).
  destruct (decide (cb (cstr (buf (st s))) = [])) as [He|Hne].
  - rewrite He. simpl. intros _. split; [done|]. split; [done|].
    rewrite events_log. unfold s0. rewrite events_log. by rewrite <- app_assoc.
  - destruct (Z.eqb_spec (Z.of_nat (length (cb (cstr (buf (st s)))))) 0) as [He|_].
    { destruct (cb (cstr (buf (st s)))); [done|simpl in He; lia]. }
    set (valid := List.filter _ _). intros Hvalid.
    destruct (Z.eqb_spec (Z.of_nat (length valid)) 1) as [|_]; [lia|].
    destruct (Z.gtb_spec (Z.of_nat (length valid)) 1) as [Hgt|Hle].
    + destruct (Nat.ltb_spec 1 (length valid)); [|lia].
      destruct (@print_valid_prints Z valid (with_world (log (Printed CRLF)) s0))
        as (H1 & H2 & H3).
      destruct (@print_valid Z valid (with_world (log (Printed CRLF)) s0)) as [[[]|?] s1];
        simpl in H1; [|done].
      cbn [fst snd] in *. unfold leave. cbn [fst snd].
      split; [done|]. split; [done|].
      rewrite events_log, H3, events_log. unfold s0. rewrite events_log.
      by rewrite <- !app_assoc.
    + destruct (Nat.ltb_spec 1 (length valid)); [lia|].
      unfold mret, M_ret. cbn [fst snd]. split; [done|]. split; [done|].
      unfold s0. by rewrite events_log.
Qed.

Lemma completeWord_without_unique_match_witness :
  let s := after_typing "he" "" in
  let s' := snd (@completeWord Z s) in
  let several := (1 <? length (valid_candidates completion s))%nat in
  logical s' = logical s /\
  fst (@completeWord Z s) = Go (if several then 1 else 0) /\
  events s' = events s ++ Completion (line s) ::
    (if decide (completion (line s) = []) then [Beeped]
     else if several
          then Printed CRLF ::
               ((fun c => Printed (" '" +:+ c +:+ "'")) <$> valid_candidates completion s)
               ++ [Printed CRLF]
          else []).
Proof.
  apply (@completeWord_without_unique_match Z (after_typing "he" "") completion).
  - reflexivity.
  - vm_compute. discriminate.
Defined.

End CompletionFacts.

(** ** The single-row redraw *)

Module RedrawFacts.
Import Hist Edit Vocab EditFacts LineFacts SessionFacts TurnFacts CompletionFacts.

(** The first loop of [refreshSingleLine] moves the window to the right
    just far enough for the cursor to be inside the row. *)
Lemma slide_spec (fuel : nat) (pl cols off l p : Z) :
  0 <= pl < cols -> 0 <= p <= l -> l + pl < 2 ^ 64 ->
  (Z.to_nat (pl + p) <= fuel)%nat ->
  slide fuel pl cols (off, l, p) =
  (off + Z.max 0 (pl + p - cols + 1), l - Z.max 0 (pl + p - cols + 1),
   p - Z.max 0 (pl + p - cols + 1)).
Proof.
  revert off l p. induction fuel as [|fuel IH]; intros off l p Hpl Hp Hl Hfuel.
  - cbn [slide]. rewrite u64_small by lia.
    destruct (Z.geb_spec (pl + p) cols); [lia|].
    rewrite Z.max_l by lia. f_equal; [f_equal|]; lia.
  - cbn [slide]. rewrite u64_small by lia.
    destruct (Z.geb_spec (pl + p) cols).
    + rewrite !u64_small by lia. rewrite IH by lia.
      rewrite !Z.max_r by lia. f_equal; [f_equal|]; lia.
    + rewrite Z.max_l by lia. f_equal; [f_equal|]; lia.
Qed.

(** The second loop cuts what does not fit the row. *)
Lemma trim_spec (fuel : nat) (pl cols l : Z) :
  0 <= pl -> 0 <= l -> l + pl < 2 ^ 64 -> pl <= cols ->
  (Z.to_nat (pl + l) <= fuel)%nat ->
  while fuel (fun l => u64 (pl + l) >? cols) (fun l => u64 (l - 1)) l
  = Z.min l (cols - pl).
Proof.
  revert l. induction fuel as [|fuel IH]; intros l Hpl Hl Hb Hc Hfuel.
  - cbn [while]. rewrite u64_small by lia.
    destruct (Z.gtb_spec (pl + l) cols); lia.
  - cbn [while]. rewrite u64_small by lia.
    destruct (Z.gtb_spec (pl + l) cols); [|lia].
    rewrite u64_small by lia. rewrite IH by lia. lia.
Qed.

Lemma write_or_return_ok (d : string) (s : Sys) :
  write_fails (world s) = [] ->
  write_or_return d s = (Go tt, with_world (log (Wrote d)) s).
Proof.
  intros H. unfold write_or_return, mbind, M_bind, write. rewrite H.
  cbn [tail]. unfold strlen.
  destruct (Z.eqb_spec (Z.of_nat (String.length d)) (-1)); [lia|].
  unfold mret, M_ret, with_world, log. destruct s as [? ? ? ? []]. simpl in *. by subst.
Qed.


(** On a terminal that takes every write and is wider than the prompt,
    [refreshSingleLine] writes five pieces: cursor to column 0, the
    prompt, a window of the line, erase to the end of the row, and the
    cursor column.  The window starts where the cursor still fits the
    row, is cut to what the row holds behind the prompt, and has the
    cursor inside it or at its end; the line itself is not changed. *)
Theorem refreshSingleLine_window {R} (s : Sys) :
  let cs := st s in
  let pl := strlen (prompt cs) in
  let off := Z.max 0 (pl + pos cs - cols cs + 1) in
  let shown := Z.min (len cs - off) (cols cs - pl) in
  pl < cols cs -> 0 <= pos cs <= len cs -> len cs + pl < 2 ^ 31 ->
  write_fails (world s) = [] ->
  events (snd (@refreshSingleLine R s)) =
    events s ++ [Wrote (ESC +:+ "[0G"); Wrote (prompt cs); Wrote (slice (buf cs) off shown);
                 Wrote (ESC +:+ "[0K");
                 Wrote (ESC +:+ "[0G" +:+ ESC +:+ "[" +:+ dec (pl + pos cs - off) +:+ "C")] /\
  logical (snd (@refreshSingleLine R s)) = logical s /\
  off <= pos cs <= off + shown /\
  pl + shown <= cols cs /\
  pl + pos cs - off < cols cs.
Proof.
  intros cs pl off shown Hpl Hpos Hlen Hq.
  assert (Hpl0 : 0 <= pl) by (unfold pl, strlen; lia).
  split; [|split; [|lia]].
  - unfold refreshSingleLine, call. unfold mbind at 1, M_bind at 1, gets. cbv beta iota zeta.
    fold cs. fold pl.
    rewrite (u64_small (pl + pos cs)) by lia.
    rewrite slide_spec by lia. fold off.
    rewrite (u64_small (pl + (len cs - off))) by lia.
    rewrite trim_spec by lia. fold shown.
    rewrite (u64_small (pos cs - off + pl)) by lia.
    rewrite s32_small by lia.
    replace (pos cs - off + pl) with (pl + pos cs - off) by lia.
    unfold mbind, M_bind.
    rewrite write_or_return_ok by done.
    rewrite write_or_return_ok by done.
    rewrite write_or_return_ok by done.
    rewrite write_or_return_ok by done.
    rewrite write_or_return_ok by done.
    cbn [fst snd]. rewrite !events_log, <- !app_assoc. done.
  - assert (Hs : same_edit s (snd (@refreshSingleLine R s)))
      by apply refreshSingleLine_same_edit.
    symmetry. by apply same_edit_logical.
Qed.

Lemma refreshSingleLine_window_witness :
  let s := after_typing "ls -l" "" in
  let cs := st s in
  let pl := strlen (prompt cs) in
  let off := Z.max 0 (pl + pos cs - cols cs + 1) in
  let shown := Z.min (len cs - off) (cols cs - pl) in
  events (snd (@refreshSingleLine unit s)) =
    events s ++ [Wrote (ESC +:+ "[0G"); Wrote (prompt cs); Wrote (slice (buf cs) off shown);
                 Wrote (ESC +:+ "[0K");
                 Wrote (ESC +:+ "[0G" +:+ ESC +:+ "[" +:+ dec (pl + pos cs - off) +:+ "C")] /\
  logical (snd (@refreshSingleLine unit s)) = logical s /\
  off <= pos cs <= off + shown /\
  pl + shown <= cols cs /\
  pl + pos cs - off < cols cs.
Proof.
  apply (@refreshSingleLine_window unit (after_typing "ls -l" "")).
  - reflexivity.
  - vm_compute. split; discriminate.
  - reflexivity.
  - reflexivity.
Defined.

End RedrawFacts.

(** ** Walking through the history *)

Module NavFacts.
Import Hist Edit Vocab HistFacts EditFacts LineFacts SessionFacts TurnFacts.

Lemma cstr_app_nul (l r : list ascii) :
  Forall (fun c => c <> NUL) l -> cstr (l ++ NUL :: r) = string_of_list_ascii l.
Proof.
  induction 1 as [|c l Hc _ IH]; simpl; [done|].
  destruct (Ascii.eqb_spec c NUL); [done|]. by rewrite IH.
Qed.

Lemma cstr_nul_free (a : list ascii) : nul_free (cstr a).
Proof.
  unfold nul_free. induction a as [|c a IH]; simpl; [constructor|].
  destruct (Ascii.eqb_spec c NUL); simpl; [constructor|]. by constructor.
Qed.

Lemma length_chars (e : string) : length (list_ascii_of_string e) = String.length e.
Proof. induction e; simpl; congruence. Qed.

(** [strncpy(buf, src, n); buf[n-1] = '\0';] with a source shorter than
    [n]: the array then reads back as the source. *)
Lemma strncpy_cstr (src : string) (n : Z) (a : list ascii) :
  nul_free src -> strlen src < n -> n <= Z.of_nat (length a) ->
  cstr (<[Z.to_nat (n - 1) := NUL]>
          (take (Z.to_nat n) (list_ascii_of_string src ++ replicate (Z.to_nat n) NUL)
           ++ drop (Z.to_nat n) a)) = src.
Proof.
  intros Hfree Hlen Hn. unfold strlen in Hlen.
  pose proof (length_chars src) as Hk.
  rewrite take_app_ge by lia.
  rewrite take_replicate.
  rewrite list_insert_id.
  - replace ((Z.to_nat n - length (list_ascii_of_string src)) `min` Z.to_nat n)%nat
      with (S (Z.to_nat n - 1 - String.length src)) by lia.
    cbn [replicate]. rewrite <- !app_assoc. cbn [app].
    rewrite cstr_app_nul by done. apply string_of_list_ascii_of_string.
  - rewrite <- app_assoc. rewrite lookup_app_r by lia.
    rewrite lookup_app_l by (rewrite length_replicate; lia).
    apply lookup_replicate_2. lia.
Qed.

Lemma slot_set_slot_ne (i j : Z) (v : string) (h : History) :
  0 <= i -> 0 <= j -> i <> j -> slot (set_slot i v h) j = slot h j.
Proof.
  intros Hi Hj Hne. unfold slot, set_slot, slots.
  destruct (Z.ltb_spec i 0); [lia|]. destruct (Z.ltb_spec j 0); [lia|].
  cbn [history]. destruct (history h) as [a|]; simpl; [|done].
  rewrite list_lookup_insert_ne by lia. done.
Qed.

Lemma slot_set_slot_eq (i : Z) (v : string) (h : History) (a : list (option string)) :
  history h = Some a -> 0 <= i < Z.of_nat (length a) ->
  slot (set_slot i v h) i = Some v.
Proof.
  intros Ha Hi. unfold slot, set_slot, slots.
  destruct (Z.ltb_spec i 0); [lia|].
  cbn [history]. rewrite Ha. simpl.
  rewrite list_lookup_insert_eq by lia. done.
Qed.

Lemma set_slot_same (i : Z) (v : string) (h : History) :
  slot h i = Some v -> set_slot i v h = h.
Proof.
  unfold slot, set_slot, slots. destruct (Z.ltb_spec i 0); [done|].
  destruct h as [[a|] l m]; simpl; [|done].
  intros Hv. f_equal. f_equal. apply list_insert_id.
  destruct (a !! Z.to_nat i) as [[x|]|]; simpl in Hv; congruence.
Qed.


(** One step through the history that lands on an entry: the line being
    edited is put into the slot it came from, and the buffer takes the
    entry, with the cursor at its end. *)
Lemma history_step {R} (dir : Z) (s : Sys) (E : string) (a : list (option string)) :
  let h := hist s in
  let idx := history_index (st s) + (if dir =? LINENOISE_HISTORY_PREV then 1 else -1) in
  history h = Some a -> 2 <= history_len h <= Z.of_nat (length a) ->
  0 <= history_index (st s) < history_len h -> 0 <= idx < history_len h ->
  slot h (history_len h - 1 - idx) = Some E -> nul_free E ->
  strlen E < buflen (st s) -> buflen (st s) <= Z.of_nat (length (buf (st s))) ->
  let s' := snd (@clirEditHistoryNext R dir s) in
  line s' = E /\ len (st s') = strlen E /\ pos (st s') = strlen E /\
  history_index (st s') = idx /\
  hist s' = set_slot (history_len h - 1 - history_index (st s)) (line s) h /\
  buflen (st s') = buflen (st s) /\
  length (buf (st s')) = length (buf (st s)) /\
  fault (world s') = fault (world s).
Proof.
  intros h idx Ha Hlen Hidx0 Hidx Hslot Hfree HE Hbuf.
  assert (Hstr : 0 <= strlen E) by (unfold strlen; lia).
  unfold clirEditHistoryNext, call, mbind, M_bind, gets, store, strncpy, modify, leave.
  fold h. destruct (Z.gtb_spec (history_len h) 1); [|lia]. cbv zeta beta. fold idx.
  destruct (Z.ltb_spec idx 0); [lia|].
  destruct (Z.geb_spec idx (history_len h)); [lia|].
  cbv beta.
  assert (Hne : history_len h - 1 - history_index (st s) <> history_len h - 1 - idx).
  { unfold idx. destruct (dir =? LINENOISE_HISTORY_PREV); lia. }
  cbn [with_st with_hist hist st].
  assert (Hl' : history_len (set_slot (history_len h - 1 - history_index (st s))
                                      (cstr (buf (st s))) h) = history_len h).
  { unfold set_slot. by destruct (_ <? 0). }
  fold h. rewrite Hl'. rewrite slot_set_slot_ne by lia. rewrite Hslot.
  cbn [default from_option id].
  rewrite copy_string_in by (st_simpl; lia). st_simpl.
  rewrite poke_in by (st_simpl; look; rewrite length_replicate; lia). st_simpl.
  rewrite strncpy_cstr by (done || lia).
  match goal with
  | |- context [@refreshLine ?T ?x] =>
      pose proof (@refreshLine_same_edit T x) as Hw; unfold preserves in Hw;
      destruct (@refreshLine T x) as [[?|?] s1]; cbn [fst snd] in Hw |- *;
      transport Hw s1 x
  end.
  all: unfold line; st_simpl; rewrite strncpy_cstr by (done || lia);
    repeat split; try done; look; rewrite length_replicate; lia.
Qed.


(** From the line being edited, one step back in the history and one step
    forward again: the step back shows the entry before, with the cursor
    at its end; the step forward brings the edited line back, the cursor
    at its end; and the history is as before, except that the newest slot
    now holds the edited line. *)
Theorem history_prev_next_round_trip {R} (s : Sys) (E : string) :
  wf (hist s) -> 2 <= history_len (hist s) -> history_index (st s) = 0 ->
  slot (hist s) (history_len (hist s) - 2) = Some E -> nul_free E ->
  strlen E < buflen (st s) -> strlen (line s) < buflen (st s) ->
  buflen (st s) <= Z.of_nat (length (buf (st s))) ->
  let s1 := snd (@clirEditHistoryNext R LINENOISE_HISTORY_PREV s) in
  let s2 := snd (@clirEditHistoryNext R LINENOISE_HISTORY_NEXT s1) in
  (line s1 = E /\ len (st s1) = strlen E /\ pos (st s1) = strlen E /\
   history_index (st s1) = 1) /\
  (line s2 = line s /\ len (st s2) = strlen (line s) /\ pos (st s2) = strlen (line s) /\
   history_index (st s2) = 0) /\
  hist s2 = set_slot (history_len (hist s) - 1) (line s) (hist s).
Proof.
  intros Hw Hlen Hidx HE Hfree HEb HLb Hsize s1 s2.
  destruct (history (hist s)) as [a|] eqn:Ha;
    [|pose proof (wf_null _ Hw Ha); lia].
  pose proof (wf_size _ Hw a Ha) as Hsz. pose proof (wf_len _ Hw) as Hl.
  pose proof (@history_step R LINENOISE_HISTORY_PREV s E a) as Hstep.
  cbv zeta in Hstep. rewrite Hidx in Hstep.
  change (LINENOISE_HISTORY_PREV =? LINENOISE_HISTORY_PREV) with true in Hstep.
  cbv iota in Hstep.
  replace (history_len (hist s) - 1 - (0 + 1)) with (history_len (hist s) - 2)
    in Hstep by lia.
  destruct Hstep as (H1 & H2 & H3 & H4 & H5 & H6 & H7 & _);
    [done|lia|lia|lia|done|done|done|done|].
  fold s1 in H1, H2, H3, H4, H5, H6, H7.
  rewrite Z.sub_0_r in H5. change (0 + 1) with 1 in H4.
  assert (Hl1 : history_len (hist s1) = history_len (hist s))
    by (rewrite H5; unfold set_slot; by destruct (_ <? 0)).
  assert (Ha1 : history (hist s1)
                = Some (<[Z.to_nat (history_len (hist s) - 1) := Some (line s)]> a)).
  { rewrite H5. unfold set_slot. destruct (Z.ltb_spec (history_len (hist s) - 1) 0); [lia|].
    cbn [history]. by rewrite Ha. }
  destruct (@history_step R LINENOISE_HISTORY_NEXT s1 (line s) _ Ha1)
    as (K1 & K2 & K3 & K4 & K5 & _).
  - rewrite Hl1, length_insert. lia.
  - rewrite Hl1, H4. lia.
  - rewrite Hl1, H4. simpl. lia.
  - rewrite Hl1, H4, H5. simpl. rewrite Z.sub_0_r.
    apply (slot_set_slot_eq _ _ _ a); [done|lia].
  - apply cstr_nul_free.
  - by rewrite H6.
  - rewrite H6, H7. done.
  - fold s2 in K1, K2, K3, K4, K5.
    split; [done|]. rewrite H4 in K4. simpl in K4. split; [done|].
    rewrite K5, Hl1, H4, H1.
    replace (history_len (hist s) - 1 - 1) with (history_len (hist s) - 2) by lia.
    rewrite set_slot_same; [exact H5|]. rewrite H5, slot_set_slot_ne by lia. done.
Qed.

Lemma history_prev_next_round_trip_witness :
  let h := run_ops [Add "ls"; Add ""] history_init in
  let s := with_hist (fun _ => h) (after_typing "cd" "") in
  let s1 := snd (@clirEditHistoryNext unit LINENOISE_HISTORY_PREV s) in
  let s2 := snd (@clirEditHistoryNext unit LINENOISE_HISTORY_NEXT s1) in
  (line s1 = "ls" /\ len (st s1) = strlen "ls" /\ pos (st s1) = strlen "ls" /\
   history_index (st s1) = 1) /\
  (line s2 = line s /\ len (st s2) = strlen (line s) /\ pos (st s2) = strlen (line s) /\
   history_index (st s2) = 0) /\
  hist s2 = set_slot (history_len (hist s) - 1) (line s) (hist s).
Proof.
  apply (@history_prev_next_round_trip unit
           (with_hist (fun _ => run_ops [Add "ls"; Add ""] history_init)
                      (after_typing "cd" "")) "ls").
  - apply run_ops_wf, wf_init.
  - vm_compute. discriminate.
  - reflexivity.
  - reflexivity.
  - vm_compute. repeat constructor; discriminate.
  - reflexivity.
  - reflexivity.
  - vm_compute. discriminate.
Defined.

(** At the ends of the history, and with nothing to walk through: with at
    most one entry [clirEditHistoryNext] does nothing; a step forward
    from the newest line, or back from the oldest entry, leaves the line,
    the cursor and the terminal alone, but has already put the line into
    the slot it stands on. *)
Theorem history_boundaries {R} (dir : Z) (s : Sys) :
  let n := history_len (hist s) in
  let kept i := with_st (set_history_index i)
                  (with_hist (set_slot (n - 1 - history_index (st s)) (line s)) s) in
  (n <= 1 -> @clirEditHistoryNext R dir s = (Go tt, s)) /\
  (2 <= n -> history_index (st s) = 0 ->
   @clirEditHistoryNext R LINENOISE_HISTORY_NEXT s = (Go tt, kept 0)) /\
  (2 <= n -> history_index (st s) = n - 1 ->
   @clirEditHistoryNext R LINENOISE_HISTORY_PREV s = (Go tt, kept (n - 1))).
Proof.
  intros n kept. split; [|split].
  - intros Hn. unfold clirEditHistoryNext, call, mbind, M_bind, gets. fold n.
    by destruct (Z.gtb_spec n 1); [lia|].
  - intros Hn Hi.
    unfold clirEditHistoryNext, call, mbind, M_bind, gets, modify, leave. fold n.
    destruct (Z.gtb_spec n 1); [|lia]. cbv beta iota zeta.
    rewrite Hi. simpl. unfold kept. by rewrite Hi.
  - intros Hn Hi.
    unfold clirEditHistoryNext, call, mbind, M_bind, gets, modify, leave. fold n.
    destruct (Z.gtb_spec n 1); [|lia]. cbv beta iota zeta.
    rewrite Hi. change (LINENOISE_HISTORY_PREV =? LINENOISE_HISTORY_PREV) with true.
    cbv iota. destruct (Z.ltb_spec (n - 1 + 1) 0); [lia|].
    destruct (Z.geb_spec (n - 1 + 1) n); [|lia].
    cbv beta iota. unfold kept. by rewrite Hi.
Qed.

Lemma history_boundaries_witness :
  let h := run_ops [Add "ls"; Add ""] history_init in
  let s := with_hist (fun _ => h) (after_typing "cd" "") in
  let lone := after_typing "cd" "" in
  let oldest := with_st (set_history_index 1) s in
  @clirEditHistoryNext unit LINENOISE_HISTORY_PREV lone = (Go tt, lone) /\
  @clirEditHistoryNext unit LINENOISE_HISTORY_NEXT s
    = (Go tt, with_st (set_history_index 0) (with_hist (set_slot 1 "cd") s)) /\
  @clirEditHistoryNext unit LINENOISE_HISTORY_PREV oldest
    = (Go tt, with_st (set_history_index 1) (with_hist (set_slot 0 "cd") oldest)).
Proof.
  intros h s lone oldest. split; [|split].
  - apply (@history_boundaries unit LINENOISE_HISTORY_PREV lone). vm_compute. discriminate.
  - destruct (@history_boundaries unit LINENOISE_HISTORY_NEXT s) as (_ & H & _).
    apply H; [vm_compute; discriminate|reflexivity].
  - destruct (@history_boundaries unit LINENOISE_HISTORY_PREV oldest) as (_ & _ & H).
    apply H; [vm_compute; discriminate|reflexivity].
Defined.

End NavFacts.

(** ** Raw mode and the two ways [clir] reads a line *)

Module FrontFacts.
Import Hist Edit Persist Front Vocab EditFacts PersistFacts PersistMore LineFacts SessionFacts TurnFacts CompletionFacts NavFacts.

Lemma tcsetattr_ok t p :
  tcsetattr_fails p = [] ->
  tcsetattr t p = (0, mkProc (flush (unread_entering p) (sys p))
                             (stdin_isatty p) (env_TERM p) (stdin p) t
                             (tcgetattr_fails p) [] (tail (received p))
                             (orig_termios p) (rawmode p) (atexit_registered p)).
Proof. intros H. unfold tcsetattr. by rewrite H. Qed.

(** Bits that were cleared are clear, bits that were set are set. *)
Lemma land_lnot_clear x m a : Z.land a m = a -> Z.land (Z.land x (Z.lnot m)) a = 0.
Proof.
  intros Ha. apply Z.bits_inj'. intros i Hi.
  rewrite !Z.land_spec, Z.lnot_spec, Z.bits_0 by done.
  assert (H : Z.testbit a i = Z.testbit (Z.land a m) i) by (by rewrite Ha).
  rewrite Z.land_spec in H.
  destruct (Z.testbit x i), (Z.testbit m i), (Z.testbit a i); done.
Qed.

Lemma lor_land_set x m : Z.land (Z.lor x m) m = m.
Proof.
  apply Z.bits_inj'. intros i Hi. rewrite Z.land_spec, Z.lor_spec.
  destruct (Z.testbit x i), (Z.testbit m i); done.
Qed.

Lemma land_lor_l a b : Z.land a (Z.lor a b) = a.
Proof.
  apply Z.bits_inj'. intros i Hi. rewrite Z.land_spec, Z.lor_spec.
  destruct (Z.testbit a i), (Z.testbit b i); done.
Qed.

Lemma land_lor_r a b : Z.land b (Z.lor a b) = b.
Proof.
  apply Z.bits_inj'. intros i Hi. rewrite Z.land_spec, Z.lor_spec.
  destruct (Z.testbit a i), (Z.testbit b i); done.
Qed.

Lemma land_lor_trans a m b : Z.land a m = a -> Z.land a (Z.lor m b) = a.
Proof.
  intros Ha. apply Z.bits_inj'. intros i Hi. rewrite Z.land_spec, Z.lor_spec.
  assert (H : Z.testbit a i = Z.testbit (Z.land a m) i) by (by rewrite Ha).
  rewrite Z.land_spec in H.
  destruct (Z.testbit a i), (Z.testbit m i), (Z.testbit b i); done.
Qed.

Ltac raw_bits :=
  repeat split; cbn [raw_of c_lflag c_oflag c_cflag];
  first [ reflexivity | apply lor_land_set
        | apply land_lnot_clear; auto using Z.land_diag, land_lor_l, land_lor_r, land_lor_trans ].

(** What [enableRawMode] does: it fails with -1 and leaves the terminal
    and [rawmode] as they were, or it returns 0, has saved the terminal's
    attributes in [orig_termios], set [rawmode], and switched off echo,
    canonical input, signal keys and output processing, with 8-bit
    characters on; the input that was received and not read is then
    gone.  It succeeds on a working terminal. *)
Theorem enableRawMode_outcome (K : termios_macros) (p : Proc) :
  let r := fst (enableRawMode K p) in
  let p' := snd (enableRawMode K p) in
  (on_terminal p -> r = 0) /\
  (r = -1 \/ r = 0) /\
  (r = -1 -> tty p' = tty p /\ rawmode p' = rawmode p /\ sys p' = sys p) /\
  (r = 0 ->
   rawmode p' = 1 /\ orig_termios p' = tty p /\ tty p' = raw_of K (tty p) /\
   Z.land (c_lflag (tty p')) (ECHO K) = 0 /\
   Z.land (c_lflag (tty p')) (ICANON K) = 0 /\
   Z.land (c_lflag (tty p')) (ISIG K) = 0 /\
   Z.land (c_oflag (tty p')) (OPOST K) = 0 /\
   Z.land (c_cflag (tty p')) (CS8 K) = CS8 K /\
   sys p' = flush (unread_entering p) (sys p)).
Proof.
  cbv zeta. unfold enableRawMode.
  destruct (stdin_isatty p) eqn:Etty; cbn [negb].
  2: { split; [intros (H & _); congruence|]. split; [by left|]. split; [done|]. by intros [=]. }
  set (p1 := if atexit_registered p =? 0 then set_atexit_registered 1 p else p).
  assert (Hp1 : tty p1 = tty p /\ rawmode p1 = rawmode p /\ sys p1 = sys p /\
                tcgetattr_fails p1 = tcgetattr_fails p /\
                tcsetattr_fails p1 = tcsetattr_fails p /\
                received p1 = received p)
    by (unfold p1; by destruct (_ =? 0)).
  destruct Hp1 as (Ht1 & Hr1 & Hs1 & Hg1 & Hf1 & Hq1). clearbody p1.
  destruct (tcgetattr_fails p1) eqn:Eget.
  { split; [intros (_ & H & _); congruence|]. split; [by left|]. split; [done|]. by intros [=]. }
  cbv zeta. unfold tcsetattr, unread_entering.
  cbn [tcsetattr_fails set_orig_termios orig_termios received sys].
  destruct (tcsetattr_fails p1) as [|[] rest] eqn:Eset; cbn [fst snd Z.ltb Z.compare].
  - split; [done|]. split; [by right|]. split; [by intros [=]|]. intros _.
    cbn [set_rawmode rawmode orig_termios tty sys]. rewrite Ht1, Hs1, Hq1.
    raw_bits.
  - split; [intros (_ & _ & H); congruence|]. split; [by left|].
    split; [done|]. by intros [=].
  - split; [done|]. split; [by right|]. split; [by intros [=]|]. intros _.
    cbn [set_rawmode rawmode orig_termios tty sys]. rewrite Ht1, Hs1, Hq1.
    raw_bits.
Qed.


Lemma enableRawMode_outcome_witness :
  on_terminal (console (Some "xterm") "hi" [] [1%nat]) /\
  fst (enableRawMode linux (console (Some "xterm") "hi" [] [1%nat])) = 0.
Proof.
  assert (Hon : on_terminal (console (Some "xterm") "hi" [] [1%nat])) by (repeat split).
  split; [exact Hon|].
  destruct (enableRawMode_outcome linux (console (Some "xterm") "hi" [] [1%nat])) as (H & _).
  exact (H Hon).
Defined.

Lemma enableRawMode_on_terminal (K : termios_macros) (p : Proc) :
  on_terminal p ->
  enableRawMode K p =
  (0, mkProc (flush (unread_entering p) (sys p)) true (env_TERM p) (stdin p)
             (raw_of K (tty p)) false [] (tail (received p))
             (tty p) 1 (if atexit_registered p =? 0 then 1 else atexit_registered p)).
Proof.
  intros (Htty & Hget & Hset). unfold enableRawMode. rewrite Htty. cbn [negb].
  set (p1 := if atexit_registered p =? 0 then set_atexit_registered 1 p else p).
  assert (Hp1 : p1 = mkProc (sys p) true (env_TERM p) (stdin p) (tty p) false []
                            (received p) (orig_termios p) (rawmode p)
                            (if atexit_registered p =? 0 then 1 else atexit_registered p)).
  { unfold p1. destruct p as [s0 i0 e0 d0 t0 g0 f0 q0 o0 r0 x0].
    cbn in Htty, Hget, Hset |- *. subst. by destruct (x0 =? 0). }
  clearbody p1. subst p1. reflexivity.
Qed.

(** On a working terminal [clirRaw] runs the session in raw mode and puts
    the terminal back.  Entering raw mode discards the input that was
    received and not read; the session runs on what comes after it, and
    [clirRaw] returns what [clirEdit] returns on the caller's array, with
    the line the session left.  Leaving raw mode discards again what has
    been received by then and was not read; a newline is printed; the
    terminal has the attributes it had before, [rawmode] is 0 again, and
    the handler registered with [atexit] then does nothing. *)
Theorem clirRaw_restores_terminal
    (K : termios_macros) (a : list ascii) (buflen0 : Z) (prompt0 : string) (p : Proc) :
  on_terminal p -> buflen0 <> 0 ->
  let '(count, l, p') := clirRaw K a buflen0 prompt0 p in
  let run := clirEdit 0 a buflen0 prompt0 (flush (unread_entering p) (sys p)) in
  count = fst run /\
  l = line (snd run) /\
  sys p' = with_world (log (Printed (String LF EmptyString)))
                      (flush (unread_leaving p) (snd run)) /\
  tty p' = tty p /\ rawmode p' = 0 /\ orig_termios p' = tty p /\
  clirAtExit p' = p'.
Proof.
  intros Hon Hb. pose proof Hon as (Htty & _).
  unfold clirRaw. destruct (Z.eqb_spec buflen0 0) as [|_]; [done|].
  rewrite Htty. cbn [negb]. rewrite (enableRawMode_on_terminal K p Hon).
  change (0 =? -1) with false. cbv iota. cbn [sys].
  destruct (clirEdit 0 a buflen0 prompt0 (flush (unread_entering p) (sys p))) as [count s'].
  cbn [fst snd]. unfold disableRawMode, with_sys. cbn [rawmode sys].
  change (negb (1 =? 0)) with true. cbv iota.
  unfold tcsetattr. cbn [tcsetattr_fails orig_termios]. cbv iota beta.
  change (negb (0 =? -1)) with true. cbv iota.
  cbn [set_rawmode sys tty rawmode orig_termios stdin_isatty env_TERM stdin
       tcgetattr_fails tcsetattr_fails received atexit_registered tail].
  repeat split.
Qed.

Lemma clirRaw_restores_terminal_witness :
  let p := console (Some "xterm") "zhi" [] [1%nat; 0%nat] in
  on_terminal p /\
  let '(count, l, p') := clirRaw linux (replicate 16 "x"%char) 16 "> " p in
  count = Some 2 /\ l = "hi" /\ tty p' = cooked /\ rawmode p' = 0.
Proof.
  assert (Hon : on_terminal (console (Some "xterm") "zhi" [] [1%nat; 0%nat]))
    by (repeat split).
  split; [exact Hon|].
  pose proof (clirRaw_restores_terminal linux (replicate 16 "x"%char) 16 "> "
                (console (Some "xterm") "zhi" [] [1%nat; 0%nat]) Hon ltac:(lia)) as H.
  destruct (clirRaw linux (replicate 16 "x"%char) 16 "> "
              (console (Some "xterm") "zhi" [] [1%nat; 0%nat])) as [[count l] p'].
  destruct H as (H1 & H2 & _ & H3 & H4 & _).
  split; [rewrite H1; vm_compute; reflexivity|].
  split; [rewrite H2; vm_compute; reflexivity|].
  split; [exact H3|exact H4].
Defined.

(** When putting the terminal back fails, it stays raw and [rawmode]
    stays set, so that the handler registered with [atexit] tries again;
    if that call succeeds the terminal has its attributes back. *)
Theorem failed_restore_is_retried_at_exit
    (K : termios_macros) (a : list ascii) (buflen0 : Z) (prompt0 : string) (p : Proc)
    (rest : list bool) :
  stdin_isatty p = true -> tcgetattr_fails p = false ->
  tcsetattr_fails p = false :: true :: rest -> head rest <> Some true ->
  buflen0 <> 0 ->
  let p' := snd (clirRaw K a buflen0 prompt0 p) in
  fst (fst (clirRaw K a buflen0 prompt0 p))
    = fst (clirEdit 0 a buflen0 prompt0 (flush (unread_entering p) (sys p))) /\
  tty p' = raw_of K (tty p) /\ rawmode p' = 1 /\
  tty (clirAtExit p') = tty p /\ rawmode (clirAtExit p') = 0.
Proof.
  intros Htty Hget Hset Hrest Hb.
  unfold clirRaw. destruct (Z.eqb_spec buflen0 0) as [|_]; [done|].
  rewrite Htty. cbn [negb]. unfold enableRawMode. rewrite Htty. cbn [negb].
  set (p1 := if atexit_registered p =? 0 then set_atexit_registered 1 p else p).
  assert (Hp1 : tty p1 = tty p /\ sys p1 = sys p /\
                tcgetattr_fails p1 = false /\
                tcsetattr_fails p1 = false :: true :: rest /\
                received p1 = received p)
    by (unfold p1; by destruct (_ =? 0)).
  clearbody p1. destruct p1 as [s1 i1 e1 d1 t1 g1 f1 q1 o1 r1 x1].
  cbn [tty sys tcgetattr_fails tcsetattr_fails received] in Hp1.
  destruct Hp1 as (-> & -> & -> & -> & ->).
  cbv zeta. unfold tcsetattr, set_orig_termios, set_rawmode, with_sys, unread_entering.
  cbn -[clirEdit raw_of flush].
  destruct (clirEdit 0 a buflen0 prompt0 _) as [count s'].
  unfold clirAtExit, disableRawMode, tcsetattr, set_rawmode.
  destruct rest as [|[] rest']; [|by destruct Hrest|]; cbn -[raw_of flush]; repeat split.
Qed.

Lemma failed_restore_is_retried_at_exit_witness :
  let p' := snd (clirRaw linux (replicate 16 "x"%char) 16 "> "
                         (console (Some "xterm") "hi" [false; true] [])) in
  rawmode p' = 1 /\ rawmode (clirAtExit p') = 0.
Proof.
  destruct (failed_restore_is_retried_at_exit linux (replicate 16 "x"%char) 16 "> "
              (console (Some "xterm") "hi" [false; true] []) [])
    as (_ & _ & H1 & _ & H2); [reflexivity|reflexivity|reflexivity|discriminate|lia|].
  split; [exact H1|exact H2].
Defined.

(** When the terminal cannot be put in raw mode, [clir] returns NULL, as
    at the end of the input, having printed nothing, not even the prompt,
    and having read nothing; the terminal is as it was. *)
Theorem clir_without_raw_mode (K : termios_macros) (prompt0 : string) (p : Proc) :
  isUnsupportedTerm (env_TERM p) = false -> stdin_isatty p = true ->
  tcgetattr_fails p = true \/ head (tcsetattr_fails p) = Some true ->
  let p' := snd (clir K prompt0 p) in
  fst (clir K prompt0 p) = None /\
  sys p' = sys p /\ stdin p' = stdin p /\ tty p' = tty p /\ rawmode p' = rawmode p.
Proof.
  intros Hterm Htty Hfail. unfold clir. rewrite Hterm.
  unfold clirRaw. change (LINENOISE_MAX_LINE =? 0) with false. cbv iota.
  rewrite Htty. cbn [negb]. unfold enableRawMode. rewrite Htty. cbn [negb].
  set (p1 := if atexit_registered p =? 0 then set_atexit_registered 1 p else p).
  assert (Hp1 : tty p1 = tty p /\ rawmode p1 = rawmode p /\ sys p1 = sys p /\
                stdin p1 = stdin p /\
                tcgetattr_fails p1 = tcgetattr_fails p /\
                tcsetattr_fails p1 = tcsetattr_fails p)
    by (unfold p1; by destruct (_ =? 0)).
  destruct Hp1 as (Ht1 & Hr1 & Hs1 & Hi1 & Hg1 & Hf1). clearbody p1.
  destruct (tcgetattr_fails p1) eqn:Eget.
  - cbn. by repeat split.
  - destruct Hfail as [Hg|Hh]; [congruence|].
    cbv zeta. unfold tcsetattr. cbn [tcsetattr_fails set_orig_termios orig_termios].
    rewrite Hf1. by destruct (tcsetattr_fails p) as [|[] rest].
Qed.

Lemma clir_without_raw_mode_witness :
  fst (clir linux "> " (console (Some "xterm") "hi" [true] [])) = None.
Proof.
  destruct (clir_without_raw_mode linux "> " (console (Some "xterm") "hi" [true] []))
    as (H & _); [reflexivity|reflexivity|right; reflexivity|exact H].
Defined.

(** *** The terminals [clir] does not edit on *)

Lemma strcaseeq_lower (a b : string) : strcaseeq a b = true <-> lower a = lower b.
Proof.
  revert b. induction a as [|x a IH]; intros [|y b]; simpl; try done.
  rewrite andb_true_iff, Ascii.eqb_eq, IH. split.
  - by intros [-> ->].
  - by intros [= -> ->].
Qed.

(** [isUnsupportedTerm] compares without regard to case: it answers 1
    exactly when TERM is set and its value, in lower case, is "dumb" or
    "cons25". *)
Theorem isUnsupportedTerm_ignores_case (term : option string) :
  isUnsupportedTerm term = true <->
  exists t, term = Some t /\ (lower t = "dumb" \/ lower t = "cons25").
Proof.
  destruct term as [t|]; simpl.
  - rewrite !orb_true_iff, !strcaseeq_lower. simpl lower. split.
    + intros [H|[H|H]]; [exists t; by split; [|left] | exists t; by split; [|right] | done].
    + intros (t' & [= <-] & [H|H]); [by left | right; by left].
  - split; [done|]. by intros (t & H & _).
Qed.


(** *** Reading a line with [fgets] *)

Lemma chars_append (a b : string) :
  list_ascii_of_string (a +:+ b) = list_ascii_of_string a ++ list_ascii_of_string b.
Proof.
  induction a as [|x a IH]; [by rewrite append_nil|].
  rewrite append_cons. simpl. by rewrite IH.
Qed.

Lemma chars_carriage_returns k :
  list_ascii_of_string (carriage_returns k) = replicate k CR.
Proof. unfold carriage_returns. by rewrite list_ascii_of_string_of_list_ascii. Qed.

Lemma nth_middle_app {A} (l r : list A) (x d : A) : nth (length l) (l ++ x :: r) d = x.
Proof. induction l; simpl; done. Qed.

(** The loop of [clir] that takes line ends off the end of the line. *)
Lemma strip_eol_app (l t u : list ascii) :
  Forall (fun c => c <> LF /\ c <> CR) l ->
  Forall (fun c => c = LF \/ c = CR) t ->
  strip_eol (length l + length t) (l ++ t ++ u) = l.
Proof.
  intros Hl Ht. revert u. induction t as [|x t IH] using rev_ind; intros u;
    [|apply Forall_app in Ht as [Ht Hx]; inversion Hx as [|? ? Hx' _]; subst;
      specialize (IH Ht)].
  - rewrite Nat.add_0_r. simpl app. destruct l as [|c l _] using rev_ind; [done|].
    rewrite length_app, Nat.add_comm. simpl.
    rewrite <- (app_assoc l [c] u). simpl (_ ++ _).
    rewrite nth_middle_app.
    apply Forall_app in Hl as [_ Hc]. inversion Hc as [|? ? [H1 H2] _]; subst.
    destruct (Ascii.eqb_spec c LF); [done|]. destruct (Ascii.eqb_spec c CR); [done|].
    simpl. change (c :: u) with ([c] ++ u). rewrite app_assoc.
    replace (S (length l)) with (length (l ++ [c])) by (rewrite length_app; simpl; lia).
    by rewrite take_app_length.
  - rewrite length_app, Nat.add_assoc, Nat.add_comm. simpl.
    rewrite <- (app_assoc t [x] u), app_assoc. simpl ([x] ++ u).
    replace (length l + length t)%nat with (length (l ++ t)) by (by rewrite length_app).
    rewrite nth_middle_app.
    replace (Ascii.eqb x LF || Ascii.eqb x CR) with true
      by (destruct Hx' as [-> | ->]; done).
    rewrite length_app, <- app_assoc. apply IH.
Qed.

Lemma chomp_line (l : list ascii) : chomp (l ++ [LF]) = l.
Proof.
  unfold chomp. rewrite length_app, Nat.add_comm. simpl.
  rewrite nth_middle_app. simpl. by rewrite take_app_length.
Qed.

(** [clir] without line editing, for a terminal it takes to be unable to
    or for an input that is no terminal: the terminal's attributes are not
    touched; the prompt is printed in the first case and nothing is in
    the second; at the end of the input the result is NULL; and a line
    that fits the buffer is taken off the input and returned without its
    newline, in the first case also without the carriage returns before
    it, in the second with them. *)
Theorem clir_reads_line_without_editing
    (K : termios_macros) (prompt0 : string) (p : Proc) :
  fallback p = true ->
  let r := fst (clir K prompt0 p) in
  let p' := snd (clir K prompt0 p) in
  tty p' = tty p /\ rawmode p' = rawmode p /\
  sys p' = (if isUnsupportedTerm (env_TERM p)
            then with_sys (with_world (log (Printed prompt0))) p else p).(sys) /\
  (stdin p = [] -> r = None) /\
  (forall (e : string) (k : nat) (rest : list ascii),
     plain_line e -> (String.length e + k < Z.to_nat (LINENOISE_MAX_LINE - 1))%nat ->
     stdin p = text_line (e +:+ carriage_returns k) ++ rest ->
     stdin p' = rest /\
     r = Some (if isUnsupportedTerm (env_TERM p) then e else e +:+ carriage_returns k)).
Proof.
  intros Hfb. unfold fallback in Hfb.
  assert (Hline : forall (e : string) (k : nat) (rest : list ascii),
     plain_line e -> (String.length e + k < Z.to_nat (LINENOISE_MAX_LINE - 1))%nat ->
     stdin p = text_line (e +:+ carriage_returns k) ++ rest ->
     stdin p <> [] /\
     fgets (Z.to_nat (LINENOISE_MAX_LINE - 1)) (stdin p)
       = (text_line (e +:+ carriage_returns k), rest) /\
     list_ascii_of_string (cstr (text_line (e +:+ carriage_returns k)))
       = list_ascii_of_string e ++ replicate k CR ++ [LF]).
  { intros e k rest (_ & He) Hk Hin.
    assert (Hf : Forall (fun c => c <> LF /\ c <> NUL)
                   (list_ascii_of_string (e +:+ carriage_returns k))).
    { rewrite chars_append, chars_carriage_returns. apply Forall_app. split.
      - eapply Forall_impl; [exact He|]. by intros c (? & _ & ?).
      - apply Forall_replicate. done. }
    split; [|split].
    - rewrite Hin. unfold text_line. rewrite <- app_assoc.
      intros Happ. by apply app_eq_nil in Happ as [_ ?].
    - rewrite Hin. apply fgets_text_line.
      + eapply Forall_impl; [exact Hf|]. by intros c (? & _).
      + rewrite <- length_chars, chars_append, chars_carriage_returns, length_app,
          length_replicate, length_chars. exact Hk.
    - rewrite cstr_text.
      + unfold text_line.
        by rewrite list_ascii_of_string_of_list_ascii, chars_append,
          chars_carriage_returns, <- app_assoc.
      + unfold text_line. apply Forall_app. split.
        * eapply Forall_impl; [exact Hf|]. by intros c (_ & ?).
        * by repeat constructor. }
  cbv zeta. unfold clir.
  destruct (isUnsupportedTerm (env_TERM p)) eqn:Eterm.
  - change (stdin (with_sys (with_world (log (Printed prompt0))) p)) with (stdin p).
    split; [|split; [|split; [|split]]].
    + by destruct (stdin p); [|destruct (fgets _ _)].
    + by destruct (stdin p); [|destruct (fgets _ _)].
    + by destruct (stdin p); [|destruct (fgets _ _)].
    + by intros ->.
    + intros e k rest He Hk Hin.
      destruct (Hline e k rest He Hk Hin) as (Hne & Hg & Hc).
      destruct (stdin p) as [|c0 d0] eqn:Ed; [done|].
      rewrite Hg, Hc. cbn [fst snd stdin set_stdin]. split; [done|]. f_equal.
      pose proof (strip_eol_app (list_ascii_of_string e) (replicate k CR ++ [LF]) []) as Hs.
      rewrite app_nil_r, <- length_app in Hs. rewrite Hs.
      * by rewrite string_of_list_ascii_of_string.
      * destruct He as (_ & He). eapply Forall_impl; [exact He|]. by intros c (? & ? & _).
      * apply Forall_app. split; [apply Forall_replicate; by right|].
        repeat constructor.
  - simpl in Hfb. unfold clirRaw.
    change (LINENOISE_MAX_LINE =? 0) with false. cbv iota. rewrite Hfb.
    split; [|split; [|split; [|split]]].
    + destruct (stdin p); [|destruct (fgets _ _)]; cbv iota beta; try case_bool_decide; done.
    + destruct (stdin p); [|destruct (fgets _ _)]; cbv iota beta; try case_bool_decide; done.
    + destruct (stdin p); [|destruct (fgets _ _)]; cbv iota beta; try case_bool_decide; done.
    + by intros ->.
    + intros e k rest He Hk Hin.
      destruct (Hline e k rest He Hk Hin) as (Hne & Hg & Hc).
      destruct (stdin p) as [|c0 d0] eqn:Ed; [done|].
      rewrite Hg, Hc. rewrite app_assoc, chomp_line.
      rewrite <- chars_carriage_returns, <- chars_append, string_of_list_ascii_of_string.
      rewrite bool_decide_eq_false_2; [done|].
      intros [= Hs]. rewrite s32_small in Hs.
      * lia.
      * rewrite length_chars. rewrite <- length_chars, chars_append,
          chars_carriage_returns, length_app, length_replicate, length_chars.
        unfold LINENOISE_MAX_LINE in Hk. lia.
Qed.

Lemma clir_reads_line_without_editing_witness :
  fst (clir linux "> " (piped (Some "xterm") (String "h" (String "i" (String CR (String LF "x"))))))
    = Some (String "h" (String "i" (String CR EmptyString))) /\
  fst (clir linux "> " (piped (Some "DUMB") (String "h" (String "i" (String CR (String LF "x"))))))
    = Some "hi".
Proof.
  assert (Hp : plain_line "hi").
  { split; [unfold LINENOISE_MAX_LINE; cbn [String.length]; lia|].
    repeat constructor; discriminate. }
  assert (Hk : (String.length "hi" + 1 < Z.to_nat (LINENOISE_MAX_LINE - 1))%nat)
    by (unfold LINENOISE_MAX_LINE; cbn [String.length]; lia).
  split.
  - destruct (clir_reads_line_without_editing linux "> "
                (piped (Some "xterm") (String "h" (String "i" (String CR (String LF "x"))))))
      as (_ & _ & _ & _ & H); [reflexivity|].
    destruct (H "hi" 1%nat ["x"%char] Hp Hk) as (_ & Hr); [reflexivity|exact Hr].
  - destruct (clir_reads_line_without_editing linux "> "
                (piped (Some "DUMB") (String "h" (String "i" (String CR (String LF "x"))))))
      as (_ & _ & _ & _ & H); [reflexivity|].
    destruct (H "hi" 1%nat ["x"%char] Hp Hk) as (_ & Hr); [reflexivity|exact Hr].
Defined.


(** *** A line typed on the terminal *)

Lemma printable_self_insert (c : ascii) :
  printable c -> dispatch c = self_insert c /\ schar c <> 9 /\ c <> NUL.
Proof.
  intros H.
  assert (Hb : (32 <=? code c) && (code c <=? 126) = true)
    by (unfold printable in H; apply andb_true_intro; split; apply Z.leb_le; lia).
  clear H.
  destruct c as [[] [] [] [] [] [] [] []]; vm_compute in Hb; try discriminate Hb;
    (split; [reflexivity|split; [by vm_compute|done]]).
Qed.

Lemma composing_len N e i s : composing N e i s -> len (st s) = Z.of_nat (length e).
Proof.
  intros [Hs _ Ht _ _ _ _]. pose proof (text_length s Hs) as Hl. rewrite Ht in Hl.
  destruct Hs as ((? & ?) & _). lia.
Qed.

Lemma sane_line (s : Sys) :
  sane s -> Forall (fun c => c <> NUL) (text s) -> line s = string_of_list_ascii (text s).
Proof.
  intros Hs Hf. destruct Hs as (_ & Hnul & _).
  unfold line. rewrite <- (take_drop_middle _ _ _ Hnul). by apply cstr_app_nul.
Qed.

(** A turn of the loop on a printable character at the end of the line. *)
Lemma clirEdit_turn_composing N c e i s :
  printable c -> composing N e (Key c :: i) s -> Z.of_nat (length e) + 1 < N ->
  exists s', clirEdit_turn s = (Go tt, s') /\ composing N (e ++ [c]) i s'.
Proof.
  intros Hp Hc Hroom. destruct (printable_self_insert c Hp) as (Hd & Htab & _).
  pose proof (composing_len _ _ _ _ Hc) as Hlen.
  rewrite (turn_dispatches c i s (composing_input _ _ _ _ Hc) Htab), Hd.
  set (s1 := with_world (set_input i) s).
  assert (C1 : composing N e i s1) by (destruct Hc; by split).
  assert (Hlen1 : len (st s1) = Z.of_nat (length e)) by done.
  clearbody s1. clear Hc Hlen s. destruct C1 as [Hs He Ht Hi Hq Hb Hz].
  assert (Ty : typing (Z.to_nat N) (length e) i s1) by (split; try done; lia).
  pose proof (clirEditInsert_value (R:=Z) c s1) as Hv.
  unfold next_write_fails in Hv. rewrite Hq, andb_false_r in Hv.
  pose proof (@clirEditInsert_text Z c s1 Hs ltac:(lia) ltac:(lia)) as (Hs2 & Ht2 & Hp2).
  pose proof (clirEditInsert_quiet (R:=Z) c s1 Hq) as Hq2.
  pose proof (clirEditInsert_typing (R:=Z) c _ _ i s1 Ty ltac:(lia)) as [T1 T2 T3 T4 T5 _].
  assert (Htext : text (snd (@clirEditInsert Z c s1)) = e ++ [c]).
  { rewrite Ht2, He, Hlen1, Nat2Z.id, Ht. by rewrite take_ge, drop_ge by lia. }
  unfold self_insert, mbind, M_bind.
  destruct (clirEditInsert c s1) as [f s2]. cbn [fst snd] in *. subst f.
  change (negb (0 =? 0)) with false. cbv iota.
  assert (C2 : composing N (e ++ [c]) i s2) by (split; try done; lia).
  destruct (Ascii.eqb c SPACE).
  - unfold gets, modify. eexists. split; [reflexivity|]. destruct C2. by split.
  - by exists s2.
Qed.

(** The loop on the characters of a line and the key that ends it. *)
Lemma clirEdit_loop_composing N l : forall e fuel s c rest,
  Forall printable l -> schar c = 13 ->
  composing N e ((Key <$> l) ++ Key c :: rest) s ->
  Z.of_nat (length e + length l) + 1 < N -> (length l < fuel)%nat ->
  exists s', clirEdit_loop fuel s = (Ret (s32 (Z.of_nat (length e + length l))), s') /\
             sane s' /\ text s' = e ++ l /\ input (world s') = rest.
Proof.
  induction l as [|x l IH]; intros e fuel s c rest Hl Hc Hs Hroom Hfuel.
  - destruct fuel as [|fuel]; [simpl in Hfuel; lia|].
    pose proof (composing_len _ _ _ _ Hs) as Hlen. destruct Hs as [Hs He Ht Hi Hq Hb Hz].
    simpl in Hi. simpl clirEdit_loop. unfold mbind at 1, M_bind at 1.
    rewrite (turn_dispatches c rest s Hi) by lia.
    rewrite (dispatch_enter c Hc).
    unfold drop_newest, mbind, M_bind, modify, gets, leave. cbn [with_hist st].
    eexists. split; [|split; [|split]].
    + cbn [with_world st]. rewrite Hlen, Nat.add_0_r. reflexivity.
    + done.
    + by rewrite app_nil_r.
    + done.
  - destruct fuel as [|fuel]; [simpl in Hfuel; lia|].
    inversion Hl as [|? ? Hx Hl']; subst. simpl in Hs, Hroom, Hfuel.
    destruct (clirEdit_turn_composing N x e _ s Hx Hs ltac:(lia)) as (s1 & Hturn & Hs1).
    simpl clirEdit_loop. unfold mbind at 1, M_bind at 1. rewrite Hturn.
    destruct (IH (e ++ [x]) fuel s1 c rest Hl' Hc Hs1) as (s' & Hrun & Hsane & Htext & Hin).
    + rewrite length_app. simpl. lia.
    + lia.
    + exists s'. rewrite Hrun, Htext, <- app_assoc. simpl.
      replace (length (e ++ [x]) + length l)%nat with (length e + S (length l))%nat
        by (rewrite length_app; simpl; lia).
      done.
Qed.

(** A session in which a line of printable characters is typed and
    ended. *)
Lemma clirEdit_composes fd0 a prompt0 (e : string) c rest s :
  Forall printable (list_ascii_of_string e) -> schar c = 13 ->
  strlen e + 1 < Z.of_nat (length a) -> Z.of_nat (length a) < 2 ^ 64 ->
  input (world s) = keys e ++ Key c :: rest ->
  write_fails (world s) = [] -> fault (world s) = false ->
  exists s', clirEdit fd0 a (Z.of_nat (length a)) prompt0 s = (Some (s32 (strlen e)), s') /\
             line s' = e /\ input (world s') = rest.
Proof.
  intros He Hc Hroom Hobj Hin Hq Hf.
  unfold clirEdit, clirEdit_body.
  unfold mbind, M_bind, gets, store, modify. cbv beta iota zeta.
  match goal with |- context [write prompt0 ?x] => set (s1 := x) end.
  assert (Hpoke : poke 0 NUL
            (with_st (fun _ => mkState fd0 a (Z.of_nat (length a)) prompt0 (strlen prompt0)
                                       0 0 0 (getColumns (world s)) 0 0 0) s)
          = with_st (fun _ => mkState fd0 (<[0%nat := NUL]> a) (Z.of_nat (length a)) prompt0
                                       (strlen prompt0) 0 0 0 (getColumns (world s)) 0 0 0) s).
  { rewrite poke_in by (cbn [with_st st buf]; unfold strlen in Hroom; lia). done. }
  assert (Hc1 : composing (Z.of_nat (length a)) [] (keys e ++ Key c :: rest) s1).
  { unfold s1. rewrite Hpoke. split; cbn [with_hist with_st st world buf len pos buflen]; try done.
    - split; [|split; [|split]].
      + unfold cursor_inv. cbn [with_hist with_st st pos len buflen]. lia.
      + cbn [with_hist with_st st len buf]. apply list_lookup_insert_eq.
        unfold strlen in Hroom. lia.
      + done.
      + cbn [with_hist with_st st buf]. by rewrite length_insert.
    - by rewrite length_insert. }
  clearbody s1. clear Hpoke.
  unfold write. rewrite (composing_quiet _ _ _ _ Hc1). cbv beta iota.
  assert (Hp : (strlen prompt0 =? -1) = false) by (apply Z.eqb_neq; unfold strlen; lia).
  rewrite Hp.
  match goal with
  | |- context [clirEdit_loop ?f ?x] =>
      destruct (clirEdit_loop_composing (Z.of_nat (length a)) (list_ascii_of_string e)
                  [] f x c rest He Hc) as (s' & Hrun & Hsane & Htext & Hrest)
  end.
  - destruct Hc1 as [Hs ? Ht ? ? ? ?]. by split.
  - simpl length. rewrite length_chars. unfold strlen in Hroom. lia.
  - rewrite length_chars, Hin. unfold keys. rewrite length_app, length_fmap, length_chars.
    simpl. lia.
  - rewrite Hrun. exists s'. simpl in Htext. simpl length. rewrite length_chars.
    split; [done|]. split; [|done].
    rewrite sane_line, Htext; [apply string_of_list_ascii_of_string|done|].
    rewrite Htext. eapply Forall_impl; [exact He|].
    intros x Hx. by destruct (printable_self_insert x Hx) as (_ & _ & ?).
Qed.

(** A line of printable characters typed on a working terminal and ended
    with Enter comes back from [clir] as it was typed, if it is shorter
    than 4095 characters and no write fails.  What had been received
    before raw mode was entered is discarded and is no part of the line;
    of the keys that follow Enter, those received by the time the
    terminal is put back are discarded too and the later ones stay in the
    input; the terminal has its attributes back. *)
Theorem clir_returns_typed_line
    (K : termios_macros) (prompt0 : string) (p : Proc) (e : string)
    (rest : list input_item) :
  on_terminal p -> isUnsupportedTerm (env_TERM p) = false ->
  Forall printable (list_ascii_of_string e) -> strlen e < LINENOISE_MAX_LINE - 1 ->
  discard (unread_entering p) (input (world (sys p))) = keys (e +:+ ENTER) ++ rest ->
  write_fails (world (sys p)) = [] -> fault (world (sys p)) = false ->
  let p' := snd (clir K prompt0 p) in
  fst (clir K prompt0 p) = Some e /\
  input (world (sys p')) = discard (unread_leaving p) rest /\
  tty p' = tty p /\ rawmode p' = 0.
Proof.
  intros Hon Hterm He Hlen Hin Hq Hf. pose proof Hon as (Htty & _).
  unfold clir. rewrite Hterm. unfold clirRaw.
  change (LINENOISE_MAX_LINE =? 0) with false. cbv iota.
  rewrite Htty. cbn [negb]. rewrite (enableRawMode_on_terminal K p Hon).
  change (0 =? -1) with false. cbv iota. cbn [sys].
  set (a := replicate (Z.to_nat LINENOISE_MAX_LINE) (indet (world (sys p)))).
  assert (Ha : Z.of_nat (length a) = LINENOISE_MAX_LINE)
    by (unfold a; rewrite length_replicate; done).
  clearbody a.
  assert (H1 : strlen e + 1 < Z.of_nat (length a)) by lia.
  assert (H2 : Z.of_nat (length a) < 2 ^ 64) by (rewrite Ha; done).
  assert (H3 : input (world (flush (unread_entering p) (sys p)))
               = keys e ++ Key "013"%char :: rest).
  { unfold flush. cbn [with_world world set_input input]. rewrite Hin.
    unfold keys, ENTER. by rewrite chars_append, fmap_app, <- app_assoc. }
  destruct (clirEdit_composes 0 a prompt0 e "013"%char rest
              (flush (unread_entering p) (sys p)) He eq_refl H1 H2 H3 Hq Hf)
    as (s' & Hrun & Hline & Hrest).
  rewrite Ha in Hrun. rewrite Hrun.
  unfold disableRawMode, with_sys, tcsetattr, set_rawmode, unread_leaving.
  cbn -[LINENOISE_MAX_LINE flush].
  rewrite bool_decide_eq_false_2.
  - cbn. by rewrite Hline, Hrest.
  - intros [= Hs]. rewrite s32_small in Hs; unfold strlen, LINENOISE_MAX_LINE in *; lia.
Qed.

Lemma clir_returns_typed_line_witness :
  let p := console (Some "xterm")
             (String "z" (String "h" (String "i" (String "013" "xy")))) []
             [1%nat; 1%nat] in
  fst (clir linux "> " p) = Some "hi" /\
  input (world (sys (snd (clir linux "> " p)))) = [Key "y"%char].
Proof.
  destruct (clir_returns_typed_line linux "> "
              (console (Some "xterm")
                 (String "z" (String "h" (String "i" (String "013" "xy")))) []
                 [1%nat; 1%nat])
              "hi" [Key "x"%char; Key "y"%char]) as (H & H' & _);
    [by repeat split | reflexivity
    | repeat (apply List.Forall_cons; [unfold printable, code; simpl; lia|]);
      apply List.Forall_nil
    | unfold LINENOISE_MAX_LINE, strlen; cbn [String.length]; lia
    | reflexivity | reflexivity | reflexivity | ].
  split; [exact H|exact H'].
Defined.

End FrontFacts.

(** ** Which key can write past the array *)

Module SafetyFacts.
Import Hist Edit Vocab EditFacts LineFacts SessionFacts TurnFacts.

#[export] Instance stays_sane_preorder : PreOrder stays_sane.
Proof.
  split.
  - intros x. split; [reflexivity|]. by intros H _.
  - intros x y z [F1 S1] [F2 S2]. split; [by etransitivity|].
    intros Hs Hf. apply S2; [by apply S1|].
    unfold fits in *. unfold same_frame, frame in F1.
    assert (buflen (st x) = buflen (st y) /\ length (buf (st x)) = length (buf (st y)))
      as [<- <-] by (split; congruence).
    done.
Qed.

#[local] Hint Resolve store_frame memmove_frame strncpy_frame write_frame read_frame
  refreshLine_frame clirEditInsert_frame : pres.
#[local] Hint Extern 1 (same_frame _ _) => exact eq_refl : pres.

Lemma stays_sane_intro {R A} (m : M R A) :
  preserves same_frame m ->
  (forall s, sane s -> fits s -> sane (snd (m s))) ->
  preserves stays_sane m.
Proof. intros Hf Hs s. split; [apply Hf|apply Hs]. Qed.

Lemma same_edit_sanity {R A} (m : M R A) : preserves same_edit m -> preserves stays_sane m.
Proof.
  intros H. apply stays_sane_intro; [by apply same_edit_frame|].
  intros s Hs _. by apply (same_edit_sane _ _ (H s)).
Qed.

Lemma read_sanity {R} n : preserves stays_sane (@read R n).
Proof.
  apply stays_sane_intro; [apply read_frame|].
  intros s Hs _. unfold read.
  destruct (input (world s)) as [|[c|] rest] eqn:E; simpl; rewrite ?E; simpl; try done.
  by destruct (take_keys n (Key c :: rest)).
Qed.

Ltac sane_modify :=
  split; [exact eq_refl|];
  unfold sane, cursor_inv, fits;
  cbn [with_st with_world with_hist st world hist mlmode completionCallback
       set_pos set_len set_buf set_word_pos set_history_index
       pos len buflen buf fault input log raise_fault set_input];
  intros; intuition lia.

#[local] Hint Extern 1 (stays_sane _ _) => sane_modify : pres.

Ltac by_sanity Hsane :=
  apply stays_sane_intro; [|intros s Hs Hf; by apply Hsane].

Lemma write_sanity {R} d : preserves stays_sane (@write R d).
Proof. apply same_edit_sanity, write_same_edit. Qed.

Lemma refreshLine_sanity {R} : preserves stays_sane (@refreshLine R).
Proof. apply same_edit_sanity, refreshLine_same_edit. Qed.

Lemma clirEditBackspace_sanity {R} : preserves stays_sane (@clirEditBackspace R).
Proof. by_sanity (@clirEditBackspace_sane R). unfold clirEditBackspace. pres. Qed.

Lemma clirEditDelete_sanity {R} : preserves stays_sane (@clirEditDelete R).
Proof. by_sanity (@clirEditDelete_sane R). unfold clirEditDelete. pres. Qed.

Lemma clirEditDeletePrevWord_sanity {R} : preserves stays_sane (@clirEditDeletePrevWord R).
Proof. by_sanity (@clirEditDeletePrevWord_sane R). unfold clirEditDeletePrevWord. pres. Qed.

Lemma clirEditMoveLeft_sanity {R} : preserves stays_sane (@clirEditMoveLeft R).
Proof. by_sanity (@clirEditMoveLeft_sane R). unfold clirEditMoveLeft. pres. Qed.

Lemma clirEditMoveRight_sanity {R} : preserves stays_sane (@clirEditMoveRight R).
Proof. by_sanity (@clirEditMoveRight_sane R). unfold clirEditMoveRight. pres. Qed.

Lemma word_right_sanity {R} : preserves stays_sane (@word_right R).
Proof. by_sanity (@word_right_sane R). unfold word_right. pres. Qed.

Lemma word_left_sanity {R} : preserves stays_sane (@word_left R).
Proof. by_sanity (@word_left_sane R). unfold word_left. pres. Qed.

Lemma swap_chars_sanity {R} : preserves stays_sane (@swap_chars R).
Proof. by_sanity (@swap_chars_sane R). unfold swap_chars. pres. Qed.

Lemma clirEditHistoryNext_sanity {R} dir : preserves stays_sane (@clirEditHistoryNext R dir).
Proof. by_sanity (@clirEditHistoryNext_sane R dir). unfold clirEditHistoryNext. pres. Qed.

Lemma kill_line_sanity {R} :
  preserves stays_sane
    (store 0 NUL;; modify (with_st (set_len 0));; modify (with_st (set_pos 0));;
     refreshLine : M R unit).
Proof. by_sanity (@kill_line_sane R). pres. Qed.

Lemma kill_to_end_sanity {R} :
  preserves stays_sane
    (cs ← gets st; store (pos cs) NUL;; modify (with_st (set_len (pos cs)));;
     refreshLine : M R unit).
Proof. by_sanity (@kill_to_end_sane R). pres. Qed.

Lemma to_end_sanity {R} :
  preserves stays_sane
    (cs ← gets st; modify (with_st (set_pos (len cs)));; refreshLine : M R unit).
Proof. by_sanity (@to_end_sane R). pres. Qed.

Lemma end_key_sanity {R} :
  preserves stays_sane
    (cs ← gets st;
     if negb (pos cs =? len cs)
     then modify (with_st (set_pos (len cs)));; refreshLine else mret tt : M R unit).
Proof. by_sanity (@end_key_sane R). pres. Qed.

#[local] Hint Resolve write_sanity refreshLine_sanity read_sanity
  clirEditBackspace_sanity clirEditDelete_sanity clirEditDeletePrevWord_sanity
  clirEditMoveLeft_sanity clirEditMoveRight_sanity word_right_sanity word_left_sanity
  swap_chars_sanity clirEditHistoryNext_sanity kill_line_sanity kill_to_end_sanity
  to_end_sanity end_key_sanity : pres.

Ltac sanity := repeat first [ solve [auto with pres] | pres_step ].

Lemma escape_sequence_sanity : preserves stays_sane escape_sequence.
Proof. unfold escape_sequence. sanity. Qed.
#[local] Hint Resolve escape_sequence_sanity : pres.

(** A key the [switch] has a [case] for. *)
Lemma dispatch_special (c : ascii) :
  self_inserted c = false -> preserves stays_sane (dispatch c).
Proof.
  intros H. unfold self_inserted in H. apply negb_false_iff, existsb_exists in H.
  destruct H as (k & Hin & Hk). apply Z.eqb_eq in Hk. unfold dispatch. rewrite Hk.
  unfold special_keys in Hin. simpl in Hin.
  repeat (destruct Hin as [<-|Hin]; [unfold drop_newest, clirClearScreen; sanity|]).
  destruct Hin.
Qed.

Lemma dispatch_default (c : ascii) : self_inserted c = true -> dispatch c = self_insert c.
Proof.
  intros H. destruct c as [[] [] [] [] [] [] [] []]; vm_compute in H;
    first [discriminate H | reflexivity].
Qed.

Lemma self_insert_state (c : ascii) (s : Sys) :
  core (snd (self_insert c s)) = core (snd (@clirEditInsert Z c s)) \/
  exists p, snd (self_insert c s) = with_st (set_word_pos p) (snd (@clirEditInsert Z c s)).
Proof.
  unfold self_insert, mbind, M_bind.
  destruct (clirEditInsert c s) as [[v|r] s2]; cbn [fst snd]; [|by left].
  destruct (negb (v =? 0)); [by left|].
  destruct (Ascii.eqb c SPACE); [|by left].
  right. by eexists.
Qed.

(** Of all the keys that the [switch] of [clirEdit] takes, only one that
    is inserted can make a store outside the array, and it does when the
    line has reached the last byte of an array that [cs->buflen] says has
    room: on a terminated line in an array that holds [cs->buflen] bytes,
    there is a fault after the key exactly when it is inserted,
    [len < buflen], and [len + 1] is the size of the array; after any
    other key the line is again terminated inside the array. *)
Theorem only_inserted_key_overflows (c : ascii) (s : Sys) :
  sane s -> fits s ->
  let s' := snd (dispatch c s) in
  (fault (world s') = true <->
   self_inserted c = true /\ len (st s) < buflen (st s) /\
   len (st s) + 1 = Z.of_nat (length (buf (st s)))) /\
  (fault (world s') = false -> sane s').
Proof.
  intros Hs Hf s'. pose proof (sane_size _ Hs) as Hl.
  destruct (self_inserted c) eqn:E.
  - subst s'. rewrite (dispatch_default c E).
    assert (Hcore : forall x y, core x = core y -> fault (world x) = fault (world y) /\
                                                   (sane y -> sane x)).
    { intros x y H. split; [by apply same_edit_fault|by apply same_edit_sane]. }
    assert (Hst : fault (world (snd (self_insert c s)))
                  = fault (world (snd (@clirEditInsert Z c s))) /\
                  (sane (snd (@clirEditInsert Z c s)) -> sane (snd (self_insert c s)))).
    { destruct (self_insert_state c s) as [H|(p & ->)]; [by apply Hcore|].
      split; [done|]. unfold sane, cursor_inv. by cbn [with_st st set_word_pos pos len buflen buf world]. }
    destruct Hst as [-> Hsane].
    destruct (decide (len (st s) < buflen (st s) /\
                      len (st s) + 1 = Z.of_nat (length (buf (st s))))) as [[H1 H2]|Hno].
    + rewrite clirEditInsert_overflows by (done || lia). by split.
    + assert (Hok : sane (snd (@clirEditInsert Z c s)))
        by (apply clirEditInsert_sane; [done|lia]).
      split; [|intros _; by apply Hsane].
      destruct Hok as (_ & _ & -> & _). split; [done|]. intros (_ & ? & ?). lia.
  - destruct (dispatch_special c E s) as [_ Hsane]. specialize (Hsane Hs Hf).
    fold s' in Hsane. split; [|done].
    destruct Hsane as (_ & _ & -> & _). split; [done|]. by intros (? & _).
Qed.

Lemma only_inserted_key_overflows_witness :
  let s := after_typing "ls" "" in
  sane s /\ fits s /\
  (fault (world (snd (dispatch "x" s))) = true <->
   self_inserted "x" = true /\ len (st s) < buflen (st s) /\
   len (st s) + 1 = Z.of_nat (length (buf (st s)))).
Proof.
  assert (Hs : sane (after_typing "ls" "")) by (vm_compute; repeat split; congruence).
  assert (Hf : fits (after_typing "ls" "")) by (vm_compute; split; congruence).
  split; [exact Hs|]. split; [exact Hf|].
  destruct (only_inserted_key_overflows "x" (after_typing "ls" "") Hs Hf) as [H _].
  exact H.
Defined.

End SafetyFacts.

(** ** The keys that cut the line, move to its ends, and swap *)

Module KeyFacts.
Import Hist Edit Vocab EditFacts LineFacts SessionFacts TurnFacts.

Lemma dispatch_kill_line c :
  schar c = 21 ->
  dispatch c = (store 0 NUL;; modify (with_st (set_len 0));; modify (with_st (set_pos 0));;
                refreshLine).
Proof. intros H. unfold dispatch. by rewrite H. Qed.

Lemma dispatch_kill_to_end c :
  schar c = 11 ->
  dispatch c = (cs ← gets st; store (pos cs) NUL;; modify (with_st (set_len (pos cs)));;
                refreshLine).
Proof. intros H. unfold dispatch. by rewrite H. Qed.

Lemma dispatch_to_start c :
  schar c = 1 -> dispatch c = (modify (with_st (set_pos 0));; refreshLine).
Proof. intros H. unfold dispatch. by rewrite H. Qed.

Lemma dispatch_to_end c :
  schar c = 5 ->
  dispatch c = (cs ← gets st; modify (with_st (set_pos (len cs)));; refreshLine).
Proof. intros H. unfold dispatch. by rewrite H. Qed.

(** On a terminated line, ctrl-u empties it, ctrl-k cuts it at the cursor,
    ctrl-a and ctrl-e move the cursor to its start and its end and leave
    the text; the line stays terminated and the session goes on. *)
Theorem cut_and_jump_keys (c : ascii) (s : Sys) :
  sane s ->
  let s' := snd (dispatch c s) in
  (schar c = 21 -> sane s' /\ text s' = [] /\ pos (st s') = 0) /\
  (schar c = 11 ->
   sane s' /\ text s' = take (Z.to_nat (pos (st s))) (text s) /\ pos (st s') = pos (st s)) /\
  (schar c = 1 -> sane s' /\ text s' = text s /\ pos (st s') = 0) /\
  (schar c = 5 -> sane s' /\ text s' = text s /\ pos (st s') = len (st s)).
Proof.
  intros Hs s'. pose proof (sane_size _ Hs) as Hl.
  pose proof Hs as ((Hpos & Hcap) & Hnul & Hf & Hobj).
  split; [|split; [|split]]; intros Hc; subst s'.
  - rewrite (dispatch_kill_line c Hc). split; [by apply kill_line_sane|].
    unfold mbind, M_bind, store, modify. cbv beta iota.
    refresh_away; rewrite poke_in by lia; unfold text; st_simpl; done.
  - rewrite (dispatch_kill_to_end c Hc). split; [by apply kill_to_end_sane|].
    unfold mbind, M_bind, gets, store, modify. cbv beta iota.
    refresh_away; rewrite poke_in by lia; unfold text; st_simpl;
      (split; [|done]);
      assert (Hp' : (Z.to_nat (pos (st s)) <= Z.to_nat (len (st s)))%nat) by lia;
      clear -Hl Hp'; set (l := Z.to_nat (len (st s))) in *;
      set (p := Z.to_nat (pos (st s))) in *; clearbody l p; buf_eq.
  - rewrite (dispatch_to_start c Hc).
    unfold mbind, M_bind, store, modify. cbv beta iota.
    refresh_away; unfold text; sane_fin.
  - rewrite (dispatch_to_end c Hc). split; [by apply to_end_sane|].
    unfold mbind, M_bind, gets, store, modify. cbv beta iota.
    refresh_away; unfold text; st_simpl; done.
Qed.

Lemma cut_and_jump_keys_witness :
  let s' := snd (dispatch "011"%char (after_typing "ls" "")) in
  sane s' /\ text s' = take (Z.to_nat (pos (st (after_typing "ls" "")))) (text (after_typing "ls" ""))
  /\ pos (st s') = pos (st (after_typing "ls" "")).
Proof.
  destruct (cut_and_jump_keys "011"%char (after_typing "ls" "")) as (_ & H & _).
  - vm_compute. repeat split; congruence.
  - apply H. reflexivity.
Defined.

Lemma swap_chars_outside {R} (s : Sys) :
  ~ 0 < pos (st s) < len (st s) -> @swap_chars R s = (Go tt, s).
Proof.
  intros H. unfold swap_chars, mbind, M_bind, gets.
  destruct (Z.gtb_spec (pos (st s)) 0); destruct (Z.ltb_spec (pos (st s)) (len (st s)));
    cbn [andb]; try done. lia.
Qed.

(** ctrl-t with the cursor at the start or the end of the line changes
    nothing.  Inside a terminated line it swaps the character under the
    cursor with the one before it and moves the cursor one to the right,
    unless it is on the last character; the line stays terminated. *)
Theorem swap_chars_swaps {R} (s : Sys) :
  (~ 0 < pos (st s) < len (st s) -> @swap_chars R s = (Go tt, s)) /\
  (sane s -> 0 < pos (st s) < len (st s) ->
   let s' := snd (@swap_chars R s) in
   let p := Z.to_nat (pos (st s)) in
   sane s' /\
   (forall i, text s' !! i =
              text s !! (if decide (i = p - 1)%nat then p
                         else if decide (i = p) then (p - 1)%nat else i)) /\
   pos (st s') = if pos (st s) =? len (st s) - 1 then pos (st s) else pos (st s) + 1).
Proof.
  split; [apply swap_chars_outside|].
  intros Hs Hp s' p. split; [by apply swap_chars_sane|]. subst s'.
  pose proof (sane_size _ Hs) as Hl.
  pose proof Hs as ((Hpos & Hcap) & Hnul & Hf & Hobj).
  destruct (lookup_lt_is_Some_2 (buf (st s)) p ltac:(unfold p; lia)) as [y Hy].
  destruct (lookup_lt_is_Some_2 (buf (st s)) (p - 1) ltac:(unfold p; lia)) as [x Hx].
  unfold swap_chars, mbind, M_bind, gets, store, modify. cbv zeta.
  destruct (Z.gtb_spec (pos (st s)) 0); [|lia].
  destruct (Z.ltb_spec (pos (st s)) (len (st s))); [|lia]. cbn [andb].
  rewrite (load_lookup _ _ (pos (st s)) y) by (done || lia).
  rewrite (load_lookup _ _ (pos (st s) - 1) x)
    by (lia || (replace (Z.to_nat (pos (st s) - 1)) with (p - 1)%nat by (unfold p; lia); done)).
  assert (Hp' : (0 < p < Z.to_nat (len (st s)))%nat) by (unfold p; lia).
  destruct (Z.eqb_spec (pos (st s)) (len (st s) - 1)); cbn [negb];
    unfold mret, M_ret; cbv beta iota;
    refresh_away;
    rewrite (poke_in (pos (st s) - 1)) by lia;
    rewrite poke_in by (st_simpl; look; lia);
    unfold text; st_simpl;
    replace (Z.to_nat (pos (st s) - 1)) with (p - 1)%nat by (unfold p; lia);
    fold p;
    (split; [|done]); intros i;
    clear -Hl Hp' Hx Hy; set (l := Z.to_nat (len (st s))) in *; clearbody l p;
    look; cases; subst; rewrite ?Hx, ?Hy; try done;
    repeat case_decide; try lia; try done.
Qed.

Lemma swap_chars_swaps_witness :
  let s := with_st (set_pos 1) (after_typing "ls" "") in
  let s' := snd (@swap_chars unit s) in
  sane s' /\ text s' !! 0%nat = text s !! 1%nat.
Proof.
  destruct (@swap_chars_swaps unit (with_st (set_pos 1) (after_typing "ls" ""))) as (_ & H).
  destruct H as (H1 & H2 & _).
  - vm_compute. repeat split; congruence.
  - vm_compute. split; reflexivity.
  - split; [exact H1|]. exact (H2 0%nat).
Defined.

End KeyFacts.
